(** * Taskify: the task helpers of the client, the task model and the task
    routes of the server.

    The development follows the sources:
    - [frontend/src/utils/constants.js] and [frontend/src/utils/helpers.js]
      (tables, [getPriorityValue], [getTaskStats], [sortTasks],
      [filterTasks], [isOverdue]);
    - [models/Task.js] (schema, pre-save hook, [toggleCompletion],
      [addSubTask], [findOverdue]);
    - [controllers/taskController.js], [routes/tasks.js], [routes/auth.js];
    - [services/api.js] (the response interceptor of the client).

    Strings are [string]; a JavaScript date is its time value, the number of
    milliseconds since the epoch, in [Z]; counts are in [Z]. *)

From Stdlib Require Import ZArith QArith Qround Lqa.
From stdpp Require Import base strings list gmap sorting.

Open Scope string_scope.
Open Scope Z_scope.

Set Warnings "-clear-no-such-hyp".

(* ===================================================================== *)
(** * Part I. The client: tables and pure helpers                        *)
(* ===================================================================== *)

(** ** JavaScript values met by the helpers *)

(** The values that the comparison and lookup code of [helpers.js] handles:
    [undefined]/[null], integral numbers, strings, [Date] objects (by time
    value) and the members every object inherits from [Object.prototype]
    (by name). *)
Inductive Value :=
  | VUndef
  | VNum (n : Z)
  | VStr (s : string)
  | VDate (t : Z)
  | VObj (name : string).

(** Truthiness, as [||], [&&], [!] and [?:] test it. *)
Definition truthy (v : Value) : bool :=
  match v with
  | VUndef => false
  | VNum n => negb (n =? 0)
  | VStr s => negb (String.eqb s "")
  | VDate _ => true
  | VObj _ => true
  end.

(** [a || b] *)
Definition js_or (a b : Value) : Value := if truthy a then a else b.

(** [a < b] on the operands the helpers compare: two numbers, two dates
    (through their time values), or two strings (by code units).  An
    inherited member converts to a string that is no numeral and [undefined]
    to NaN, so against a number or a date they compare false.  The helpers
    compare no other pair of operands on the values of a task; [js_lt] is
    false on those as well. *)
Definition js_lt (a b : Value) : bool :=
  match a, b with
  | VNum x, VNum y | VDate x, VDate y | VNum x, VDate y | VDate x, VNum y =>
      x <? y
  | VStr s, VStr t => String.ltb s t
  | _, _ => false
  end.

(** [s.includes(t)] *)
Fixpoint includes (s t : string) : bool :=
  String.prefix t s ||
  match s with
  | EmptyString => false
  | String _ s' => includes s' t
  end.

(** [arr.join(sep)] on an array of strings. *)
Definition join (sep : string) (arr : list string) : string :=
  String.concat sep arr.

(** [new Date('YYYY-MM-DD')]: a date-only form is UTC midnight of that day.
    Days since the epoch of a proleptic Gregorian date, then milliseconds. *)
Definition days_from_civil (y m d : Z) : Z :=
  let y' := if m <=? 2 then y - 1 else y in
  let era := y' / 400 in
  let yoe := y' - era * 400 in
  let mp := if 2 <? m then m - 3 else m + 9 in
  let doy := (153 * mp + 2) / 5 + d - 1 in
  let doe := yoe * 365 + yoe / 4 - yoe / 100 + doy in
  era * 146097 + doe - 719468.

Definition msPerDay : Z := 86400000.

Definition Date_of_ymd (y m d : Z) : Z := days_from_civil y m d * msPerDay.

(** ** constants.js *)

Inductive Category :=
  work | personal | health | finance | shopping | education | other.

Inductive Priority := low | medium | high | urgent.

Definition category_value (c : Category) : string :=
  match c with
  | work => "work" | personal => "personal" | health => "health"
  | finance => "finance" | shopping => "shopping"
  | education => "education" | other => "other"
  end.

Definition priority_value (p : Priority) : string :=
  match p with
  | low => "low" | medium => "medium" | high => "high" | urgent => "urgent"
  end.

(** An entry of [TASK_CATEGORIES] or [TASK_PRIORITIES]. *)
Record Info := { value : string; label : string; icon : string; color : string }.

Definition TASK_CATEGORIES : list Info :=
  [ {| value := "work"; label := "Work"; icon := "💼"; color := "blue" |};
    {| value := "personal"; label := "Personal"; icon := "👤"; color := "purple" |};
    {| value := "health"; label := "Health"; icon := "🏥"; color := "green" |};
    {| value := "finance"; label := "Finance"; icon := "💰"; color := "yellow" |};
    {| value := "shopping"; label := "Shopping"; icon := "🛒"; color := "pink" |};
    {| value := "education"; label := "Education"; icon := "📚"; color := "lime" |};
    {| value := "other"; label := "Other"; icon := "📝"; color := "gray" |} ].

Definition TASK_PRIORITIES : list Info :=
  [ {| value := "low"; label := "Low"; color := "green"; icon := "🟢" |};
    {| value := "medium"; label := "Medium"; color := "yellow"; icon := "🟡" |};
    {| value := "high"; label := "High"; color := "red"; icon := "🔴" |};
    {| value := "urgent"; label := "Urgent"; color := "pink"; icon := "🚨" |} ].

(** ** Object literals and their prototype *)

(** The names an object literal inherits from [Object.prototype]; each is
    bound to a function, [__proto__] to the prototype object itself. *)
Definition Object_prototype : list string :=
  [ "constructor"; "__defineGetter__"; "__defineSetter__"; "hasOwnProperty";
    "__lookupGetter__"; "__lookupSetter__"; "isPrototypeOf";
    "propertyIsEnumerable"; "toString"; "valueOf"; "__proto__";
    "toLocaleString" ].

(** [obj[key]] on an object literal with own properties [own]: own
    properties first, then the prototype, else [undefined]. *)
Definition get_property (own : list (string * Value)) (key : string) : Value :=
  match list_find (λ kv, kv.1 = key) own with
  | Some (_, (_, v)) => v
  | None => if bool_decide (key ∈ Object_prototype) then VObj key else VUndef
  end.

(** ** helpers.js: lookups *)

Definition getCategoryInfo (category : string) : option Info :=
  match List.find (λ cat, String.eqb (value cat) category) TASK_CATEGORIES with
  | Some e => Some e
  | None => TASK_CATEGORIES !! 6%nat
  end.

Definition getPriorityInfo (priority : string) : option Info :=
  match List.find (λ p, String.eqb (value p) priority) TASK_PRIORITIES with
  | Some e => Some e
  | None => TASK_PRIORITIES !! 1%nat
  end.

Definition getPriorityValue (priority : string) : Value :=
  let priorities :=
    [ ("low", VNum 1); ("medium", VNum 2); ("high", VNum 3); ("urgent", VNum 4) ] in
  js_or (get_property priorities priority) (VNum 2).

(** [isOverdue(dueDate)], with the reading [now] of [new Date()]. *)
Definition isOverdue (now : Z) (dueDate : option Z) : bool :=
  match dueDate with
  | None => false
  | Some due => due <? now
  end.

(** ** Array built-ins, on the contents of an array *)

(** [arr.filter(callback)]: the elements on which the callback is truthy, in
    order. *)
Definition Array_filter {A} (callback : A → bool) (arr : list A) : list A :=
  List.filter callback arr.

(** [arr.sort(comparefn)].  ECMAScript asks for a stable sort: [x] goes
    before [y] when [comparefn(x, y) < 0], after it when [comparefn(x, y) > 0]
    and elements that compare [0] keep their order.  For a consistent
    comparator that fixes the result; it is computed here by insertion from
    the right. *)
Fixpoint sort_insert {A} (comparefn : A → A → Z) (x : A) (sorted : list A) : list A :=
  match sorted with
  | [] => [x]
  | y :: rest =>
      if 0 <? comparefn x y then y :: sort_insert comparefn x rest
      else x :: y :: rest
  end.

Definition Array_sort {A} (comparefn : A → A → Z) (arr : list A) : list A :=
  foldr (sort_insert comparefn) [] arr.

(** ** Function bodies with early [return] *)

(** A statement of a callback either returns a boolean or falls through. *)
Definition Stmt := option bool.

Definition return_ (b : bool) : Stmt := Some b.

(** [if (c) { s }] *)
Definition if_ (c : bool) (s : Stmt) : Stmt := if c then s else None.

(** [if (o && ...) { ... }] for a string that may be absent: the body runs on
    a present, non-empty string. *)
Definition if_set (o : option string) (body : string → Stmt) : Stmt :=
  match o with
  | Some s => if String.eqb s "" then None else body s
  | None => None
  end.

(** [s1; s2] *)
Definition then_ (s1 s2 : Stmt) : Stmt :=
  match s1 with
  | Some b => Some b
  | None => s2
  end.

Infix ">>" := then_ (at level 62, right associativity).

(** The result of a body; one that falls off its end yields [undefined],
    which [filter] reads as false. *)
Definition result (body : Stmt) : bool := default false body.

(** [o?.f() || ''] on a string that may be absent. *)
Definition opt_call_or_empty (f : string → string) (o : option string) : string :=
  match o with
  | Some s => f s
  | None => ""
  end.

(** ** Tasks as the client holds them *)

(** The JSON form of a task document, with the fields the helpers read.
    [title], [description], [tags] and [dueDate] are the fields the helpers
    themselves treat as possibly absent; [category] and [priority] range
    over the enumerations of the schema and the time stamps are always set
    by it. *)
Record Task := {
  title : option string;
  description : option string;
  category : Category;
  isDone : bool;
  priority : Priority;
  dueDate : option Z;
  tags : option (list string);
  createdAt : Z;
  updatedAt : Z
}.

(** The [filters] object of the dashboard; an absent field is [None]. *)
Record Filters := {
  status : option string;
  f_category : option string;
  f_priority : option string;
  search : option string
}.

Module SortBy.
Inductive t := createdAt | updatedAt | title | priority | dueDate | category.
End SortBy.

Module SortOrder.
Inductive t := asc | desc.
End SortOrder.

(** The object [getTaskStats] returns. *)
Record Stats := {
  total : Z;
  completed : Z;
  pending : Z;
  overdue : Z;
  completionRate : Z
}.

(** [Math.round]: the nearest integer, ties towards plus infinity. *)
Definition Math_round (x : Q) : Z := Qfloor (x + (1 # 2))%Q.

(** [task[sortBy]] *)
Definition field (task : Task) (sortBy : SortBy.t) : Value :=
  match sortBy with
  | SortBy.createdAt => VDate (createdAt task)
  | SortBy.updatedAt => VDate (updatedAt task)
  | SortBy.title => from_option VStr VUndef (title task)
  | SortBy.priority => VStr (priority_value (priority task))
  | SortBy.dueDate => from_option VDate VUndef (dueDate task)
  | SortBy.category => VStr (category_value (category task))
  end.

(** [new Date(v)] on a date (the copy has the same time value) or a number;
    anything else met here is [undefined], which gives an invalid date, whose
    time value is NaN. *)
Definition new_Date (v : Value) : Value :=
  match v with
  | VDate t | VNum t => VDate t
  | _ => VUndef
  end.

Section Helpers.

(** [String.prototype.toLowerCase], which the helpers use as a black box. *)
Variable toLowerCase : string → string.

(** The rounding of an exact quotient or product to a double. *)
Variable fl : Q → Q.

(** [v?.toLowerCase()] *)
Definition opt_toLowerCase (v : Value) : Value :=
  match v with
  | VStr s => VStr (toLowerCase s)
  | _ => VUndef
  end.

Definition getTaskStats (now : Z) (tasks : list Task) : Stats :=
  let total := Z.of_nat (length tasks) in
  let completed := Z.of_nat (length (Array_filter (λ task, isDone task) tasks)) in
  let pending := total - completed in
  let overdue :=
    Z.of_nat (length (Array_filter
      (λ task, negb (isDone task) && isOverdue now (dueDate task)) tasks)) in
  let completionRate :=
    if 0 <? total
    then Math_round (fl (fl (inject_Z completed / inject_Z total) * 100))%Q
    else 0 in
  {| total := total; completed := completed; pending := pending;
     overdue := overdue; completionRate := completionRate |}.

(** The value [sortTasks] compares for a task: [a[sortBy]] after the
    special cases. *)
Definition sort_value (sortBy : SortBy.t) (a : Task) : Value :=
  let aValue := field a sortBy in
  match sortBy with
  | SortBy.priority => getPriorityValue (priority_value (priority a))
  | SortBy.title => js_or (opt_toLowerCase aValue) (VStr "")
  | SortBy.dueDate =>
      if truthy aValue then new_Date aValue
      else new_Date (VDate (Date_of_ymd 9999 12 31))
  | SortBy.createdAt | SortBy.updatedAt => new_Date aValue
  | SortBy.category => aValue
  end.

(** The comparator of [sortTasks]. *)
Definition sortTasks_compare (sortBy : SortBy.t) (sortOrder : SortOrder.t)
    (a b : Task) : Z :=
  let aValue := sort_value sortBy a in
  let bValue := sort_value sortBy b in
  if js_lt aValue bValue then
    match sortOrder with SortOrder.asc => -1 | _ => 1 end
  else if js_lt bValue aValue then
    match sortOrder with SortOrder.asc => 1 | _ => -1 end
  else 0.

(** [[...tasks].sort(...)]: the copy holds the same tasks, see
    [Runtime.sortTasks] for the arrays themselves. *)
Definition sortTasks (tasks : list Task) (sortBy : SortBy.t)
    (sortOrder : SortOrder.t) : list Task :=
  Array_sort (sortTasks_compare sortBy sortOrder) tasks.

(** The callback of [filterTasks]. *)
Definition filterTasks_callback (filters : Filters) (task : Task) : bool :=
  result (
    (* Status filter *)
    if_set (status filters) (λ status,
      if_ (negb (String.eqb status "all")) (
        if_ (String.eqb status "pending" && isDone task) (return_ false) >>
        if_ (String.eqb status "completed" && negb (isDone task)) (return_ false))) >>
    (* Category filter *)
    if_set (f_category filters) (λ category_,
      if_ (negb (String.eqb category_ "all")) (
        if_ (negb (String.eqb (category_value (category task)) category_))
          (return_ false))) >>
    (* Priority filter *)
    if_set (f_priority filters) (λ priority_,
      if_ (negb (String.eqb priority_ "all")) (
        if_ (negb (String.eqb (priority_value (priority task)) priority_))
          (return_ false))) >>
    (* Search filter *)
    if_set (search filters) (λ search,
      let searchTerm := toLowerCase search in
      let title := opt_call_or_empty toLowerCase (title task) in
      let description := opt_call_or_empty toLowerCase (description task) in
      let tags :=
        opt_call_or_empty toLowerCase (join " " <$> tags task) in
      if_ (negb (includes title searchTerm) &&
           negb (includes description searchTerm) &&
           negb (includes tags searchTerm))
        (return_ false)) >>
    return_ true).

Definition filterTasks (tasks : list Task) (filters : Filters) : list Task :=
  Array_filter (filterTasks_callback filters) tasks.

End Helpers.

(** ** Instances of the black boxes, for running the helpers *)

(** [toLowerCase] on the ASCII range: the letters A to Z go to a to z, every
    other character is kept. *)
Definition ascii_lower (c : Ascii.ascii) : Ascii.ascii :=
  let n := Ascii.nat_of_ascii c in
  if ((65 <=? n) && (n <=? 90))%nat then Ascii.ascii_of_nat (n + 32) else c.

Fixpoint ascii_toLowerCase (s : string) : string :=
  match s with
  | EmptyString => EmptyString
  | String c s' => String (ascii_lower c) (ascii_toLowerCase s')
  end.

(** Arithmetic without rounding error. *)
Definition no_rounding (x : Q) : Q := x.

(** The unit roundoff of a double, 2^-53. *)
Definition unit_roundoff : Q := 1 # 9007199254740992.

(** ** Sample tasks *)

Definition task_milk : Task :=
  {| title := Some "Buy Milk"; description := Some "from the shop";
     category := shopping; isDone := false; priority := high;
     dueDate := Some 100; tags := Some ["food"; "home"];
     createdAt := 1; updatedAt := 5 |}.

Definition task_report : Task :=
  {| title := Some "write report"; description := None;
     category := work; isDone := true; priority := low;
     dueDate := None; tags := None; createdAt := 2; updatedAt := 4 |}.

Definition task_run : Task :=
  {| title := None; description := Some "x";
     category := health; isDone := false; priority := urgent;
     dueDate := Some 50; tags := Some []; createdAt := 3; updatedAt := 3 |}.

Definition sample_tasks : list Task := [task_milk; task_report; task_run].

Definition task_undated : Task :=
  {| title := Some "some day"; description := None;
     category := personal; isDone := false; priority := medium;
     dueDate := None; tags := None; createdAt := 10; updatedAt := 10 |}.

Definition task_year_10000 : Task :=
  {| title := Some "time capsule"; description := None;
     category := personal; isDone := false; priority := medium;
     dueDate := Some (Date_of_ymd 10000 1 1); tags := None;
     createdAt := 11; updatedAt := 11 |}.


(* ===================================================================== *)
(** * Part II. The client: arrays as objects                             *)
(* ===================================================================== *)

(** The helpers receive and return arrays by reference.  Here the arrays
    live in a heap, next to the clock that [new Date()] reads; a helper is a
    state transformer over this world.  A call of a helper is synchronous:
    the clock keeps one reading while it runs. *)
Module Runtime.

(** A reference to an array. *)
Definition ref := nat.

Record World := { heap : gmap ref (list Task); clock : Z }.

Definition M (A : Type) : Type := World → A * World.

#[global] Instance M_ret : MRet M := λ A a w, (a, w).

#[global] Instance M_bind : MBind M :=
  λ A B f m w, let '(a, w') := m w in f a w'.

(** The elements of an array. *)
Definition contents (w : World) (arr : ref) : list Task :=
  default [] (heap w !! arr).

Definition read (arr : ref) : M (list Task) := λ w, (contents w arr, w).

(** The elements of [arr] become [elements]. *)
Definition write (arr : ref) (elements : list Task) : M unit :=
  λ w, (tt, {| heap := <[arr := elements]> (heap w); clock := clock w |}).

(** A new array. *)
Definition alloc (elements : list Task) : M ref :=
  λ w, let arr := fresh (dom (heap w)) in
       (arr, {| heap := <[arr := elements]> (heap w); clock := clock w |}).

(** [new Date()], as a time value. *)
Definition Date_now : M Z := λ w, (clock w, w).

(** [arr.length] *)
Definition length_of (arr : ref) : M Z :=
  elements ← read arr; mret (Z.of_nat (length elements)).

(** The loop of [arr.filter(callback)]. *)
Fixpoint filter_elements (callback : Task → M bool) (elements : list Task)
    : M (list Task) :=
  match elements with
  | [] => mret []
  | x :: rest =>
      keep ← callback x;
      kept ← filter_elements callback rest;
      mret (if keep : bool then x :: kept else kept)
  end.

(** [arr.filter(callback)]: a new array. *)
Definition filter_of (arr : ref) (callback : Task → M bool) : M ref :=
  elements ← read arr;
  kept ← filter_elements callback elements;
  alloc kept.

(** [[...arr]]: a new array with the same elements. *)
Definition spread (arr : ref) : M ref :=
  elements ← read arr; alloc elements.

(** [arr.sort(comparefn)]: sorts [arr] in place and returns it. *)
Definition sort_in_place (arr : ref) (comparefn : Task → Task → Z) : M ref :=
  elements ← read arr;
  _ ← write arr (Array_sort comparefn elements);
  mret arr.

Section Helpers.

Variable toLowerCase : string → string.
Variable fl : Q → Q.

Definition isOverdue (dueDate : option Z) : M bool :=
  match dueDate with
  | None => mret false
  | Some due => now ← Date_now; mret (due <? now)
  end.

Definition getTaskStats (tasks : ref) : M Stats :=
  total ← length_of tasks;
  done ← filter_of tasks (λ task, mret (isDone task));
  completed ← length_of done;
  let pending := total - completed in
  late ← filter_of tasks (λ task,
    if negb (isDone task) then isOverdue (dueDate task) else mret false);
  overdue ← length_of late;
  let completionRate :=
    if 0 <? total
    then Math_round (fl (fl (inject_Z completed / inject_Z total) * 100))%Q
    else 0 in
  mret {| total := total; completed := completed; pending := pending;
          overdue := overdue; completionRate := completionRate |}.

Definition sortTasks (tasks : ref) (sortBy : SortBy.t)
    (sortOrder : SortOrder.t) : M ref :=
  copy ← spread tasks;
  sortedTasks ← sort_in_place copy (sortTasks_compare toLowerCase sortBy sortOrder);
  mret sortedTasks.

Definition filterTasks (tasks : ref) (filters : Filters) : M ref :=
  filter_of tasks (λ task, mret (filterTasks_callback toLowerCase filters task)).

End Helpers.

End Runtime.

(* ===================================================================== *)
(** * Part III. The server: task model and task controller               *)
(* ===================================================================== *)

#[global] Instance Category_eq_dec : EqDecision Category.
Proof. solve_decision. Defined.

#[global] Instance Priority_eq_dec : EqDecision Priority.
Proof. solve_decision. Defined.

Module Server.

(** An [ObjectId], in its canonical form. *)
Definition ObjectId := string.

(** ** models/Task.js: the schema *)

Record SubTask := {
  st_title : string;
  st_isDone : bool;
  st_createdAt : Z
}.

(** A task document; its [_id] is the key under which the collection holds
    it. *)
Record Task := {
  userId : ObjectId;
  title : string;
  description : string;
  category : Category;
  isDone : bool;
  priority : Priority;
  dueDate : option Z;
  completedAt : option Z;
  tags : list string;
  subTasks : list SubTask;
  createdAt : Z;
  updatedAt : Z
}.

#[global] Instance SubTask_eq_dec : EqDecision SubTask.
Proof. solve_decision. Defined.

#[global] Instance Task_eq_dec : EqDecision Task.
Proof. solve_decision. Defined.

(** The collection of tasks: documents by [_id]. *)
Abbreviation Collection := (gmap ObjectId Task).

(** Assignments to the paths of a document. *)
Definition set_title (v : string) (t : Task) : Task :=
  {| userId := userId t; title := v; description := description t;
     category := category t; isDone := isDone t; priority := priority t;
     dueDate := dueDate t; completedAt := completedAt t; tags := tags t;
     subTasks := subTasks t; createdAt := createdAt t; updatedAt := updatedAt t |}.

Definition set_description (v : string) (t : Task) : Task :=
  {| userId := userId t; title := title t; description := v;
     category := category t; isDone := isDone t; priority := priority t;
     dueDate := dueDate t; completedAt := completedAt t; tags := tags t;
     subTasks := subTasks t; createdAt := createdAt t; updatedAt := updatedAt t |}.

Definition set_category (v : Category) (t : Task) : Task :=
  {| userId := userId t; title := title t; description := description t;
     category := v; isDone := isDone t; priority := priority t;
     dueDate := dueDate t; completedAt := completedAt t; tags := tags t;
     subTasks := subTasks t; createdAt := createdAt t; updatedAt := updatedAt t |}.

Definition set_isDone (v : bool) (t : Task) : Task :=
  {| userId := userId t; title := title t; description := description t;
     category := category t; isDone := v; priority := priority t;
     dueDate := dueDate t; completedAt := completedAt t; tags := tags t;
     subTasks := subTasks t; createdAt := createdAt t; updatedAt := updatedAt t |}.

Definition set_priority (v : Priority) (t : Task) : Task :=
  {| userId := userId t; title := title t; description := description t;
     category := category t; isDone := isDone t; priority := v;
     dueDate := dueDate t; completedAt := completedAt t; tags := tags t;
     subTasks := subTasks t; createdAt := createdAt t; updatedAt := updatedAt t |}.

Definition set_dueDate (v : option Z) (t : Task) : Task :=
  {| userId := userId t; title := title t; description := description t;
     category := category t; isDone := isDone t; priority := priority t;
     dueDate := v; completedAt := completedAt t; tags := tags t;
     subTasks := subTasks t; createdAt := createdAt t; updatedAt := updatedAt t |}.

Definition set_completedAt (v : option Z) (t : Task) : Task :=
  {| userId := userId t; title := title t; description := description t;
     category := category t; isDone := isDone t; priority := priority t;
     dueDate := dueDate t; completedAt := v; tags := tags t;
     subTasks := subTasks t; createdAt := createdAt t; updatedAt := updatedAt t |}.

Definition set_tags (v : list string) (t : Task) : Task :=
  {| userId := userId t; title := title t; description := description t;
     category := category t; isDone := isDone t; priority := priority t;
     dueDate := dueDate t; completedAt := completedAt t; tags := v;
     subTasks := subTasks t; createdAt := createdAt t; updatedAt := updatedAt t |}.

Definition set_subTasks (v : list SubTask) (t : Task) : Task :=
  {| userId := userId t; title := title t; description := description t;
     category := category t; isDone := isDone t; priority := priority t;
     dueDate := dueDate t; completedAt := completedAt t; tags := tags t;
     subTasks := v; createdAt := createdAt t; updatedAt := updatedAt t |}.

Definition set_updatedAt (v : Z) (t : Task) : Task :=
  {| userId := userId t; title := title t; description := description t;
     category := category t; isDone := isDone t; priority := priority t;
     dueDate := dueDate t; completedAt := completedAt t; tags := tags t;
     subTasks := subTasks t; createdAt := createdAt t; updatedAt := v |}.

Definition set_createdAt (v : Z) (t : Task) : Task :=
  {| userId := userId t; title := title t; description := description t;
     category := category t; isDone := isDone t; priority := priority t;
     dueDate := dueDate t; completedAt := completedAt t; tags := tags t;
     subTasks := subTasks t; createdAt := v; updatedAt := updatedAt t |}.

(** The values of the two [enum] paths. *)
Definition parse_category (s : string) : option Category :=
  List.find (λ c, String.eqb (category_value c) s)
    [work; personal; health; finance; shopping; education; other].

Definition parse_priority (s : string) : option Priority :=
  List.find (λ p, String.eqb (priority_value p) s) [low; medium; high; urgent].

(** What a thrown error is, as the [catch] blocks tell them apart. *)
Inductive Error :=
  | CastError
  | ValidationError (messages : list string)
  | OtherError.

(** ** The bodies of responses *)

Inductive Json :=
  | JMessage (message : string)
  | JTask (_id : ObjectId) (task : Task)
  | JMessageTask (message : string) (_id : ObjectId) (task : Task)
  | JErrors (message : string) (errors : list string)
  | JTasks (tasks : list (ObjectId * Task)) (count : Z).

Record Response := { status : Z; json : Json }.

(** ** Requests, after the [auth] middleware *)

(** The fields of a JSON body that the task controller reads; a field the
    body does not have is [None].  [dueDate] may be present and [null]. *)
Record Body := {
  b_title : option string;
  b_description : option string;
  b_category : option string;
  b_priority : option string;
  b_isDone : option bool;
  b_dueDate : option (option Z);
  b_tags : option (list string)
}.

Record Request := {
  params_id : string;      (* req.params.id *)
  user_id : ObjectId;      (* req.user._id, set by auth *)
  body : Body
}.

(** What a request meets besides the collection: the clock, and the
    [ObjectId] the driver would give a new document. *)
Record Env := { now : Z; new_id : ObjectId }.

(** The statistics of the [$group] stage of [getTasks]. *)
Record GroupStats := {
  g_total : Z;
  g_completed : Z;
  g_pending : Z;
  g_overdue : Z
}.

Section Controller.

(** The cast of a string to an [ObjectId] by the query layer; [None] is a
    [CastError]. *)
Variable castObjectId : string → option ObjectId.

(** [String.prototype.trim] *)
Variable trim : string → string.

(** *** Queries *)

(** [Task.findOne({ _id, userId })] *)
Definition findOne (db : Collection) (_id : string) (userId_ : ObjectId)
    : Error + option (ObjectId * Task) :=
  match castObjectId _id with
  | None => inl CastError
  | Some oid =>
      inr (match db !! oid with
           | Some task =>
               if decide (userId task = userId_) then Some (oid, task) else None
           | None => None
           end)
  end.

(** [Task.findOneAndDelete({ _id, userId })] *)
Definition findOneAndDelete (db : Collection) (_id : string) (userId_ : ObjectId)
    : Error + (option (ObjectId * Task) * Collection) :=
  match findOne db _id userId_ with
  | inl e => inl e
  | inr None => inr (None, db)
  | inr (Some (oid, task)) => inr (Some (oid, task), delete oid db)
  end.

(** [find(filter)]: the documents that match, in the order of the
    collection. *)
Definition find (db : Collection) (filter_ : Task → bool)
    : list (ObjectId * Task) :=
  List.filter (λ doc, filter_ doc.2) (map_to_list db).

(** [{ dueDate: { $lt: date } }] in a query: only a date matches. *)
Definition query_lt (field_ : option Z) (date : Z) : bool :=
  match field_ with
  | Some v => v <? date
  | None => false
  end.

(** [.sort({ dueDate: 1 })]: [null] sorts before every date. *)
Definition compare_dueDate (a b : ObjectId * Task) : Z :=
  match dueDate a.2, dueDate b.2 with
  | None, None => 0
  | None, Some _ => -1
  | Some _, None => 1
  | Some x, Some y => if x <? y then -1 else if y <? x then 1 else 0
  end.

(** [Task.findOverdue(userId)] *)
Definition findOverdue (now_ : Z) (db : Collection) (userId_ : ObjectId)
    : list (ObjectId * Task) :=
  Array_sort compare_dueDate
    (find db (λ task,
       bool_decide (userId task = userId_) &&
       bool_decide (isDone task = false) &&
       query_lt (dueDate task) now_)).

(** [{ $lt: ['$dueDate', date] }] in an aggregation: values of different
    types compare by type, [null] before every date. *)
Definition expr_lt (field_ : option Z) (date : Z) : bool :=
  match field_ with
  | Some v => v <? date
  | None => true
  end.

Definition count_if (cond : Task → bool) (docs : list (ObjectId * Task)) : Z :=
  Z.of_nat (length (List.filter (λ doc, cond doc.2) docs)).

(** The [$match] and [$group] stages of [getTasks], and [stats[0] || ...]. *)
Definition aggregate_stats (now_ : Z) (db : Collection) (userId_ : ObjectId)
    : GroupStats :=
  let matched := find db (λ task, bool_decide (userId task = userId_)) in
  match matched with
  | [] => {| g_total := 0; g_completed := 0; g_pending := 0; g_overdue := 0 |}
  | _ =>
      {| g_total := count_if (λ _, true) matched;
         g_completed := count_if (λ task, bool_decide (isDone task = true)) matched;
         g_pending := count_if (λ task, bool_decide (isDone task = false)) matched;
         g_overdue :=
           count_if (λ task,
             bool_decide (isDone task = false) &&
             expr_lt (dueDate task) now_ &&
             negb (bool_decide (dueDate task = None))) matched |}
  end.

(** *** Saving a document *)

(** [this.isModified(path)] on a document read as [orig]: the path holds
    another value than it was read with. *)
Definition isModified {A} `{EqDecision A} (path : Task → A)
    (orig doc : Task) : bool :=
  bool_decide (path doc ≠ path orig).

(** The validators of the schema on a document to save.  [save()]
    validates every path of the document, the paths read from the
    collection as well as the paths assigned since then: the schema does
    not set [validateModifiedOnly].  So a task that was stored with a due
    date ahead no longer passes once that date is reached.  The [enum]
    paths hold a value of their enumeration; what their validators say
    of a value outside it is [enum_errors].  The messages are listed in
    the order of the paths in the schema, in which the paths of a new
    document are validated. *)
Definition validate (now_ : Z) (enum_errors : list string) (doc : Task)
    : list string :=
  ((if String.eqb (title doc) "" then ["Task title is required"]
    else if (200 <? String.length (title doc))%nat
         then ["Title cannot exceed 200 characters"] else []) ++
   (if (1000 <? String.length (description doc))%nat
    then ["Description cannot exceed 1000 characters"] else []) ++
   enum_errors ++
   (if match dueDate doc with
       | Some due => negb (now_ <? due)
       | None => false
       end
    then ["Due date must be in the future"] else []) ++
   (if existsb (λ tag, (30 <? String.length tag)%nat) (tags doc)
    then ["Tag cannot exceed 30 characters"] else []) ++
   (if existsb (λ st, String.eqb (st_title st) "") (subTasks doc)
    then ["Path `title` is required."] else []) ++
   (if existsb (λ st, (100 <? String.length (st_title st))%nat) (subTasks doc)
    then ["Subtask title cannot exceed 100 characters"] else []))%list.

(** [taskSchema.pre('save', ...)] *)
Definition pre_save (now_ : Z) (isDone_modified : bool) (this : Task) : Task :=
  if isDone_modified then
    if isDone this && bool_decide (completedAt this = None) then
      set_completedAt (Some now_) this
    else if negb (isDone this) then
      set_completedAt None this
    else this
  else this.

(** [timestamps: true]: a new document gets both stamps, a modified one a
    new [updatedAt]. *)
Definition timestamps (now_ : Z) (orig : option Task) (doc : Task) : Task :=
  match orig with
  | None => set_createdAt now_ (set_updatedAt now_ doc)
  | Some o => if decide (doc = o) then doc else set_updatedAt now_ doc
  end.

(** [doc.save()] on a document read as [orig] ([None]: a new document,
    built without [isDone], which then is not modified): validation of
    the whole document, the pre-save hook, the time stamps; the result is
    what is stored. *)
Definition save (now_ : Z) (orig : option Task) (doc : Task) : Error + Task :=
  match validate now_ [] doc with
  | [] =>
      let isDone_modified :=
        match orig with
        | Some o => isModified isDone o doc
        | None => false
        end in
      inr (timestamps now_ orig (pre_save now_ isDone_modified doc))
  | messages => inl (ValidationError messages)
  end.

(** [taskSchema.methods.toggleCompletion] *)
Definition toggleCompletion (now_ : Z) (this : Task) : Error + Task :=
  save now_ (Some this) (set_isDone (negb (isDone this)) this).

(** [taskSchema.methods.addSubTask]; the schema fills the defaults of the
    subtask. *)
Definition addSubTask_method (now_ : Z) (this : Task) (title_ : string)
    : Error + Task :=
  save now_ (Some this)
    (set_subTasks
       (subTasks this ++
          [{| st_title := trim title_; st_isDone := false; st_createdAt := now_ |}])%list
       this).

(** *** controllers/taskController.js *)

(** The [catch] blocks: a handler may tell a [CastError] apart, and a
    [ValidationError]; every other error is a server error. *)
Definition on_error (cast_is_400 validation_is_400 : bool)
    (server_message : string) (e : Error) : Response :=
  match e with
  | CastError =>
      if cast_is_400
      then {| status := 400; json := JMessage "Invalid task ID" |}
      else {| status := 500; json := JMessage server_message |}
  | ValidationError messages =>
      if validation_is_400
      then {| status := 400; json := JErrors "Validation error" messages |}
      else {| status := 500; json := JMessage server_message |}
  | OtherError => {| status := 500; json := JMessage server_message |}
  end.

Definition not_found : Response :=
  {| status := 404; json := JMessage "Task not found" |}.

Definition getTask (env : Env) (req : Request) (db : Collection)
    : Response * Collection :=
  match findOne db (params_id req) (user_id req) with
  | inl e => (on_error true false "Server error fetching task" e, db)
  | inr None => (not_found, db)
  | inr (Some (oid, task)) => ({| status := 200; json := JTask oid task |}, db)
  end.

(** The loop over [updateFields]: each field the body has is assigned to
    its path.  The setters of the schema trim strings; a value outside an
    enumeration is what its validator will report. *)
Definition assign_fields (b : Body) (task : Task) : Task * list string :=
  let task := from_option (λ v, set_title (trim v) task) task (b_title b) in
  let task := from_option (λ v, set_description (trim v) task) task (b_description b) in
  let '(task, errors_category) :=
    match b_category b with
    | None => (task, [])
    | Some v =>
        match parse_category v with
        | Some c => (set_category c task, [])
        | None =>
            (task,
             [if String.eqb v "" then "Category is required"
              else "Category must be one of: work, personal, health, finance, shopping, education, other"])
        end
    end in
  let '(task, errors_priority) :=
    match b_priority b with
    | None => (task, [])
    | Some v =>
        match parse_priority v with
        | Some p => (set_priority p task, [])
        | None =>
            (task, ["Priority must be one of: low, medium, high, urgent"])
        end
    end in
  let task := from_option (λ v, set_isDone v task) task (b_isDone b) in
  let task := from_option (λ v, set_dueDate v task) task (b_dueDate b) in
  let task := from_option (λ v, set_tags (trim <$> v) task) task (b_tags b) in
  (task, (errors_category ++ errors_priority)%list).

Definition updateTask (env : Env) (req : Request) (db : Collection)
    : Response * Collection :=
  let fail := on_error true true "Server error updating task" in
  match findOne db (params_id req) (user_id req) with
  | inl e => (fail e, db)
  | inr None => (not_found, db)
  | inr (Some (oid, orig)) =>
      let '(task, enum_errors) := assign_fields (body req) orig in
      match validate (now env) enum_errors task with
      | [] =>
          match save (now env) (Some orig) task with
          | inl e => (fail e, db)
          | inr saved =>
              ({| status := 200;
                  json := JMessageTask "Task updated successfully" oid saved |},
               <[oid := saved]> db)
          end
      | messages => (fail (ValidationError messages), db)
      end
  end.

Definition deleteTask (env : Env) (req : Request) (db : Collection)
    : Response * Collection :=
  match findOneAndDelete db (params_id req) (user_id req) with
  | inl e => (on_error true false "Server error deleting task" e, db)
  | inr (None, _) => (not_found, db)
  | inr (Some _, db') =>
      ({| status := 200; json := JMessage "Task deleted successfully" |}, db')
  end.

Definition toggleTask (env : Env) (req : Request) (db : Collection)
    : Response * Collection :=
  match findOne db (params_id req) (user_id req) with
  | inl e => (on_error true false "Server error toggling task" e, db)
  | inr None => (not_found, db)
  | inr (Some (oid, task)) =>
      match toggleCompletion (now env) task with
      | inl e => (on_error true false "Server error toggling task" e, db)
      | inr saved =>
          ({| status := 200;
              json := JMessageTask
                (if isDone saved then "Task marked as completed"
                 else "Task marked as pending") oid saved |},
           <[oid := saved]> db)
      end
  end.

(** [!title || !title.trim()] *)
Definition blank (o : option string) : bool :=
  match o with
  | None => true
  | Some s => String.eqb s "" || String.eqb (trim s) ""
  end.

Definition addSubTask (env : Env) (req : Request) (db : Collection)
    : Response * Collection :=
  if blank (b_title (body req)) then
    ({| status := 400; json := JMessage "Subtask title is required" |}, db)
  else
    match findOne db (params_id req) (user_id req) with
    | inl e => (on_error true false "Server error adding subtask" e, db)
    | inr None => (not_found, db)
    | inr (Some (oid, task)) =>
        match addSubTask_method (now env) task
                (trim (default "" (b_title (body req)))) with
        | inl e => (on_error true false "Server error adding subtask" e, db)
        | inr saved =>
            ({| status := 201;
                json := JMessageTask "Subtask added successfully" oid saved |},
             <[oid := saved]> db)
        end
    end.

Definition createTask (env : Env) (req : Request) (db : Collection)
    : Response * Collection :=
  let b := body req in
  if blank (b_title b) then
    ({| status := 400; json := JMessage "Task title is required" |}, db)
  else
    match b_category b with
    | None | Some "" =>
        ({| status := 400; json := JMessage "Task category is required" |}, db)
    | Some category_ =>
        let fail := on_error false true "Server error creating task" in
        let enum_errors :=
          (match parse_category category_ with
           | Some _ => []
           | None => ["Category must be one of: work, personal, health, finance, shopping, education, other"]
           end ++
           match b_priority b with
           | None | Some "" => []
           | Some p =>
               match parse_priority p with
               | Some _ => []
               | None => ["Priority must be one of: low, medium, high, urgent"]
               end
           end)%list in
        let task :=
          {| userId := user_id req;
             title := trim (trim (default "" (b_title b)));
             description := trim (trim (default "" (b_description b)));
             category := default personal (parse_category category_);
             isDone := false;
             priority := default medium (b_priority b ≫= parse_priority);
             dueDate := default None (b_dueDate b);
             completedAt := None;
             tags := trim <$> default [] (b_tags b);
             subTasks := [];
             createdAt := now env;
             updatedAt := now env |} in
        match validate (now env) enum_errors task with
        | [] =>
            match save (now env) None task with
            | inl e => (fail e, db)
            | inr saved =>
                match db !! new_id env with
                | Some _ => (fail OtherError, db)
                | None =>
                    ({| status := 201;
                        json := JMessageTask "Task created successfully"
                                  (new_id env) saved |},
                     <[new_id env := saved]> db)
                end
            end
        | messages => (fail (ValidationError messages), db)
        end
    end.

Definition getOverdueTasks (env : Env) (req : Request) (db : Collection)
    : Response * Collection :=
  let tasks := findOverdue (now env) db (user_id req) in
  ({| status := 200; json := JTasks tasks (Z.of_nat (length tasks)) |}, db).

(** *** models/Task.js: the other statics, the virtual *)

(** [.sort({ createdAt: -1 })]: newest first; the model keeps tasks of
    the same instant in the order of the collection. *)
Definition compare_createdAt_desc (a b : ObjectId * Task) : Z :=
  if createdAt b.2 <? createdAt a.2 then -1
  else if createdAt a.2 <? createdAt b.2 then 1
  else 0.

(** [Task.findByCategory(userId, category)]; [category_] is the string
    of the request. *)
Definition findByCategory (db : Collection) (userId_ : ObjectId)
    (category_ : string) : list (ObjectId * Task) :=
  Array_sort compare_createdAt_desc
    (find db (λ task,
       bool_decide (userId task = userId_) &&
       String.eqb (category_value (category task)) category_)).

(** [Task.findByPriority(userId, priority)] *)
Definition findByPriority (db : Collection) (userId_ : ObjectId)
    (priority_ : string) : list (ObjectId * Task) :=
  Array_sort compare_createdAt_desc
    (find db (λ task,
       bool_decide (userId task = userId_) &&
       String.eqb (priority_value (priority task)) priority_ &&
       bool_decide (isDone task = false))).

(** The virtual [completionPercentage]; [fl] rounds a quotient or a
    product to a double. *)
Definition completionPercentage (fl : Q → Q) (this : Task) : Z :=
  if (length (subTasks this) =? 0)%nat then 0
  else
    let completedSubTasks :=
      length (Array_filter (λ subTask, st_isDone subTask) (subTasks this)) in
    Math_round
      (fl (fl (inject_Z (Z.of_nat completedSubTasks)
               / inject_Z (Z.of_nat (length (subTasks this)))) * 100))%Q.

(** *** controllers/taskController.js: [getTasksByCategory] *)

(** The body of its answer. *)
Record CategoryJson := {
  c_category : string;
  c_tasks : list (ObjectId * Task);
  c_count : Z
}.

(** [getTasksByCategory], with [req.params.category]; the status is
    200 as no query of the model fails. *)
Definition getTasksByCategory (category_ : string) (req : Request)
    (db : Collection) : Z * CategoryJson * Collection :=
  let tasks := findByCategory db (user_id req) category_ in
  (200,
   {| c_category := category_; c_tasks := tasks;
      c_count := Z.of_nat (length tasks) |},
   db).

End Controller.

End Server.

(* ===================================================================== *)
(** * Part IV. The routers of the server, the interceptor of the client  *)
(* ===================================================================== *)

Module Routes.

Inductive Method := GET | POST | PUT | PATCH | DELETE.

#[global] Instance Method_eq_dec : EqDecision Method.
Proof. solve_decision. Defined.

(** A segment of a route path: a literal, or a parameter such as [:id]. *)
Inductive Segment :=
  | Lit (s : string)
  | Param (name : string).

Inductive Middleware := auth | authLimiter.

(** The controllers the two routers mount. *)
Inductive Controller :=
  | getTasks | getTask | createTask | updateTask | deleteTask | toggleTask
  | addSubTask | getTasksByCategory | getOverdueTasks
  | register | login | getProfile | updateProfile | verifyToken.

(** A layer of a router's stack. *)
Inductive Layer :=
  | Use (path : list string) (mw : Middleware)
      (* router.use(path, mw); router.use(mw) has the empty path *)
  | Route (method : Method) (path : list Segment) (mws : list Middleware)
      (handler : Controller).
      (* router.get(path, ...mws, handler) and the like *)

(** routes/tasks.js *)
Definition tasks_router : list Layer :=
  [ Use [] auth;
    Route GET [] [] getTasks;
    Route GET [Lit "overdue"] [] getOverdueTasks;
    Route GET [Lit "category"; Param "category"] [] getTasksByCategory;
    Route GET [Param "id"] [] getTask;
    Route POST [] [] createTask;
    Route PATCH [Param "id"] [] updateTask;
    Route PATCH [Param "id"; Lit "toggle"] [] toggleTask;
    Route POST [Param "id"; Lit "subtasks"] [] addSubTask;
    Route DELETE [Param "id"] [] deleteTask ].

(** routes/auth.js *)
Definition auth_router : list Layer :=
  [ Use ["register"] authLimiter;
    Use ["login"] authLimiter;
    Route POST [Lit "register"] [] register;
    Route POST [Lit "login"] [] login;
    Route GET [Lit "me"] [auth] getProfile;
    Route PUT [Lit "profile"] [auth] updateProfile;
    Route POST [Lit "verify"] [auth] verifyToken ].

(** A request, as the stack sees it: the path is the list of segments
    below the mount point of the router. *)
Record Request := {
  method : Method;
  path : list string;
  authorization : option string;   (* the Authorization header *)
  user : option string             (* req.user *)
}.

(** A middleware passes the request on, possibly changed, or answers. *)
Inductive Step :=
  | next (req : Request)
  | respond (status : Z).

(** Where a request ends: answered by a middleware, handed to a
    controller, or matched by no route. *)
Inductive Outcome :=
  | Rejected (status : Z)
  | Handled (handler : Controller) (req : Request)
  | Unmatched.

(** Literals match without regard to case. *)
Definition match_segment (seg : Segment) (s : string) : bool :=
  match seg with
  | Lit l => String.eqb (ascii_toLowerCase l) (ascii_toLowerCase s)
  | Param _ => negb (String.eqb s "")
  end.

Fixpoint match_path (pattern : list Segment) (p : list string) : bool :=
  match pattern, p with
  | [], [] => true
  | seg :: pattern', s :: p' => match_segment seg s && match_path pattern' p'
  | _, _ => false
  end.

(** [use] matches every path that starts with its own. *)
Fixpoint match_prefix (pre p : list string) : bool :=
  match pre, p with
  | [], _ => true
  | l :: pre', s :: p' =>
      String.eqb (ascii_toLowerCase l) (ascii_toLowerCase s) && match_prefix pre' p'
  | _ :: _, [] => false
  end.

Section Dispatch.

(** What each middleware does to a request. *)
Variable run : Middleware → Request → Step.

Fixpoint run_all (mws : list Middleware) (req : Request) : Step :=
  match mws with
  | [] => next req
  | mw :: rest =>
      match run mw req with
      | next req' => run_all rest req'
      | respond status => respond status
      end
  end.

(** The stack is walked in order; a controller ends the walk. *)
Fixpoint dispatch (stack : list Layer) (req : Request) : Outcome :=
  match stack with
  | [] => Unmatched
  | Use pre mw :: rest =>
      if match_prefix pre (path req) then
        match run mw req with
        | next req' => dispatch rest req'
        | respond status => Rejected status
        end
      else dispatch rest req
  | Route m pattern mws handler :: rest =>
      if bool_decide (m = method req) && match_path pattern (path req) then
        match run_all mws req with
        | next req' => Handled handler req'
        | respond status => Rejected status
        end
      else dispatch rest req
  end.

End Dispatch.

(** Modelled from the spec: the [auth] middleware, whose file
    (middleware/auth.js) is not among the sources.  "Verify on protected
    routes, reject with 401 on invalid/expired token": a request whose
    bearer token verifies goes on with the user of the token, any other is
    answered 401.  [verify] stands for the verification of the signed
    token. *)
Definition bearer (header : string) : option string :=
  if String.prefix "Bearer " header
  then Some (String.substring 7 (String.length header - 7) header)
  else None.

Definition token_user (verify : string → option string) (req : Request)
    : option string :=
  mbind (M := option) verify (mbind (M := option) bearer (authorization req)).

Definition spec_auth (verify : string → option string) (req : Request) : Step :=
  match token_user verify req with
  | Some uid =>
      next {| method := method req; path := path req;
              authorization := authorization req; user := Some uid |}
  | None => respond 401
  end.

(** The middlewares, with [auth] as the spec has it. *)
Definition spec_run (verify : string → option string)
    (limiter : Request → Step) (mw : Middleware) : Request → Step :=
  match mw with
  | auth => spec_auth verify
  | authLimiter => limiter
  end.

End Routes.

(** services/api.js: the response interceptor. *)
Module Api.

(** What the interceptor touches of the browser. *)
Record Browser := {
  localStorage : gmap string string;
  location_href : string;
  toasts : list string
}.

(** The error that axios passes to the rejection handler: the response (its
    status and the [message] of its data), if there is one, and the error
    code. *)
Record AxiosError := {
  response : option (Z * option string);
  code : option string
}.

Definition toast_error (message : string) (b : Browser) : Browser :=
  {| localStorage := localStorage b; location_href := location_href b;
     toasts := toasts b ++ [message] |}.

Definition removeItem (key : string) (b : Browser) : Browser :=
  {| localStorage := delete key (localStorage b);
     location_href := location_href b; toasts := toasts b |}.

Definition set_location_href (url : string) (b : Browser) : Browser :=
  {| localStorage := localStorage b; location_href := url; toasts := toasts b |}.

(** The rejection handler of [api.interceptors.response]. *)
Definition on_rejected (error : AxiosError) (b : Browser) : Browser :=
  let status := fst <$> response error in
  if bool_decide (status = Some 401) then
    toast_error "Session expired. Please login again."
      (set_location_href "/login" (removeItem "user" (removeItem "token" b)))
  else if bool_decide (status = Some 403) then
    toast_error "Access denied" b
  else if bool_decide (status = Some 404) then
    toast_error "Resource not found" b
  else if from_option (λ s, 500 <=? s) false status then
    toast_error "Server error. Please try again later." b
  else if bool_decide (code error = Some "ECONNABORTED") then
    toast_error "Request timeout. Please check your connection." b
  else if bool_decide (code error = Some "ERR_NETWORK") ||
          bool_decide (response error = None) then
    toast_error
      "Cannot connect to server. Please ensure the backend is running on port 5000." b
  else
    toast_error
      (match mbind (M := option) snd (response error) with
       | Some message => if String.eqb message "" then "An unexpected error occurred." else message
       | None => "An unexpected error occurred."
       end) b.

(** A response of the server reaches the client: axios resolves a status
    from 200 to 299, which the fulfilment handler passes on, and rejects
    every other status through the rejection handler. *)
Definition receive (status : Z) (message : option string) (b : Browser) : Browser :=
  if (200 <=? status) && (status <? 300) then b
  else on_rejected
         {| response := Some (status, message);
            code := Some (if status <? 500 then "ERR_BAD_REQUEST" else "ERR_BAD_RESPONSE") |}
         b.

(** *** The request interceptor and the calls *)

(** What the interceptor reads and writes of the configuration of a
    request: the URL below the base URL, and the Authorization header. *)
Record Config := { url : option string; Authorization : option string }.

Definition publicRoutes : list string :=
  ["/auth/register"; "/auth/login"; "/health"].

(** The fulfilment handler of [api.interceptors.request]. *)
Definition on_request (config : Config) (b : Browser) : Config :=
  let isPublicRoute :=
    existsb (λ route, from_option (λ u, includes u route) false (url config))
      publicRoutes in
  if negb isPublicRoute then
    match localStorage b !! "token" with
    | Some token =>
        if truthy (VStr token)
        then {| url := url config; Authorization := Some ("Bearer " +:+ token) |}
        else config
    | None => config
    end
  else config.

(** The calls of [authAPI] and [tasksAPI], and [healthCheck]. *)
Inductive Call :=
  | authAPI_register | authAPI_login | authAPI_getProfile
  | authAPI_updateProfile | authAPI_verifyToken
  | tasksAPI_getTasks
  | tasksAPI_getTask (id : string)
  | tasksAPI_createTask
  | tasksAPI_updateTask (id : string)
  | tasksAPI_deleteTask (id : string)
  | tasksAPI_toggleTask (id : string)
  | tasksAPI_addSubTask (id : string)
  | tasksAPI_getTasksByCategory (category : string)
  | tasksAPI_getOverdueTasks
  | healthCheck.

(** The method and the URL that a call passes to axios. *)
Definition call_request (call : Call) : Routes.Method * string :=
  match call with
  | authAPI_register => (Routes.POST, "/auth/register")
  | authAPI_login => (Routes.POST, "/auth/login")
  | authAPI_getProfile => (Routes.GET, "/auth/me")
  | authAPI_updateProfile => (Routes.PUT, "/auth/profile")
  | authAPI_verifyToken => (Routes.POST, "/auth/verify")
  | tasksAPI_getTasks => (Routes.GET, "/tasks")
  | tasksAPI_getTask id => (Routes.GET, "/tasks/" +:+ id)
  | tasksAPI_createTask => (Routes.POST, "/tasks")
  | tasksAPI_updateTask id => (Routes.PATCH, "/tasks/" +:+ id)
  | tasksAPI_deleteTask id => (Routes.DELETE, "/tasks/" +:+ id)
  | tasksAPI_toggleTask id => (Routes.PATCH, "/tasks/" +:+ id +:+ "/toggle")
  | tasksAPI_addSubTask id => (Routes.POST, "/tasks/" +:+ id +:+ "/subtasks")
  | tasksAPI_getTasksByCategory category =>
      (Routes.GET, "/tasks/category/" +:+ category)
  | tasksAPI_getOverdueTasks => (Routes.GET, "/tasks/overdue")
  | healthCheck => (Routes.GET, "/health")
  end.

(** The configuration with which a call leaves the interceptor; the
    instance sets no Authorization header of its own. *)
Definition send (call : Call) (b : Browser) : Config :=
  on_request {| url := Some (call_request call).2; Authorization := None |} b.

End Api.

(** ** What the claims say, in the words of the specification *)

(** [t] is a substring of [s]. *)
Definition substring_of (t s : string) : Prop :=
  ∃ pre post, s = pre +:+ t +:+ post.

(** The seven known category values and the four known priority values. *)
Definition known_categories : list string := value <$> TASK_CATEGORIES.
Definition known_priorities : list string := value <$> TASK_PRIORITIES.

(** A filter field is set: present and not the empty string. *)
Definition is_set (o : option string) (s : string) : Prop :=
  o = Some s ∧ s ≠ "".

Section HelpersSpec.

Variable toLowerCase : string → string.

(** The lowercased text of a field, empty when the task has none. *)
Definition lowercased (o : option string) : string :=
  default "" (toLowerCase <$> o).

(** The conjunction of predicates that [filters] asks of a task. *)
Definition passes (filters : Filters) (task : Task) : Prop :=
  (status filters = Some "pending" → isDone task = false) ∧
  (status filters = Some "completed" → isDone task = true) ∧
  (∀ c, is_set (f_category filters) c → c ≠ "all" →
        category_value (category task) = c) ∧
  (∀ p, is_set (f_priority filters) p → p ≠ "all" →
        priority_value (priority task) = p) ∧
  (∀ s, is_set (search filters) s →
        substring_of (toLowerCase s) (lowercased (title task)) ∨
        substring_of (toLowerCase s) (lowercased (description task)) ∨
        substring_of (toLowerCase s) (lowercased (join " " <$> tags task))).

End HelpersSpec.


(** ** Sorting: the order that the specification names *)

(** The fixed rank mapping of the specification. *)
Definition rank (p : Priority) : Z :=
  match p with low => 1 | medium => 2 | high => 3 | urgent => 4 end.

(** The date 9999-12-31, as a time value. *)
Definition far_future : Z := 253402214400000.

Section SortSpec.

Variable toLowerCase : string → string.

(** [a] is not after [b] by the chosen key. *)
Definition key_le (sortBy : SortBy.t) (a b : Task) : Prop :=
  match sortBy with
  | SortBy.createdAt => createdAt a ≤ createdAt b
  | SortBy.updatedAt => updatedAt a ≤ updatedAt b
  | SortBy.title =>
      String.le (lowercased toLowerCase (title a)) (lowercased toLowerCase (title b))
  | SortBy.priority => rank (priority a) ≤ rank (priority b)
  | SortBy.dueDate =>
      default far_future (dueDate a) ≤ default far_future (dueDate b)
  | SortBy.category =>
      String.le (category_value (category a)) (category_value (category b))
  end.

(** [a] may stand before [b] in the chosen direction. *)
Definition in_order (sortBy : SortBy.t) (sortOrder : SortOrder.t) (a b : Task) : Prop :=
  match sortOrder with
  | SortOrder.asc => key_le sortBy a b
  | SortOrder.desc => key_le sortBy b a
  end.

End SortSpec.


(** ** The server, in the words of the specification *)

(** Not done, and due strictly before [now]; never without a due date. *)
Definition overdue_at (now : Z) (done : bool) (due : option Z) : Prop :=
  done = false ∧ match due with Some d => d < now | None => False end.

(** Ascending order of due dates, [null] first. *)
Definition dueDate_le (a b : option Z) : Prop :=
  match a, b with
  | None, _ => True
  | Some _, None => False
  | Some x, Some y => x ≤ y
  end.

(** The tasks a response carries. *)
Definition returned (r : Server.Response) : list Server.Task :=
  match Server.json r with
  | Server.JTask _ task | Server.JMessageTask _ _ task => [task]
  | Server.JTasks tasks _ => tasks.*2
  | _ => []
  end.

(** Every task of another user than [uid] is in [db'] as it is in [db]. *)
Definition others_untouched (uid : Server.ObjectId)
    (db db' : gmap Server.ObjectId Server.Task) : Prop :=
  ∀ oid task, db !! oid = Some task → Server.userId task ≠ uid →
              db' !! oid = Some task.



(** A title fit for a subtask: not empty, and of at most 100 characters. *)
Definition valid_subTask (st : Server.SubTask) : Prop :=
  Server.st_title st ≠ "" ∧ (String.length (Server.st_title st) ≤ 100)%nat.

(** What the schema asks of a stored task at the time [now]: a title of 1
    to 200 characters, a description of at most 1000, a due date, if any,
    after [now], tags of at most 30 characters and valid subtasks. *)
Definition passes_validation (now : Z) (task : Server.Task) : Prop :=
  Server.title task ≠ "" ∧
  (String.length (Server.title task) ≤ 200)%nat ∧
  (String.length (Server.description task) ≤ 1000)%nat ∧
  (∀ due, Server.dueDate task = Some due → now < due) ∧
  Forall (λ tag, (String.length tag ≤ 30)%nat) (Server.tags task) ∧
  Forall valid_subTask (Server.subTasks task).

Section ServerSpec.

Variable castObjectId : string → option Server.ObjectId.

(** No task with the given id belongs to [uid]. *)
Definition no_task_of (db : gmap Server.ObjectId Server.Task) (id : string)
    (uid : Server.ObjectId) : Prop :=
  ∀ oid task, castObjectId id = Some oid → db !! oid = Some task →
              Server.userId task ≠ uid.

(** The id is well formed and no task with it belongs to [uid]. *)
Definition none_found (db : gmap Server.ObjectId Server.Task) (id : string)
    (uid : Server.ObjectId) : Prop :=
  is_Some (castObjectId id) ∧ no_task_of db id uid.

(** What the claim asks of one handler on one request: the answer is 404
    exactly under [when_404], the tasks of other users stay as they are,
    and every task in the answer belongs to the requester. *)
Definition scoped (when_404 : Prop) (uid : Server.ObjectId)
    (db : gmap Server.ObjectId Server.Task)
    (out : Server.Response * gmap Server.ObjectId Server.Task) : Prop :=
  (Server.status out.1 = 404 ↔ when_404) ∧
  (Server.status out.1 = 404 → out = (Server.not_found, db)) ∧
  others_untouched uid db out.2 ∧
  Forall (λ task : Server.Task, Server.userId task = uid) (returned out.1).

(** The three outcomes of [findOne]. *)
Inductive findOne_outcome (db : gmap Server.ObjectId Server.Task)
    (id : string) (uid : Server.ObjectId)
    : Server.Error + option (Server.ObjectId * Server.Task) → Prop :=
  | found_cast_error :
      castObjectId id = None →
      findOne_outcome db id uid (inl Server.CastError)
  | found_none (oid : Server.ObjectId) :
      castObjectId id = Some oid →
      (∀ task : Server.Task, db !! oid = Some task → Server.userId task ≠ uid) →
      findOne_outcome db id uid (inr None)
  | found_some (oid : Server.ObjectId) (task : Server.Task) :
      castObjectId id = Some oid →
      db !! oid = Some task → Server.userId task = uid →
      findOne_outcome db id uid (inr (Some (oid, task))).

End ServerSpec.

(** ** Instances and samples for the server *)

(** [trim] on the ASCII range: leading and trailing blanks are dropped. *)
Fixpoint trim_start (s : string) : string :=
  match s with
  | EmptyString => EmptyString
  | String c s' => if Ascii.is_space c then trim_start s' else s
  end.

Definition ascii_trim (s : string) : string :=
  String.rev (trim_start (String.rev (trim_start s))).

(** The cast of a string of 24 hexadecimal digits to an [ObjectId], in lower
    case; no other string is cast. *)
Definition is_hex (c : Ascii.ascii) : bool :=
  let n := Ascii.nat_of_ascii c in
  (((48 <=? n) && (n <=? 57)) || ((97 <=? n) && (n <=? 102)))%nat.

Fixpoint all_hex (s : string) : bool :=
  match s with
  | EmptyString => true
  | String c s' => is_hex c && all_hex s'
  end.

Definition hex24 (s : string) : option string :=
  let l := ascii_toLowerCase s in
  if ((String.length l =? 24)%nat && all_hex l) then Some l else None.


Definition alice : Server.ObjectId := "aaaaaaaaaaaaaaaaaaaaaaaa".
Definition bob : Server.ObjectId := "bbbbbbbbbbbbbbbbbbbbbbbb".

Definition id_plan : Server.ObjectId := "000000000000000000000001".
Definition id_bill : Server.ObjectId := "000000000000000000000002".
Definition id_gym : Server.ObjectId := "000000000000000000000003".

Definition sample_doc (owner : Server.ObjectId) (title_ : string) (done : bool)
    (due completed : option Z) : Server.Task :=
  {| Server.userId := owner; Server.title := title_; Server.description := "";
     Server.category := work; Server.isDone := done; Server.priority := medium;
     Server.dueDate := due; Server.completedAt := completed;
     Server.tags := []; Server.subTasks := [];
     Server.createdAt := 1; Server.updatedAt := 1 |}.

(** Two tasks of alice, one of them done, and one task of bob. *)
Definition sample_collection : gmap Server.ObjectId Server.Task :=
  {[ id_plan := sample_doc alice "plan" false (Some 50) None;
     id_bill := sample_doc bob "bill" false (Some 20) None;
     id_gym := sample_doc alice "gym" true (Some 10) (Some 5) ]}.

Definition no_body : Server.Body :=
  {| Server.b_title := None; Server.b_description := None;
     Server.b_category := None; Server.b_priority := None;
     Server.b_isDone := None; Server.b_dueDate := None; Server.b_tags := None |}.

Definition request (id : string) (uid : Server.ObjectId) : Server.Request :=
  {| Server.params_id := id; Server.user_id := uid; Server.body := no_body |}.

Definition sample_env : Server.Env :=
  {| Server.now := 100; Server.new_id := "000000000000000000000009" |}.

(** An earlier time, at which alice's plan is not yet due. *)
Definition early_env : Server.Env :=
  {| Server.now := 40; Server.new_id := "000000000000000000000009" |}.

(** The reference of the sample array. *)
Definition sample_ref : nat := 0%nat.

(** A world with one array, the sample tasks at [sample_ref], and the clock
    at [now]. *)
Definition sample_world (now : Z) : Runtime.World :=
  {| Runtime.heap := {[ sample_ref := sample_tasks ]}; Runtime.clock := now |}.

(** A verification that accepts one token. *)
Definition sample_verify (token : string) : option string :=
  if String.eqb token "good" then Some alice else None.

(** The middlewares of the samples: the rate limiter lets every request
    pass. *)
Definition sample_run : Routes.Middleware → Routes.Request → Routes.Step :=
  Routes.spec_run sample_verify Routes.next.

Definition sample_request (m : Routes.Method) (p : list string)
    (header : option string) : Routes.Request :=
  {| Routes.method := m; Routes.path := p;
     Routes.authorization := header; Routes.user := None |}.


(* ===================================================================== *)
(** * Part V. The rest of the helpers and their callers                  *)
(* ===================================================================== *)

(** ** helpers.js: colours and icons *)

(** [getCategoryInfo(category).color] and its siblings; [None] stands for
    the TypeError of a member access on [undefined]. *)
Definition getCategoryColor (category : string) : option string :=
  color <$> getCategoryInfo category.

Definition getCategoryIcon (category : string) : option string :=
  icon <$> getCategoryInfo category.

Definition getPriorityColor (priority : string) : option string :=
  color <$> getPriorityInfo priority.

Definition getPriorityIcon (priority : string) : option string :=
  icon <$> getPriorityInfo priority.

(** ** helpers.js: grouping *)

(** [s || fallback] on strings. *)
Definition str_or (s fallback : string) : string :=
  if truthy (VStr s) then s else fallback.

(** The callback of the two [reduce] calls, on the own properties of
    [groups].  [groups[key]] also finds the members inherited from
    [Object.prototype]: they are truthy, so no array is stored, and none of
    them has a [push], so the call throws ([None]). *)
Definition group_step (key : Task → string)
    (groups : gmap string (list Task)) (task : Task) : option (gmap string (list Task)) :=
  let k := key task in
  match groups !! k with
  | Some tasks => Some (<[k := (tasks ++ [task])%list]> groups)
  | None =>
      if bool_decide (k ∈ Object_prototype) then None
      else Some (<[k := [task]]> groups)
  end.

(** [tasks.reduce(callback, {})] *)
Definition group_reduce (key : Task → string) (tasks : list Task) :
    option (gmap string (list Task)) :=
  foldl (λ groups task, groups ≫= λ g, group_step key g task) (Some ∅) tasks.

Definition groupTasksByCategory (tasks : list Task) : option (gmap string (list Task)) :=
  group_reduce (λ task, str_or (category_value (category task)) "other") tasks.

Definition groupTasksByPriority (tasks : list Task) : option (gmap string (list Task)) :=
  group_reduce (λ task, str_or (priority_value (priority task)) "medium") tasks.

(** ** helpers.js: validation *)

(** The regular expressions that the client uses are sequences of character
    classes, each taken once or one or more times, between [^] and [$]. *)
Inductive Item :=
  | One (class : Ascii.ascii → bool)
  | Plus (class : Ascii.ascii → bool).

(** [regex.test(s)] for the anchored sequence [items]. *)
Fixpoint regex_test (s : string) : list Item → bool :=
  match s with
  | "" => λ items, match items with [] => true | _ => false end
  | String c s' => λ items,
      match items with
      | [] => false
      | One class :: rest => class c && regex_test s' rest
      | Plus class :: rest =>
          class c && (regex_test s' rest || regex_test s' (Plus class :: rest))
      end
  end.

(** The two characters that the pattern names. *)
Module Char.
Import Stdlib.Strings.Ascii.
Definition at_sign : ascii := "@"%char.
Definition full_stop : ascii := "."%char.
End Char.

(** [\s] on the code units below 256: tab, line feed, vertical tab, form
    feed, carriage return, space and the no-break space. *)
Definition white_space (c : Ascii.ascii) : bool :=
  bool_decide (Ascii.nat_of_ascii c ∈ [9; 10; 11; 12; 13; 32; 160]%nat).

(** [[^\s@]] *)
Definition not_space_or_at (c : Ascii.ascii) : bool :=
  negb (white_space c) && negb (Ascii.eqb c Char.at_sign).

(** [/^[^\s@]+@[^\s@]+\.[^\s@]+$/] *)
Definition emailRegex : list Item :=
  [ Plus not_space_or_at; One (Ascii.eqb Char.at_sign); Plus not_space_or_at;
    One (Ascii.eqb Char.full_stop); Plus not_space_or_at ].

Definition validateEmail (email : string) : bool := regex_test email emailRegex.

(** [password && password.length >= 6], by its truth value. *)
Definition validatePassword (password : string) : bool :=
  truthy (VStr password) && (6 <=? Z.of_nat (String.length password)).

Section Validation.

(** [String.prototype.trim], a black box. *)
Variable trim : string → string.

(** [title && title.trim().length > 0 && title.length <= 200], by its
    truth value. *)
Definition validateTaskTitle (title : string) : bool :=
  truthy (VStr title) && (0 <? Z.of_nat (String.length (trim title)))
    && (Z.of_nat (String.length title) <=? 200).

End Validation.

(** ** helpers.js: [truncateText] *)

(** [text.substr(0, n)] for an integral [n]: the first [n] code units, the
    whole text when it is shorter, nothing when [n] is negative. *)
Definition substr0 (text : string) (n : Z) : string :=
  String.substring 0 (Z.to_nat n) text.

(** [truncateText(text, maxLength)]; a missing text is returned as it is. *)
Definition truncateText (text : option string) (maxLength : Z) : option string :=
  match text with
  | None => None
  | Some s =>
      if negb (truthy (VStr s)) || (Z.of_nat (String.length s) <=? maxLength)
      then Some s
      else Some (substr0 s maxLength +:+ "...")
  end.

(** ** pages/Login.js: [validateForm] *)

Module Login.

Record FormData := { email : string; password : string }.

(** The [newErrors] object: a message per field, if any. *)
Record Errors := { e_email : option string; e_password : option string }.

(** [Object.keys(newErrors).length] *)
Definition keys_length (errors : Errors) : Z :=
  (match e_email errors with Some _ => 1 | None => 0 end)
  + (match e_password errors with Some _ => 1 | None => 0 end).

(** [validateForm()], with the errors it stores by [setErrors]. *)
Definition validateForm (formData : FormData) : Errors * bool :=
  let email_error :=
    if negb (truthy (VStr (email formData))) then Some "Email is required"
    else if negb (validateEmail (email formData))
         then Some "Please enter a valid email address"
         else None in
  let password_error :=
    if negb (truthy (VStr (password formData))) then Some "Password is required"
    else if negb (validatePassword (password formData))
         then Some "Password must be at least 6 characters"
         else None in
  let newErrors := {| e_email := email_error; e_password := password_error |} in
  (newErrors, keys_length newErrors =? 0).

End Login.

(** ** helpers.js: relative times *)

From stdpp Require pretty.

Section Time.

(** The rounding of an exact difference or quotient to a double. *)
Variable fl : Q → Q.

(** [dateObj.toLocaleDateString('en-US', ...)], a black box. *)
Variable toLocaleDateString : Z → string.

Definition formatDate (date : option Z) : string :=
  match date with
  | None => ""
  | Some date => toLocaleDateString date
  end.

(** [formatRelativeTime(date)], with the reading [now] of [new Date()].
    The numbers it prints are integers of at most a few digits, which
    [pretty] prints as JavaScript does. *)
Definition formatRelativeTime (now : Z) (date : option Z) : string :=
  match date with
  | None => ""
  | Some dateObj =>
      let diffInMs := fl (inject_Z (now - dateObj)) in
      let diffInHours := Qfloor (fl (diffInMs / inject_Z (1000 * 60 * 60))) in
      let diffInDays := Qfloor (fl (inject_Z diffInHours / inject_Z 24)) in
      if diffInHours <? 1 then
        let diffInMinutes := Qfloor (fl (diffInMs / inject_Z (1000 * 60))) in
        if diffInMinutes <? 1 then "Just now"
        else pretty.pretty diffInMinutes +:+ "m ago"
      else if diffInHours <? 24 then pretty.pretty diffInHours +:+ "h ago"
      else if diffInDays <? 30 then pretty.pretty diffInDays +:+ "d ago"
      else formatDate date
  end.

(** [getDaysUntilDue(dueDate)], with the reading [now] of [new Date()];
    [None] is [null]. *)
Definition getDaysUntilDue (now : Z) (dueDate : option Z) : option Z :=
  match dueDate with
  | None => None
  | Some due =>
      let diffInMs := fl (inject_Z (due - now)) in
      let diffInDays := Qceiling (fl (diffInMs / inject_Z (1000 * 60 * 60 * 24))) in
      Some diffInDays
  end.

(** *** components/TaskCard.js: the text under the due date *)

(** The two pieces of text that the card shows for the due date of a task
    that has one; [isOverdue], [getDaysUntilDue] and [formatRelativeTime]
    each read the clock. *)
Definition due_text (now1 now2 now3 : Z) (task : Task) : option (string * string) :=
  if truthy (from_option VDate VUndef (dueDate task)) then
    let overdue := isOverdue now1 (dueDate task) in
    let daysUntilDue := getDaysUntilDue now2 (dueDate task) in
    Some
      (if overdue && negb (isDone task) then "Overdue" else "",
       match daysUntilDue with
       | Some days =>
           if (0 <=? days) && negb (isDone task)
           then (if days =? 0 then "Due today" else pretty.pretty days +:+ " days left")
           else formatRelativeTime now3 (dueDate task)
       | None => formatRelativeTime now3 (dueDate task)
       end)
  else None.

End Time.

(** ** context/AuthContext.js *)

Module AuthContext.

(** A user object, by its properties. *)
Definition User := gmap string string.

Record State := {
  user : option User;
  token : option string;
  isLoading : bool;
  isAuthenticated : bool;
  error : option string
}.

Definition initialState : State :=
  {| user := None; token := None; isLoading := true;
     isAuthenticated := false; error := None |}.

Inductive Action :=
  | SET_LOADING (payload : bool)
  | SET_USER (payload : option User)
  | SET_TOKEN (payload : option string)
  | SET_ERROR (payload : option string)
  | LOGIN_SUCCESS (payload_user : User) (payload_token : string)
  | LOGOUT
  | UPDATE_USER (payload : User)
  | CLEAR_ERROR.

(** [{ ...a, ...b }]: the properties of [b], and those of [a] that [b]
    does not have; spreading [null] adds nothing. *)
Definition spread (a : option User) (b : User) : User := b ∪ default ∅ a.

Definition authReducer (state : State) (action : Action) : State :=
  match action with
  | SET_LOADING payload =>
      {| user := user state; token := token state; isLoading := payload;
         isAuthenticated := isAuthenticated state; error := error state |}
  | SET_USER payload =>
      {| user := payload; token := token state; isLoading := isLoading state;
         isAuthenticated := bool_decide (payload ≠ None); error := error state |}
  | SET_TOKEN payload =>
      {| user := user state; token := payload; isLoading := isLoading state;
         isAuthenticated := isAuthenticated state; error := error state |}
  | SET_ERROR payload =>
      {| user := user state; token := token state; isLoading := false;
         isAuthenticated := isAuthenticated state; error := payload |}
  | LOGIN_SUCCESS payload_user payload_token =>
      {| user := Some payload_user; token := Some payload_token;
         isLoading := false; isAuthenticated := true; error := None |}
  | LOGOUT =>
      {| user := None; token := None; isLoading := false;
         isAuthenticated := false; error := None |}
  | UPDATE_USER payload =>
      {| user := Some (spread (user state) payload); token := token state;
         isLoading := isLoading state;
         isAuthenticated := isAuthenticated state; error := error state |}
  | CLEAR_ERROR =>
      {| user := user state; token := token state; isLoading := isLoading state;
         isAuthenticated := isAuthenticated state; error := None |}
  end.

(** The state after a sequence of dispatched actions. *)
Definition run (state : State) (actions : list Action) : State :=
  foldl authReducer state actions.

Section Provider.

(** [JSON.stringify] on a user object, a black box. *)
Variable stringify : User → string.

Definition setItem (key value : string) (b : Api.Browser) : Api.Browser :=
  {| Api.localStorage := <[key := value]> (Api.localStorage b);
     Api.location_href := Api.location_href b; Api.toasts := Api.toasts b |}.

(** [toast.success]; the model keeps one list of toasts. *)
Definition toast_success (message : string) (b : Api.Browser) : Api.Browser :=
  Api.toast_error message b.

(** [login] and [register] once the call has returned [response]: what
    they store and dispatch.  [message] is [response.message]. *)
Definition logged_in (fallback : string) (response_user : User)
    (response_token : string) (message : option string)
    (state : State) (b : Api.Browser) : State * Api.Browser :=
  let state := authReducer state (SET_LOADING true) in
  let state := authReducer state CLEAR_ERROR in
  let b := setItem "token" response_token b in
  let b := setItem "user" (stringify response_user) b in
  let state := authReducer state (LOGIN_SUCCESS response_user response_token) in
  let b :=
    toast_success
      (match message with
       | Some m => if truthy (VStr m) then m else fallback
       | None => fallback
       end) b in
  (state, b).

(** [logout] *)
Definition logout (state : State) (b : Api.Browser) : State * Api.Browser :=
  let b := Api.removeItem "token" b in
  let b := Api.removeItem "user" b in
  let state := authReducer state LOGOUT in
  (state, toast_success "Logged out successfully! ðŸ‘‹" b).

End Provider.

End AuthContext.

(** ** pages/Dashboard.js: the list of tasks and the handlers *)

Module Dashboard.

(** The filters that the page starts with; it starts sorted by
    [SortBy.createdAt] in the order [SortOrder.desc]. *)
Definition initial_filters : Filters :=
  {| search := Some ""; f_category := Some "all"; f_priority := Some "all";
     status := Some "all" |}.

(** [filteredAndSortedTasks], on the tasks as the helpers read them. *)
Definition filteredAndSortedTasks (toLowerCase : string → string)
    (tasks : list Task) (filters : Filters) (sortBy : SortBy.t)
    (sortOrder : SortOrder.t) : list Task :=
  let filtered := filterTasks toLowerCase tasks filters in
  sortTasks toLowerCase filtered sortBy sortOrder.

(** A task as the page holds it: the JSON of a document, with its [_id]. *)
Definition Item : Type := Server.ObjectId * Server.Task.

(** What a call of [tasksAPI] comes back with: axios resolves a response
    with a status from 200 to 299 to its data and rejects every other,
    which takes the handler to its [catch]. *)
Definition resolved (response : Server.Response) : option Server.Json :=
  if (200 <=? Server.status response) && (Server.status response <? 300)
  then Some (Server.json response)
  else None.

(** [response.task] *)
Definition response_task (data : Server.Json) : option Item :=
  match data with
  | Server.JTask oid task | Server.JMessageTask _ oid task => Some (oid, task)
  | _ => None
  end.

(** The updaters that the handlers pass to [setTasks]. *)

(** [prev.map(task => task._id === taskId ? response.task : task)] *)
Definition replace_task (taskId : string) (task_ : Item) (prev : list Item)
    : list Item :=
  (λ task : Item, if String.eqb task.1 taskId then task_ else task) <$> prev.

(** [prev.filter(task => task._id !== taskId)] *)
Definition remove_task (taskId : string) (prev : list Item) : list Item :=
  Array_filter (λ task : Item, negb (String.eqb task.1 taskId)) prev.

(** [[response.task, ...prev]] *)
Definition prepend_task (task_ : Item) (prev : list Item) : list Item :=
  task_ :: prev.

(** [prev.filter(task => !selectedTasks.includes(task._id))] *)
Definition remove_selected (selectedTasks : list string) (prev : list Item)
    : list Item :=
  Array_filter
    (λ task : Item, negb (existsb (String.eqb task.1) selectedTasks)) prev.

(** [handleSelectTask]: the updater of [setSelectedTasks]. *)
Definition handleSelectTask (taskId : string) (prev : list string) : list string :=
  if existsb (String.eqb taskId) prev
  then Array_filter (λ id, negb (String.eqb id taskId)) prev
  else (prev ++ [taskId])%list.

(** The form of a new task; [dueDate] is [None] for the empty string. *)
Record NewTask := {
  title : string;
  description : string;
  category : string;
  priority : string;
  dueDate : option Z;
  tags : list string
}.

Section Handlers.

Variable castObjectId : string → option Server.ObjectId.
Variable trim : string → string.

(** [{ ...newTask, tags: newTask.tags.filter(tag => tag.trim()) }] as the
    server reads it. *)
Definition task_data (newTask : NewTask) : Server.Body :=
  {| Server.b_title := Some (title newTask);
     Server.b_description := Some (description newTask);
     Server.b_category := Some (category newTask);
     Server.b_priority := Some (priority newTask);
     Server.b_isDone := None;
     Server.b_dueDate := Some (dueDate newTask);
     Server.b_tags :=
       Some (Array_filter (λ tag, truthy (VStr (trim tag))) (tags newTask)) |}.

(** A handler with the round trip of its call: the request of the user
    [uid] reaches the controller, the answer reaches the handler, which
    updates the list when the call resolves and leaves it when the call
    is rejected.  A pair holds the collection of the server and the list
    of the page. *)

Definition after (response : Server.Response) (update : Item → list Item)
    (prev : list Item) : list Item :=
  match resolved response with
  | Some data =>
      match response_task data with
      | Some task_ => update task_
      | None => prev   (* never so with these controllers, see
                          [resolved_carries_task] *)
      end
  | None => prev
  end.

Definition handleToggleTask (env : Server.Env) (uid : Server.ObjectId)
    (taskId : string) (state : gmap Server.ObjectId Server.Task * list Item)
    : gmap Server.ObjectId Server.Task * list Item :=
  let '(response, db) :=
    Server.toggleTask castObjectId env
      {| Server.params_id := taskId; Server.user_id := uid;
         Server.body := no_body |} state.1 in
  (db, after response (λ task_, replace_task taskId task_ state.2) state.2).

(** [confirmed] is the answer to [window.confirm]. *)
Definition handleDeleteTask (confirmed : bool) (env : Server.Env)
    (uid : Server.ObjectId) (taskId : string)
    (state : gmap Server.ObjectId Server.Task * list Item)
    : gmap Server.ObjectId Server.Task * list Item :=
  if negb confirmed then state
  else
    let '(response, db) :=
      Server.deleteTask castObjectId env
        {| Server.params_id := taskId; Server.user_id := uid;
           Server.body := no_body |} state.1 in
    (db, match resolved response with
         | Some _ => remove_task taskId state.2
         | None => state.2
         end).

Definition handleCreateTask (env : Server.Env) (uid : Server.ObjectId)
    (newTask : NewTask) (state : gmap Server.ObjectId Server.Task * list Item)
    : gmap Server.ObjectId Server.Task * list Item :=
  if negb (truthy (VStr (trim (title newTask)))) then state
  else
    let '(response, db) :=
      Server.createTask trim env
        {| Server.params_id := ""; Server.user_id := uid;
           Server.body := task_data newTask |} state.1 in
    (db, after response (λ task_, prepend_task task_ state.2) state.2).

(** [editingTask] is the task that the form was opened for. *)
Definition handleUpdateTask (env : Server.Env) (uid : Server.ObjectId)
    (editingTask : Item) (newTask : NewTask)
    (state : gmap Server.ObjectId Server.Task * list Item)
    : gmap Server.ObjectId Server.Task * list Item :=
  if negb (truthy (VStr (trim (title newTask)))) then state
  else
    let '(response, db) :=
      Server.updateTask castObjectId trim env
        {| Server.params_id := editingTask.1; Server.user_id := uid;
           Server.body := task_data newTask |} state.1 in
    (db, after response (λ task_, replace_task editingTask.1 task_ state.2)
           state.2).

(** The calls of [Promise.all(selectedTasks.map(id =>
    tasksAPI.deleteTask(id)))]: every request is sent and reaches the
    server, here in the order of the list; the promise resolves when each
    call does. *)
Fixpoint delete_all (env : Server.Env) (uid : Server.ObjectId)
    (ids : list string) (db : gmap Server.ObjectId Server.Task)
    : bool * gmap Server.ObjectId Server.Task :=
  match ids with
  | [] => (true, db)
  | id :: rest =>
      let '(response, db) :=
        Server.deleteTask castObjectId env
          {| Server.params_id := id; Server.user_id := uid;
             Server.body := no_body |} db in
      let '(all_resolved, db) := delete_all env uid rest db in
      (bool_decide (is_Some (resolved response)) && all_resolved, db)
  end.

(** [handleBulkDelete]; the state has the selection as well. *)
Definition handleBulkDelete (confirmed : bool) (env : Server.Env)
    (uid : Server.ObjectId)
    (state : gmap Server.ObjectId Server.Task * list Item * list string)
    : gmap Server.ObjectId Server.Task * list Item * list string :=
  let '(db, tasks, selectedTasks) := state in
  if (length selectedTasks =? 0)%nat then state
  else if negb confirmed then state
  else
    let '(all_resolved, db) := delete_all env uid selectedTasks db in
    if all_resolved
    then (db, remove_selected selectedTasks tasks, [])
    else (db, tasks, selectedTasks).

End Handlers.

End Dashboard.

(** ** Notions used to state the properties of Part V *)

(** The tasks of [tasks] with the key [k], in the order of [tasks]; no group
    when there is none. *)
Definition group_of (key : Task → string) (k : string) (tasks : list Task)
    : option (list Task) :=
  match List.filter (λ task, String.eqb (key task) k) tasks with
  | [] => None
  | group => Some group
  end.

(** Every character of [s] is in the class [p]. *)
Fixpoint string_forall (p : Ascii.ascii → bool) (s : string) : bool :=
  match s with
  | "" => true
  | String c s' => p c && string_forall p s'
  end.

(** A part of an address: not empty, without white space and without [@]. *)
Definition email_part (s : string) : Prop :=
  s ≠ "" ∧ string_forall not_space_or_at s = true.

(** What is assumed of the rounding to a double: it is monotone, exact on the
    integers up to 2^53, and off by at most the unit roundoff, relatively.
    Rounding to nearest has the three properties wherever a result neither
    overflows nor underflows, as with the differences and quotients of time
    values. *)
Record rounding (fl : Q → Q) : Prop := {
  fl_monotone : ∀ x y : Q, (x <= y → fl x <= fl y)%Q;
  fl_integer : ∀ n : Z, Z.abs n ≤ 2 ^ 53 → (fl (inject_Z n) == inject_Z n)%Q;
  fl_relative_pos : ∀ x : Q,
    (0 <= x → x * (1 - unit_roundoff) <= fl x ∧ fl x <= x * (1 + unit_roundoff))%Q;
  fl_relative_neg : ∀ x : Q,
    (x <= 0 → x * (1 + unit_roundoff) <= fl x ∧ fl x <= x * (1 - unit_roundoff))%Q
}.

(** A day, an hour and a minute in milliseconds. *)
Definition minute : Z := 60000.
Definition hour : Z := 3600000.
Definition day : Z := 86400000.

(** A stand-in for [toLocaleDateString] in the examples. *)
Definition sample_toLocaleDateString (t : Z) : string := "a date".

(** ** The server *)

(** The order of [sort({ createdAt: -1 })]. *)
Definition newest_first (a b : Server.ObjectId * Server.Task) : Prop :=
  Server.createdAt b.2 ≤ Server.createdAt a.2.


(** A request of [alice] to create a task, and one to add a subtask to her
    plan. *)
Definition create_request : Server.Request :=
  {| Server.params_id := ""; Server.user_id := alice;
     Server.body :=
       {| Server.b_title := Some " walk the dog "; Server.b_description := None;
          Server.b_category := Some "health"; Server.b_priority := None;
          Server.b_isDone := Some true; Server.b_dueDate := Some (Some 500);
          Server.b_tags := None |} |}.

Definition subtask_request : Server.Request :=
  {| Server.params_id := id_plan; Server.user_id := alice;
     Server.body :=
       {| Server.b_title := Some "book a room"; Server.b_description := None;
          Server.b_category := None; Server.b_priority := None;
          Server.b_isDone := None; Server.b_dueDate := None;
          Server.b_tags := None |} |}.

(** ** The client in the browser *)

(** A browser with a stored session. *)
Definition logged_in_browser : Api.Browser :=
  {| Api.localStorage := {[ "token" := "good"; "user" := "alice" ]};
     Api.location_href := "/dashboard"; Api.toasts := [] |}.

(** The request that the server sees for a call, below the mount point
    [/api/tasks] of the tasks router: the method, the segments of the path,
    and the Authorization header that the interceptor has set. *)
Definition tasks_request (m : Routes.Method) (p : list string)
    (config : Api.Config) : Routes.Request :=
  {| Routes.method := m; Routes.path := p;
     Routes.authorization := Api.Authorization config; Routes.user := None |}.

(** ** The page and the server *)

(** The list of the page shows the tasks of the user [uid] in the
    collection: each once, and no other. *)
Definition in_sync (uid : Server.ObjectId)
    (state : gmap Server.ObjectId Server.Task * list Dashboard.Item) : Prop :=
  NoDup state.2.*1 ∧
  ∀ oid task, (oid, task) ∈ state.2 ↔
              state.1 !! oid = Some task ∧ Server.userId task = uid.

(** The identifiers of the collection are in the form that the cast
    returns. *)
Definition canonical (castObjectId : string → option Server.ObjectId)
    (db : gmap Server.ObjectId Server.Task) : Prop :=
  map_Forall (λ oid _, castObjectId oid = Some oid) db.

(** What the handlers of the page keep. *)
Definition page_invariant (castObjectId : string → option Server.ObjectId)
    (uid : Server.ObjectId)
    (state : gmap Server.ObjectId Server.Task * list Dashboard.Item) : Prop :=
  canonical castObjectId state.1 ∧ in_sync uid state.

Lemma append_cons (c : Ascii.ascii) (s t : string) :
  String c s +:+ t = String c (s +:+ t).
Proof. reflexivity. Qed.

Lemma append_nil (t : string) : "" +:+ t = t.
Proof. reflexivity. Qed.

Lemma prefix_app (t s : string) :
  String.prefix t s = true ↔ ∃ post, s = t +:+ post.
Proof.
  revert s. induction t as [|c t IH]; intros s.
  - simpl. destruct s; split; eauto.
  - destruct s as [|d s]; simpl.
    + split; [done|]. intros [post Hp]. rewrite append_cons in Hp. discriminate.
    + destruct (Ascii.ascii_dec c d) as [->|Hne].
      * rewrite IH. split; intros [post Hp]; exists post;
          rewrite append_cons in *; congruence.
      * split; [done|]. intros [post Hp]. rewrite append_cons in Hp. congruence.
Qed.

Lemma includes_nil (t : string) : includes "" t = String.prefix t "" || false.
Proof. reflexivity. Qed.

Lemma includes_cons (c : Ascii.ascii) (s t : string) :
  includes (String c s) t = String.prefix t (String c s) || includes s t.
Proof. reflexivity. Qed.

Lemma includes_substring (s t : string) :
  includes s t = true ↔ substring_of t s.
Proof.
  unfold substring_of. induction s as [|c s IH].
  - rewrite includes_nil, orb_false_r, prefix_app. split.
    + intros [post Hp]. by exists "", post.
    + intros (pre & post & Hp). destruct pre; [by exists post|].
      rewrite append_cons in Hp. discriminate.
  - rewrite includes_cons, orb_true_iff, prefix_app, IH. split.
    + intros [[post Hp]|(pre & post & Hp)].
      * by exists "", post.
      * exists (String c pre), post. by rewrite append_cons, Hp.
    + intros (pre & post & Hp). destruct pre as [|d pre].
      * left. by exists post.
      * right. exists pre, post. rewrite append_cons in Hp. congruence.
Qed.


Ltac case_eqb :=
  repeat match goal with
  | |- context [String.eqb ?a ?b] => destruct (String.eqb_spec a b); subst
  end.

Lemma if_set_None (o : option string) (body : string → Stmt) :
  if_set o body = None ↔ ∀ s, is_set o s → body s = None.
Proof.
  unfold if_set, is_set. destruct o as [s|].
  - destruct (String.eqb_spec s ""); subst.
    + split; [|done]. intros _ s [[= <-] Hs]. done.
    + split.
      * intros Hb s' [[= <-] _]. done.
      * intros Hb. by apply Hb.
  - split; [|done]. intros _ s [? _]. done.
Qed.

Lemma if_set_false (o : option string) (body : string → Stmt) :
  (∀ s, body s ≠ Some true) → if_set o body ≠ Some true.
Proof.
  intros Hb. unfold if_set. destruct o as [s|]; [|done].
  by destruct (String.eqb s "").
Qed.

Lemma if_false (c : bool) (s : Stmt) : s ≠ Some true → if_ c s ≠ Some true.
Proof. by destruct c. Qed.

Lemma then_false (s k : Stmt) :
  s ≠ Some true → k ≠ Some true → (s >> k) ≠ Some true.
Proof. by destruct s as [[]|]. Qed.

Lemma result_then (s k : Stmt) :
  s ≠ Some true → result (s >> k) = true ↔ s = None ∧ result k = true.
Proof. destruct s as [[]|]; simpl; intros H; split; try done; by intros []. Qed.

Lemma then_None (s k : Stmt) : (s >> k) = None ↔ s = None ∧ k = None.
Proof. destruct s; simpl; split; try done; by intros []. Qed.

Lemma if_None (c : bool) (b : bool) : if_ c (return_ b) = None ↔ c = false.
Proof. by destruct c. Qed.

Lemma if_None_body (c : bool) (s : Stmt) : if_ c s = None ↔ (c = true → s = None).
Proof. destruct c; simpl; split; auto; done. Qed.

Section HelpersFacts.

Variable toLowerCase : string → string.

Lemma opt_call_lowercased (o : option string) :
  opt_call_or_empty toLowerCase o = lowercased toLowerCase o.
Proof. by destruct o. Qed.

Lemma filterTasks_callback_passes (filters : Filters) (task : Task) :
  filterTasks_callback toLowerCase filters task = true ↔
  passes toLowerCase filters task.
Proof.
  unfold filterTasks_callback, passes.
  rewrite result_then by (apply if_set_false; intros; apply if_false, then_false; by apply if_false).
  rewrite result_then by (apply if_set_false; intros; apply if_false; by apply if_false).
  rewrite result_then by (apply if_set_false; intros; apply if_false; by apply if_false).
  rewrite result_then by (apply if_set_false; intros; by apply if_false).
  rewrite !if_set_None. simpl.
  rewrite !opt_call_lowercased.
  split.
  - intros (Hst & Hca & Hpr & Hse & _). repeat split.
    + intros Hp. assert (Hs : is_set (status filters) "pending") by done.
      apply Hst in Hs. simpl in Hs. by destruct (isDone task).
    + intros Hp. assert (Hs : is_set (status filters) "completed") by done.
      apply Hst in Hs. simpl in Hs. by destruct (isDone task).
    + intros c Hc Hall. specialize (Hca c Hc).
      rewrite if_None_body in Hca.
      destruct (String.eqb_spec c "all"); [done|].
      specialize (Hca eq_refl). rewrite if_None in Hca.
      by destruct (String.eqb_spec (category_value (category task)) c).
    + intros p Hp Hall. specialize (Hpr p Hp).
      rewrite if_None_body in Hpr.
      destruct (String.eqb_spec p "all"); [done|].
      specialize (Hpr eq_refl). rewrite if_None in Hpr.
      by destruct (String.eqb_spec (priority_value (priority task)) p).
    + intros s Hs. specialize (Hse s Hs). rewrite if_None in Hse.
      rewrite <- !includes_substring.
      repeat match goal with |- context [includes ?a ?b] => destruct (includes a b) end;
        auto; done.
  - intros (Hpe & Hco & Hca & Hpr & Hse). repeat split.
    + intros s [Hs Hne]. rewrite if_None_body. intros _.
      rewrite then_None, !if_None.
      destruct (String.eqb_spec s "pending"); subst.
      * rewrite (Hpe Hs). done.
      * destruct (String.eqb_spec s "completed"); subst; [|done].
        rewrite (Hco Hs). done.
    + intros c Hc. rewrite if_None_body. intros Hall. rewrite if_None.
      destruct (String.eqb_spec c "all"); [done|].
      rewrite (Hca c Hc) by done. by rewrite String.eqb_refl.
    + intros p Hp. rewrite if_None_body. intros Hall. rewrite if_None.
      destruct (String.eqb_spec p "all"); [done|].
      rewrite (Hpr p Hp) by done. by rewrite String.eqb_refl.
    + intros s Hs. rewrite if_None.
      destruct (Hse s Hs) as [H|[H|H]]; apply includes_substring in H;
        rewrite H; simpl; by rewrite ?andb_false_r.
Qed.

#[global] Instance passes_dec (filters : Filters) (task : Task) :
  Decision (passes toLowerCase filters task).
Proof.
  destruct (filterTasks_callback toLowerCase filters task) eqn:E.
  - left. by apply filterTasks_callback_passes.
  - right. rewrite <- filterTasks_callback_passes. congruence.
Defined.

(** C1.  [filterTasks] returns exactly the tasks that pass the conjunction
    of the predicates the filters ask for, status, category, priority and
    text search, each counted as often as it occurs and in the order of the
    input: it is the list [filter (passes filters) tasks]. *)
Theorem filterTasks_exact (tasks : list Task) (filters : Filters) :
  filterTasks toLowerCase tasks filters =
  filter (passes toLowerCase filters) tasks.
Proof.
  unfold filterTasks, Array_filter.
  induction tasks as [|task tasks IH]; [done|].
  cbn [List.filter]. rewrite filter_cons, IH.
  destruct (decide (passes toLowerCase filters task)) as [Hp|Hn].
  - apply filterTasks_callback_passes in Hp. by rewrite Hp.
  - destruct (filterTasks_callback toLowerCase filters task) eqn:E; [|done].
    by apply filterTasks_callback_passes in E.
Qed.

End HelpersFacts.

Section ArraySort.

Context {A : Type} (comparefn : A → A → Z).

Lemma sort_insert_perm (x : A) (l : list A) :
  sort_insert comparefn x l ≡ₚ x :: l.
Proof.
  induction l as [|y l IH]; simpl; [done|].
  destruct (0 <? comparefn x y); [|done].
  rewrite IH. apply Permutation_swap.
Qed.

Lemma Array_sort_perm (l : list A) : Array_sort comparefn l ≡ₚ l.
Proof.
  induction l as [|x l IH]; simpl; [done|].
  by rewrite sort_insert_perm, IH.
Qed.

Context (R : relation A) `{!Transitive R}.
Hypothesis after : ∀ x y, 0 < comparefn x y → R y x.
Hypothesis before : ∀ x y, comparefn x y ≤ 0 → R x y.

Lemma sort_insert_sorted (x : A) (l : list A) :
  StronglySorted R l → StronglySorted R (sort_insert comparefn x l).
Proof.
  induction l as [|y l IH]; simpl; intros Hs.
  - repeat constructor.
  - apply StronglySorted_inv in Hs as [Hl Hy].
    destruct (Z.ltb_spec 0 (comparefn x y)) as [Hlt|Hge].
    + constructor; [by apply IH|].
      rewrite sort_insert_perm. constructor; [by apply after|done].
    + constructor; [by constructor|].
      constructor; [by apply before|].
      eapply Forall_impl; [exact Hy|]. intros z Hz. simpl in Hz.
      trans y; [by apply before|done].
Qed.

Lemma Array_sort_sorted (l : list A) : StronglySorted R (Array_sort comparefn l).
Proof.
  induction l as [|x l IH]; simpl; [constructor|].
  by apply sort_insert_sorted.
Qed.

End ArraySort.

Lemma StronglySorted_lookup {A} (R : relation A) (l : list A) (i j : nat) (a b : A) :
  StronglySorted R l → (i < j)%nat → l !! i = Some a → l !! j = Some b → R a b.
Proof.
  intros Hs. revert i j. induction Hs as [|x l Hs IH Hx]; intros i j Hij Hi Hj.
  - done.
  - destruct j as [|j]; [lia|]. destruct i as [|i]; simpl in *.
    + injection Hi as <-. rewrite Forall_forall in Hx.
      apply Hx. by eapply list_elem_of_lookup_2.
    + eapply IH; [|done..]. lia.
Qed.

Lemma String_ltb_le (s t : string) :
  String.ltb s t = true ↔ String.le s t ∧ ¬ String.le t s.
Proof.
  unfold String.le, String.ltb, String.leb.
  rewrite (String.compare_antisym t s).
  destruct (String.compare s t); simpl; split; try done; try tauto.
Qed.

Section SortFacts.

Variable toLowerCase : string → string.

Lemma getPriorityValue_rank (p : Priority) :
  getPriorityValue (priority_value p) = VNum (rank p).
Proof. by destruct p. Qed.

Lemma far_future_date : Date_of_ymd 9999 12 31 = far_future.
Proof. reflexivity. Qed.

(** The compared value of each key is the key the specification names. *)
Lemma sort_value_key (sortBy : SortBy.t) (a : Task) :
  sort_value toLowerCase sortBy a =
  match sortBy with
  | SortBy.createdAt => VDate (createdAt a)
  | SortBy.updatedAt => VDate (updatedAt a)
  | SortBy.title => VStr (lowercased toLowerCase (title a))
  | SortBy.priority => VNum (rank (priority a))
  | SortBy.dueDate => VDate (default far_future (dueDate a))
  | SortBy.category => VStr (category_value (category a))
  end.
Proof.
  destruct sortBy; unfold sort_value; simpl; try done.
  - destruct (title a) as [s|]; simpl; [|done].
    unfold js_or, lowercased; simpl.
    by destruct (String.eqb_spec (toLowerCase s) "") as [->|].
  - apply getPriorityValue_rank.
  - by destruct (dueDate a).
Qed.

Lemma js_lt_key (sortBy : SortBy.t) (a b : Task) :
  js_lt (sort_value toLowerCase sortBy a) (sort_value toLowerCase sortBy b) = true ↔
  key_le toLowerCase sortBy a b ∧ ¬ key_le toLowerCase sortBy b a.
Proof.
  rewrite !sort_value_key.
  destruct sortBy; simpl; rewrite ?Z.ltb_lt, ?String_ltb_le; try lia; done.
Qed.

Lemma key_le_total (sortBy : SortBy.t) (a b : Task) :
  key_le toLowerCase sortBy a b ∨ key_le toLowerCase sortBy b a.
Proof. destruct sortBy; simpl; try lia; apply String.le_total. Qed.

#[global] Instance key_le_dec (sortBy : SortBy.t) (a b : Task) :
  Decision (key_le toLowerCase sortBy a b).
Proof. destruct sortBy; simpl; apply _. Defined.

#[global] Instance key_le_trans (sortBy : SortBy.t) :
  Transitive (key_le toLowerCase sortBy).
Proof.
  intros a b c. destruct sortBy; simpl; try lia;
    apply (transitivity (R := String.le)).
Qed.

#[global] Instance in_order_trans (sortBy : SortBy.t) (sortOrder : SortOrder.t) :
  Transitive (in_order toLowerCase sortBy sortOrder).
Proof.
  intros a b c. destruct sortOrder; simpl; intros; by etrans.
Qed.

Lemma compare_after (sortBy : SortBy.t) (sortOrder : SortOrder.t) (a b : Task) :
  0 < sortTasks_compare toLowerCase sortBy sortOrder a b →
  in_order toLowerCase sortBy sortOrder b a.
Proof.
  unfold sortTasks_compare.
  destruct (js_lt _ _) eqn:Hab.
  - apply js_lt_key in Hab as [? _]. destruct sortOrder; simpl; [lia|done].
  - destruct (js_lt (sort_value _ _ b) _) eqn:Hba; [|lia].
    apply js_lt_key in Hba as [? _]. destruct sortOrder; simpl; [done|lia].
Qed.

Lemma compare_before (sortBy : SortBy.t) (sortOrder : SortOrder.t) (a b : Task) :
  sortTasks_compare toLowerCase sortBy sortOrder a b ≤ 0 →
  in_order toLowerCase sortBy sortOrder a b.
Proof.
  unfold sortTasks_compare.
  destruct (js_lt _ _) eqn:Hab.
  - apply js_lt_key in Hab as [? _]. destruct sortOrder; simpl; [done|lia].
  - destruct (js_lt (sort_value _ _ b) _) eqn:Hba.
    + apply js_lt_key in Hba as [? _]. destruct sortOrder; simpl; [lia|done].
    + intros _.
      assert (Hnab : ¬ (key_le toLowerCase sortBy a b ∧ ¬ key_le toLowerCase sortBy b a))
        by (rewrite <- js_lt_key; congruence).
      assert (Hnba : ¬ (key_le toLowerCase sortBy b a ∧ ¬ key_le toLowerCase sortBy a b))
        by (rewrite <- js_lt_key; congruence).
      destruct (decide (key_le toLowerCase sortBy a b)),
        (decide (key_le toLowerCase sortBy b a)),
        (key_le_total sortBy a b), sortOrder; simpl; tauto.
Qed.

(** C2, as amended.  For every list of tasks, every sort key and both
    directions, [sortTasks] returns a permutation of the input that is
    sorted by the chosen key in the chosen direction: priority by its
    numeric rank, titles by their lowercased text, and a task with no due
    date as the date 9999-12-31; so, in ascending due-date order, a task
    with no due date comes after every task whose due date is earlier than
    9999-12-31. *)
Theorem sortTasks_sorted_permutation (tasks : list Task) (sortBy : SortBy.t)
    (sortOrder : SortOrder.t) :
  let sorted := sortTasks toLowerCase tasks sortBy sortOrder in
  sorted ≡ₚ tasks ∧
  StronglySorted (in_order toLowerCase sortBy sortOrder) sorted ∧
  (sortBy = SortBy.dueDate → sortOrder = SortOrder.asc →
   ∀ (i j : nat) (a b : Task) (due : Z),
     sorted !! i = Some a → dueDate a = None →
     sorted !! j = Some b → dueDate b = Some due → due < far_future →
     (j < i)%nat).
Proof.
  intros sorted.
  assert (Hs : StronglySorted (in_order toLowerCase sortBy sortOrder) sorted).
  { apply Array_sort_sorted; [apply _|apply compare_after|apply compare_before]. }
  split; [apply Array_sort_perm|]. split; [done|].
  intros -> -> i j a b due Hi Ha Hj Hb Hdue.
  destruct (decide (j < i)%nat) as [|Hij]; [done|].
  destruct (decide (i = j)) as [->|Hne]; [congruence|].
  assert (Hlt : (i < j)%nat) by lia.
  pose proof (StronglySorted_lookup _ _ _ _ _ _ Hs Hlt Hi Hj) as Hle.
  simpl in Hle. rewrite Ha, Hb in Hle. simpl in Hle. lia.
Qed.

End SortFacts.

(** ** The lookups *)

(** C3.  The priority rank used for comparison maps low to 1, medium to 2,
    high to 3 and urgent to 4. *)
Theorem getPriorityValue_known :
  getPriorityValue "low" = VNum 1 ∧
  getPriorityValue "medium" = VNum 2 ∧
  getPriorityValue "high" = VNum 3 ∧
  getPriorityValue "urgent" = VNum 4.
Proof.
  unfold getPriorityValue, get_property, js_or.
  repeat split; vm_compute; reflexivity.
Qed.

Lemma find_value_None (table : list Info) (key : string) :
  key ∉ value <$> table →
  List.find (λ e, String.eqb (value e) key) table = None.
Proof.
  induction table as [|e table IH]; [done|]. cbn [List.find fmap list_fmap].
  rewrite not_elem_of_cons. intros [Hne Hnin].
  destruct (String.eqb_spec (value e) key); [congruence|]. by apply IH.
Qed.

(** Every string that is not a known category gets the entry of [other]. *)
Lemma getCategoryInfo_unknown (category : string) :
  category ∉ known_categories →
  getCategoryInfo category = TASK_CATEGORIES !! 6%nat ∧
  value <$> getCategoryInfo category = Some "other".
Proof.
  intros Hnin. unfold getCategoryInfo. by rewrite find_value_None.
Qed.

(** Every string that is not a known priority gets the entry of [medium]. *)
Lemma getPriorityInfo_unknown (priority : string) :
  priority ∉ known_priorities →
  getPriorityInfo priority = TASK_PRIORITIES !! 1%nat ∧
  value <$> getPriorityInfo priority = Some "medium".
Proof.
  intros Hnin. unfold getPriorityInfo. by rewrite find_value_None.
Qed.

(** A string that is neither a known priority nor a name on the prototype
    gets the rank 2. *)
Lemma getPriorityValue_unknown (priority : string) :
  priority ∉ known_priorities → priority ∉ Object_prototype →
  getPriorityValue priority = VNum 2.
Proof.
  intros Hk Hp. unfold getPriorityValue, get_property.
  destruct (list_find _ _) as [[i [k v]]|] eqn:Hf.
  - apply list_find_Some in Hf as (Hi & Hkey & _). simpl in Hkey. subst k.
    exfalso. apply Hk. apply list_elem_of_lookup_2 in Hi.
    unfold known_priorities. simpl in *. set_solver.
  - by rewrite bool_decide_eq_false_2.
Qed.

(** C10, at the failing input.  ["constructor"] is not a known priority, and
    [getPriorityValue] returns for it the member found on the prototype of
    the rank table, not 2. *)
Theorem getPriorityValue_inherited :
  ("constructor" ∉ known_priorities) ∧
  getPriorityValue "constructor" = VObj "constructor" ∧
  getPriorityValue "constructor" ≠ VNum 2.
Proof.
  split; [|split].
  - unfold known_priorities. simpl. set_solver.
  - by vm_compute.
  - by vm_compute.
Qed.

(** ** Statistics *)

Section StatsFacts.

Variable fl : Q → Q.

(** The standard model of rounding: the relative error of a result is at
    most the unit roundoff.  It holds of a correctly rounded quotient or
    product in the range met here (a ratio of two counts, and a hundred
    times it: neither overflows nor underflows). *)
Hypothesis fl_accurate : ∀ x : Q,
  (0 <= x → x * (1 - unit_roundoff) <= fl x ∧ fl x <= x * (1 + unit_roundoff))%Q.

Lemma length_filter_split {A} (p : A → bool) (l : list A) :
  (length (List.filter p l) + length (List.filter (λ x, negb (p x)) l))%nat = length l.
Proof.
  induction l as [|x l IH]; [done|]. simpl.
  destruct (p x); simpl; lia.
Qed.

Lemma length_filter_le {A} (p q : A → bool) (l : list A) :
  (∀ x, p x = true → q x = true) →
  (length (List.filter p l) ≤ length (List.filter q l))%nat.
Proof.
  intros Hpq. induction l as [|x l IH]; [done|]. simpl.
  destruct (p x) eqn:Hp.
  - rewrite (Hpq x Hp). simpl. lia.
  - destruct (q x); simpl; lia.
Qed.

Lemma completionRate_range (completed total : Z) :
  0 ≤ completed ≤ total → 0 < total →
  0 ≤ Math_round (fl (fl (inject_Z completed / inject_Z total) * 100))%Q ≤ 100.
Proof.
  intros Hc Ht. unfold Math_round.
  set (q := (inject_Z completed / inject_Z total)%Q).
  assert (Hq : (0 <= q ∧ q <= 1)%Q).
  { assert (Hpos : (0 < inject_Z total)%Q)
      by (change 0%Q with (inject_Z 0); by rewrite <- Zlt_Qlt).
    unfold q. split.
    - apply Qle_shift_div_l; [done|].
      rewrite Qmult_0_l. change 0%Q with (inject_Z 0). rewrite <- Zle_Qle. lia.
    - apply Qle_shift_div_r; [done|].
      rewrite Qmult_1_l. rewrite <- Zle_Qle. lia. }
  destruct Hq as [Hq0 Hq1]. clearbody q.
  destruct (fl_accurate q Hq0) as [H1l H1u].
  unfold unit_roundoff in *.
  assert (Hx0 : (0 <= fl q * 100)%Q)
    by (revert H1l; generalize (fl q); clear - Hq0; intros; lra).
  destruct (fl_accurate (fl q * 100)%Q Hx0) as [H2l H2u].
  unfold unit_roundoff in *.
  set (a := fl q) in *. set (b := fl (a * 100)%Q) in *.
  clearbody b. clearbody a. clear fl fl_accurate Hc Ht.
  split.
  - change 0 with (Qfloor 0). apply Qfloor_resp_le. lra.
  - change 100 with (Qfloor (403 # 4)). apply Qfloor_resp_le. lra.
Qed.

(** C9.  For every list of tasks (and every reading of the clock) the
    statistics satisfy: completed + pending = total, total is the length of
    the list, overdue is at most pending, completionRate is an integer
    between 0 and 100, and it is 0 for the empty list. *)
Theorem getTaskStats_invariants (now : Z) (tasks : list Task) :
  let stats := getTaskStats fl now tasks in
  completed stats + pending stats = total stats ∧
  total stats = Z.of_nat (length tasks) ∧
  overdue stats ≤ pending stats ∧
  0 ≤ completionRate stats ≤ 100 ∧
  completionRate (getTaskStats fl now []) = 0.
Proof.
  cbn zeta. unfold getTaskStats, Array_filter. cbn [total completed pending overdue completionRate].
  pose proof (length_filter_split (λ task, isDone task) tasks) as Hsplit.
  cbv beta in Hsplit.
  pose proof (length_filter_le
    (λ task, negb (isDone task) && isOverdue now (dueDate task))
    (λ task, negb (isDone task)) tasks) as Hle.
  split; [lia|]. split; [done|]. split.
  - assert (Hov := Hle ltac:(intros x Hx; by apply andb_true_iff in Hx as [? _])).
    lia.
  - split; [|done].
    destruct (Z.ltb_spec 0 (Z.of_nat (length tasks))) as [Hpos|Hz]; [|lia].
    apply completionRate_range; lia.
Qed.

End StatsFacts.

Lemma no_rounding_accurate (x : Q) :
  (0 <= x →
   x * (1 - unit_roundoff) <= no_rounding x ∧
   no_rounding x <= x * (1 + unit_roundoff))%Q.
Proof. unfold no_rounding, unit_roundoff. intros Hx. split; lra. Qed.

(** The invariants at a list of three tasks, one of them done and one
    overdue at the reading 75 of the clock. *)
Lemma getTaskStats_invariants_witness :
  let stats := getTaskStats no_rounding 75 sample_tasks in
  completed stats + pending stats = total stats ∧
  total stats = Z.of_nat (length sample_tasks) ∧
  overdue stats ≤ pending stats ∧
  0 ≤ completionRate stats ≤ 100 ∧
  completionRate (getTaskStats no_rounding 75 []) = 0.
Proof.
  exact (getTaskStats_invariants no_rounding no_rounding_accurate 75 sample_tasks).
Defined.

(** ** Sorting by due date, beyond the year 9999 *)

(** The counterexample to C2 as stated: in ascending due-date order the task
    with no due date comes before the task that is due on 10000-01-01,
    whichever way the two are given. *)
Lemma sortTasks_undated_before_later_date :
  dueDate task_undated = None ∧
  dueDate task_year_10000 = Some (Date_of_ymd 10000 1 1) ∧
  sortTasks ascii_toLowerCase [task_undated; task_year_10000]
    SortBy.dueDate SortOrder.asc = [task_undated; task_year_10000] ∧
  sortTasks ascii_toLowerCase [task_year_10000; task_undated]
    SortBy.dueDate SortOrder.asc = [task_undated; task_year_10000].
Proof. repeat split; vm_compute; reflexivity. Qed.

(* ===================================================================== *)
(** * The helpers on arrays                                              *)
(* ===================================================================== *)

Section RuntimeFacts.

Variable toLowerCase : string → string.
Variable fl : Q → Q.

Lemma filter_elements_pure (p : Task → bool) (elements : list Task)
    (w : Runtime.World) :
  Runtime.filter_elements (λ task, mret (p task)) elements w =
  (List.filter p elements, w).
Proof.
  induction elements as [|x rest IH]; [done|].
  cbn [Runtime.filter_elements List.filter].
  unfold mbind, Runtime.M_bind, mret, Runtime.M_ret in *.
  rewrite IH. by destruct (p x).
Qed.

Lemma filter_elements_overdue (elements : list Task) (w : Runtime.World) :
  Runtime.filter_elements
    (λ task, if negb (isDone task) then Runtime.isOverdue (dueDate task)
             else mret false)
    elements w =
  (List.filter
     (λ task, negb (isDone task) && isOverdue (Runtime.clock w) (dueDate task))
     elements, w).
Proof.
  induction elements as [|x rest IH]; [done|].
  cbn [Runtime.filter_elements List.filter].
  unfold mbind, Runtime.M_bind, mret, Runtime.M_ret in *.
  destruct (isDone x); simpl.
  - by rewrite IH.
  - destruct (dueDate x) as [due|]; simpl; rewrite IH; [|done].
    unfold Runtime.Date_now. by destruct (due <? Runtime.clock w).
Qed.

Lemma fresh_heap (w : Runtime.World) (arr : Runtime.ref) :
  is_Some (Runtime.heap w !! arr) → fresh (dom (Runtime.heap w)) ≠ arr.
Proof.
  intros Hin <-. apply elem_of_dom in Hin. by apply is_fresh in Hin.
Qed.

Lemma contents_insert (h : gmap Runtime.ref (list Task)) (c : Z)
    (r arr : Runtime.ref) (elements : list Task) :
  Runtime.contents {| Runtime.heap := <[r := elements]> h; Runtime.clock := c |} arr =
  if decide (r = arr) then elements else default [] (h !! arr).
Proof.
  unfold Runtime.contents. simpl. rewrite lookup_insert.
  by destruct (decide (r = arr)).
Qed.

Lemma bind_run {A B} (m : Runtime.M A) (f : A → Runtime.M B) (w : Runtime.World) :
  (m ≫= f) w = f (m w).1 (m w).2.
Proof. unfold mbind, Runtime.M_bind. by destruct (m w). Qed.

Lemma length_of_run (arr : Runtime.ref) (w : Runtime.World) :
  Runtime.length_of arr w = (Z.of_nat (length (Runtime.contents w arr)), w).
Proof. reflexivity. Qed.

Lemma filter_of_run (arr : Runtime.ref) (p : Task → bool) (w : Runtime.World) :
  Runtime.filter_of arr (λ task, mret (p task)) w =
  (fresh (dom (Runtime.heap w)),
   {| Runtime.heap :=
        <[fresh (dom (Runtime.heap w)) := List.filter p (Runtime.contents w arr)]>
          (Runtime.heap w);
      Runtime.clock := Runtime.clock w |}).
Proof.
  unfold Runtime.filter_of. rewrite bind_run. cbn [Runtime.read fst snd].
  by rewrite bind_run, filter_elements_pure.
Qed.

Lemma filter_of_overdue_run (arr : Runtime.ref) (w : Runtime.World) :
  Runtime.filter_of arr
    (λ task, if negb (isDone task) then Runtime.isOverdue (dueDate task)
             else mret false) w =
  (fresh (dom (Runtime.heap w)),
   {| Runtime.heap :=
        <[fresh (dom (Runtime.heap w)) :=
            List.filter
              (λ task, negb (isDone task) &&
                       isOverdue (Runtime.clock w) (dueDate task))
              (Runtime.contents w arr)]>
          (Runtime.heap w);
      Runtime.clock := Runtime.clock w |}).
Proof.
  unfold Runtime.filter_of. rewrite bind_run. cbn [Runtime.read fst snd].
  by rewrite bind_run, filter_elements_overdue.
Qed.

Lemma spread_run (arr : Runtime.ref) (w : Runtime.World) :
  Runtime.spread arr w =
  (fresh (dom (Runtime.heap w)),
   {| Runtime.heap :=
        <[fresh (dom (Runtime.heap w)) := Runtime.contents w arr]> (Runtime.heap w);
      Runtime.clock := Runtime.clock w |}).
Proof. reflexivity. Qed.

Lemma filterTasks_run (tasks : Runtime.ref) (filters : Filters) (w : Runtime.World) :
  Runtime.filterTasks toLowerCase tasks filters w =
  (fresh (dom (Runtime.heap w)),
   {| Runtime.heap :=
        <[fresh (dom (Runtime.heap w)) :=
            filterTasks toLowerCase (Runtime.contents w tasks) filters]>
          (Runtime.heap w);
      Runtime.clock := Runtime.clock w |}).
Proof. apply filter_of_run. Qed.

Lemma sortTasks_run (tasks : Runtime.ref) (sortBy : SortBy.t)
    (sortOrder : SortOrder.t) (w : Runtime.World) :
  Runtime.sortTasks toLowerCase tasks sortBy sortOrder w =
  (fresh (dom (Runtime.heap w)),
   {| Runtime.heap :=
        <[fresh (dom (Runtime.heap w)) :=
            sortTasks toLowerCase (Runtime.contents w tasks) sortBy sortOrder]>
          (Runtime.heap w);
      Runtime.clock := Runtime.clock w |}).
Proof.
  unfold Runtime.sortTasks. rewrite bind_run, spread_run. cbn [fst snd].
  rewrite bind_run. unfold Runtime.sort_in_place. rewrite !bind_run.
  cbn [Runtime.read Runtime.write fst snd Runtime.heap Runtime.clock].
  rewrite contents_insert, decide_True by done.
  by rewrite insert_insert_eq.
Qed.

Lemma getTaskStats_run (tasks : Runtime.ref) (w : Runtime.World) :
  is_Some (Runtime.heap w !! tasks) →
  ∃ w', Runtime.getTaskStats fl tasks w =
          (getTaskStats fl (Runtime.clock w) (Runtime.contents w tasks), w') ∧
        Runtime.clock w' = Runtime.clock w ∧
        ∀ arr, is_Some (Runtime.heap w !! arr) →
               Runtime.heap w' !! arr = Runtime.heap w !! arr.
Proof.
  intros Htasks. unfold Runtime.getTaskStats.
  rewrite bind_run, length_of_run. cbn [fst snd].
  rewrite bind_run, filter_of_run. cbn [fst snd].
  set (r1 := fresh (dom (Runtime.heap w))).
  assert (Hr1 : r1 ≠ tasks) by by apply fresh_heap.
  rewrite bind_run, length_of_run. cbn [fst snd].
  rewrite contents_insert, decide_True by done.
  rewrite bind_run, filter_of_overdue_run. cbn [fst snd Runtime.heap Runtime.clock].
  rewrite contents_insert, decide_False by done.
  change (default [] (Runtime.heap w !! tasks)) with (Runtime.contents w tasks).
  set (r2 := fresh (dom (<[r1 := _]> (Runtime.heap w)))).
  rewrite bind_run, length_of_run. cbn [fst snd].
  rewrite contents_insert, decide_True by done.
  eexists. split; [reflexivity|]. split; [done|].
  intros arr Harr. cbn [Runtime.heap].
  assert (r1 ≠ arr) by by apply fresh_heap.
  assert (r2 ≠ arr).
  { intros <-. apply elem_of_dom in Harr.
    match goal with r2 := fresh ?X |- _ => apply (is_fresh X) end.
    fold r2. rewrite dom_insert. by apply elem_of_union_r. }
  by rewrite !lookup_insert_ne.
Qed.

(** C4, as amended.  On every world and every array [tasks] in it, the
    three helpers leave [tasks], and every other array that is there,
    unmodified.  The array that [filterTasks] returns holds what the list
    of [tasks] and the filters determine; the array that [sortTasks]
    returns holds what the list, [sortBy] and [sortOrder] determine; the
    statistics of [getTaskStats] are what the list and the reading of the
    clock determine. *)
Theorem helpers_leave_input_and_depend_on (w : Runtime.World) (tasks : Runtime.ref) :
  is_Some (Runtime.heap w !! tasks) →
  (∀ filters,
     let '(r, w') := Runtime.filterTasks toLowerCase tasks filters w in
     (∀ arr, is_Some (Runtime.heap w !! arr) →
             Runtime.heap w' !! arr = Runtime.heap w !! arr) ∧
     Runtime.contents w' r =
       filterTasks toLowerCase (Runtime.contents w tasks) filters) ∧
  (∀ sortBy sortOrder,
     let '(r, w') := Runtime.sortTasks toLowerCase tasks sortBy sortOrder w in
     (∀ arr, is_Some (Runtime.heap w !! arr) →
             Runtime.heap w' !! arr = Runtime.heap w !! arr) ∧
     Runtime.contents w' r =
       sortTasks toLowerCase (Runtime.contents w tasks) sortBy sortOrder) ∧
  (let '(stats, w') := Runtime.getTaskStats fl tasks w in
   (∀ arr, is_Some (Runtime.heap w !! arr) →
           Runtime.heap w' !! arr = Runtime.heap w !! arr) ∧
   stats = getTaskStats fl (Runtime.clock w) (Runtime.contents w tasks)).
Proof.
  intros Htasks. split; [|split].
  - intros filters. rewrite filterTasks_run. split.
    + intros arr Harr. cbn [Runtime.heap].
      rewrite lookup_insert_ne; [done|]. by apply fresh_heap.
    + by rewrite contents_insert, decide_True.
  - intros sortBy sortOrder. rewrite sortTasks_run. split.
    + intros arr Harr. cbn [Runtime.heap].
      rewrite lookup_insert_ne; [done|]. by apply fresh_heap.
    + by rewrite contents_insert, decide_True.
  - destruct (getTaskStats_run tasks w Htasks) as (w' & -> & _ & Hheap).
    by split.
Qed.

End RuntimeFacts.

(** The counterexample to C4 as stated: two calls of [getTaskStats] on the
    same array with the same elements, one when the clock reads 75 and one
    when it reads 200, return different statistics. *)
Lemma getTaskStats_depends_on_clock :
  Runtime.contents (sample_world 75) sample_ref =
    Runtime.contents (sample_world 200) sample_ref ∧
  overdue (Runtime.getTaskStats no_rounding sample_ref (sample_world 75)).1 = 1 ∧
  overdue (Runtime.getTaskStats no_rounding sample_ref (sample_world 200)).1 = 2.
Proof. repeat split; vm_compute; reflexivity. Qed.

Lemma sample_world_ref (now : Z) :
  is_Some (Runtime.heap (sample_world now) !! sample_ref).
Proof. by eexists. Qed.

(** The amended C4 at the sample world. *)
Lemma helpers_leave_input_and_depend_on_witness :
  is_Some (Runtime.heap (sample_world 75) !! sample_ref) ∧
  (let '(stats, w') := Runtime.getTaskStats no_rounding sample_ref (sample_world 75) in
   (∀ arr, is_Some (Runtime.heap (sample_world 75) !! arr) →
           Runtime.heap w' !! arr = Runtime.heap (sample_world 75) !! arr) ∧
   stats = getTaskStats no_rounding 75
             (Runtime.contents (sample_world 75) sample_ref)).
Proof.
  split; [apply sample_world_ref|].
  exact (proj2 (proj2 (helpers_leave_input_and_depend_on ascii_toLowerCase
    no_rounding (sample_world 75) sample_ref (sample_world_ref 75)))).
Defined.

(* ===================================================================== *)
(** * The task controller                                                *)
(* ===================================================================== *)

Section ControllerFacts.

Variable castObjectId : string → option Server.ObjectId.
Variable trim : string → string.

Implicit Types (db : gmap Server.ObjectId Server.Task) (req : Server.Request)
  (env : Server.Env) (task : Server.Task).

Lemma findOne_cases db id uid :
  findOne_outcome castObjectId db id uid (Server.findOne castObjectId db id uid).
Proof.
  unfold Server.findOne. destruct (castObjectId id) as [oid|] eqn:Hc.
  - destruct (db !! oid) as [task|] eqn:Hdb.
    + destruct (decide (Server.userId task = uid)).
      * by eapply found_some.
      * eapply found_none; [done|]. congruence.
    + eapply found_none; [done|]. congruence.
  - by constructor.
Qed.

Lemma no_task_of_cast db id uid oid :
  castObjectId id = Some oid →
  no_task_of castObjectId db id uid ↔
  (∀ task, db !! oid = Some task → Server.userId task ≠ uid).
Proof.
  intros Hc. unfold no_task_of. split.
  - intros H task. by apply H.
  - intros H oid' task Hc'. rewrite Hc in Hc'. injection Hc' as <-. apply H.
Qed.

Lemma on_error_not_404 (c v : bool) (m : string) (e : Server.Error) :
  Server.status (Server.on_error c v m e) ≠ 404.
Proof. by destruct e, c, v. Qed.

Lemma on_error_returned (c v : bool) (m : string) (e : Server.Error) :
  returned (Server.on_error c v m e) = [].
Proof. by destruct e, c, v. Qed.

(** *** What saving keeps *)

Lemma pre_save_userId (now : Z) (m : bool) task :
  Server.userId (Server.pre_save now m task) = Server.userId task.
Proof.
  unfold Server.pre_save. by repeat case_match.
Qed.

Lemma timestamps_userId (now : Z) (orig : option Server.Task) task :
  Server.userId (Server.timestamps now orig task) = Server.userId task.
Proof.
  unfold Server.timestamps. destruct orig as [o|]; [|done].
  by destruct (decide _).
Qed.

Lemma save_userId (now : Z) (orig : option Server.Task) task saved :
  Server.save now orig task = inr saved →
  Server.userId saved = Server.userId task.
Proof.
  unfold Server.save. destruct (Server.validate _ _ _); [|done].
  intros [= <-]. by rewrite timestamps_userId, pre_save_userId.
Qed.

Lemma assign_fields_userId (b : Server.Body) task :
  Server.userId (Server.assign_fields trim b task).1 = Server.userId task.
Proof.
  unfold Server.assign_fields.
  destruct (Server.b_title b), (Server.b_description b),
    (Server.b_category b) as [c|], (Server.b_priority b) as [p|],
    (Server.b_isDone b), (Server.b_dueDate b), (Server.b_tags b);
    simpl;
    repeat match goal with
    | |- context [Server.parse_category ?c] => destruct (Server.parse_category c)
    | |- context [Server.parse_priority ?p] => destruct (Server.parse_priority p)
    end; done.
Qed.

Lemma others_untouched_refl (uid : Server.ObjectId) db :
  others_untouched uid db db.
Proof. by intros oid task. Qed.

Lemma others_untouched_insert (uid : Server.ObjectId) db oid task saved :
  db !! oid = Some task → Server.userId task = uid →
  others_untouched uid db (<[oid := saved]> db).
Proof.
  intros Hdb Hu oid' task' Hdb' Hu'.
  rewrite lookup_insert_ne; [done|]. intros <-. congruence.
Qed.

Lemma others_untouched_delete (uid : Server.ObjectId) db oid task :
  db !! oid = Some task → Server.userId task = uid →
  others_untouched uid db (delete oid db).
Proof.
  intros Hdb Hu oid' task' Hdb' Hu'.
  rewrite lookup_delete_ne; [done|]. intros <-. congruence.
Qed.

Lemma scoped_error db id uid (v : bool) (m : string) (when_404 : Prop) :
  castObjectId id = None → (when_404 → none_found castObjectId db id uid) →
  scoped when_404 uid db (Server.on_error true v m Server.CastError, db).
Proof.
  intros Hc Hwhen. unfold scoped. simpl.
  split; [|split; [done|split]].
  - split; [done|]. intros [[oid Hoid] _]%Hwhen. congruence.
  - apply others_untouched_refl.
  - constructor.
Qed.

Lemma scoped_not_found db uid (when_404 : Prop) :
  when_404 → scoped when_404 uid db (Server.not_found, db).
Proof.
  intros Hwhen. unfold scoped. simpl.
  split; [done|]. split; [done|]. split; [apply others_untouched_refl|constructor].
Qed.

Lemma none_found_cast db id uid oid :
  castObjectId id = Some oid →
  (∀ task, db !! oid = Some task → Server.userId task ≠ uid) →
  none_found castObjectId db id uid.
Proof.
  intros Hc Hno. split; [by eexists|]. by apply no_task_of_cast with oid.
Qed.

Lemma scoped_found db id uid oid task (when_404 : Prop)
    (out : Server.Response * gmap Server.ObjectId Server.Task) :
  (when_404 → none_found castObjectId db id uid) →
  castObjectId id = Some oid → db !! oid = Some task →
  Server.userId task = uid →
  Server.status out.1 ≠ 404 →
  others_untouched uid db out.2 →
  Forall (λ task, Server.userId task = uid) (returned out.1) →
  scoped when_404 uid db out.
Proof.
  intros Hwhen Hc Hdb Hu Hst Hoth Hret. unfold scoped.
  split; [|split; [done|by split]].
  split; [done|]. intros [_ Hno]%Hwhen.
  rewrite (no_task_of_cast _ _ _ oid Hc) in Hno. by destruct (Hno task Hdb).
Qed.

Lemma getTask_scoped env req db :
  scoped (none_found castObjectId db (Server.params_id req) (Server.user_id req))
    (Server.user_id req) db (Server.getTask castObjectId env req db).
Proof.
  unfold Server.getTask.
  destruct (findOne_cases db (Server.params_id req) (Server.user_id req))
    as [Hc|oid Hc Hno|oid task Hc Hdb Hu].
  - apply (scoped_error _ (Server.params_id req)); try done; by intros [_ ?].
  - apply scoped_not_found. try (split; [done|]). by eapply none_found_cast.
  - eapply (scoped_found _ (Server.params_id req) _ oid task);
        try done; try (by intros [_ ?]); simpl.
    + apply others_untouched_refl.
    + by constructor.
Qed.

Lemma deleteTask_scoped env req db :
  scoped (none_found castObjectId db (Server.params_id req) (Server.user_id req))
    (Server.user_id req) db (Server.deleteTask castObjectId env req db).
Proof.
  unfold Server.deleteTask, Server.findOneAndDelete.
  destruct (findOne_cases db (Server.params_id req) (Server.user_id req))
    as [Hc|oid Hc Hno|oid task Hc Hdb Hu].
  - apply (scoped_error _ (Server.params_id req)); try done; by intros [_ ?].
  - apply scoped_not_found. try (split; [done|]). by eapply none_found_cast.
  - eapply (scoped_found _ (Server.params_id req) _ oid task);
        try done; try (by intros [_ ?]); simpl.
    by eapply others_untouched_delete.
Qed.

Lemma toggleTask_scoped env req db :
  scoped (none_found castObjectId db (Server.params_id req) (Server.user_id req))
    (Server.user_id req) db (Server.toggleTask castObjectId env req db).
Proof.
  unfold Server.toggleTask.
  destruct (findOne_cases db (Server.params_id req) (Server.user_id req))
    as [Hc|oid Hc Hno|oid task Hc Hdb Hu].
  - apply (scoped_error _ (Server.params_id req)); try done; by intros [_ ?].
  - apply scoped_not_found. try (split; [done|]). by eapply none_found_cast.
  - unfold Server.toggleCompletion.
    destruct (Server.save _ _ _) as [e|saved] eqn:Hs.
    + eapply (scoped_found _ (Server.params_id req) _ oid task);
        try done; try (by intros [_ ?]); simpl.
      * apply on_error_not_404.
      * apply others_untouched_refl.
      * by rewrite on_error_returned.
    + apply save_userId in Hs. simpl in Hs.
      eapply (scoped_found _ (Server.params_id req) _ oid task);
        try done; try (by intros [_ ?]); simpl.
      * by eapply others_untouched_insert.
      * constructor; [congruence|done].
Qed.

Lemma updateTask_scoped env req db :
  scoped (none_found castObjectId db (Server.params_id req) (Server.user_id req))
    (Server.user_id req) db (Server.updateTask castObjectId trim env req db).
Proof.
  unfold Server.updateTask.
  destruct (findOne_cases db (Server.params_id req) (Server.user_id req))
    as [Hc|oid Hc Hno|oid task Hc Hdb Hu].
  - apply (scoped_error _ (Server.params_id req)); try done; by intros [_ ?].
  - apply scoped_not_found. try (split; [done|]). by eapply none_found_cast.
  - pose proof (assign_fields_userId (Server.body req) task) as Hassign.
    destruct (Server.assign_fields trim (Server.body req) task) as [task' errs].
    simpl in Hassign.
    destruct (Server.validate _ _ _) as [|msg msgs].
    + destruct (Server.save _ _ _) as [e|saved] eqn:Hs.
      * eapply (scoped_found _ (Server.params_id req) _ oid task);
        try done; try (by intros [_ ?]); simpl.
        -- apply on_error_not_404.
        -- apply others_untouched_refl.
        -- by rewrite on_error_returned.
      * apply save_userId in Hs.
        eapply (scoped_found _ (Server.params_id req) _ oid task);
        try done; try (by intros [_ ?]); simpl.
        -- by eapply others_untouched_insert.
        -- constructor; [congruence|done].
    + eapply (scoped_found _ (Server.params_id req) _ oid task);
        try done; try (by intros [_ ?]); simpl.
      apply others_untouched_refl.
Qed.

Lemma addSubTask_scoped env req db :
  scoped (Server.blank trim (Server.b_title (Server.body req)) = false ∧
          none_found castObjectId db (Server.params_id req) (Server.user_id req))
    (Server.user_id req) db (Server.addSubTask castObjectId trim env req db).
Proof.
  unfold Server.addSubTask.
  destruct (Server.blank trim _) eqn:Hb.
  { unfold scoped. simpl. split; [|split; [done|split]].
    - split; [done|]. by intros [? _].
    - apply others_untouched_refl.
    - constructor. }
  destruct (findOne_cases db (Server.params_id req) (Server.user_id req))
    as [Hc|oid Hc Hno|oid task Hc Hdb Hu].
  - apply (scoped_error _ (Server.params_id req)); try done; by intros [_ ?].
  - apply scoped_not_found. try (split; [done|]). by eapply none_found_cast.
  - unfold Server.addSubTask_method.
    destruct (Server.save _ _ _) as [e|saved] eqn:Hs.
    + eapply (scoped_found _ (Server.params_id req) _ oid task);
        try done; try (by intros [_ ?]); simpl.
      * apply on_error_not_404.
      * apply others_untouched_refl.
      * by rewrite on_error_returned.
    + apply save_userId in Hs. simpl in Hs.
      eapply (scoped_found _ (Server.params_id req) _ oid task);
        try done; try (by intros [_ ?]); simpl.
      * by eapply others_untouched_insert.
      * constructor; [congruence|done].
Qed.

(** C5, as amended.  For every authenticated request, each of [getTask],
    [updateTask], [deleteTask] and [toggleTask] responds 404, with the
    message "Task not found" and the collection as it was, exactly when the
    id is a well-formed [ObjectId] and no task with it has the [userId] of
    the requester; [addSubTask] does so exactly when, besides, the subtask
    title is not blank.  None of the five returns, modifies or deletes a
    task whose [userId] differs from the requester's. *)
Theorem task_operations_scoped env req db :
  let uid := Server.user_id req in
  let no_task :=
    is_Some (castObjectId (Server.params_id req)) ∧
    no_task_of castObjectId db (Server.params_id req) uid in
  scoped no_task uid db (Server.getTask castObjectId env req db) ∧
  scoped no_task uid db (Server.updateTask castObjectId trim env req db) ∧
  scoped no_task uid db (Server.deleteTask castObjectId env req db) ∧
  scoped no_task uid db (Server.toggleTask castObjectId env req db) ∧
  scoped (Server.blank trim (Server.b_title (Server.body req)) = false ∧ no_task)
    uid db (Server.addSubTask castObjectId trim env req db).
Proof.
  cbn zeta.
  split; [apply getTask_scoped|].
  split; [apply updateTask_scoped|].
  split; [apply deleteTask_scoped|].
  split; [apply toggleTask_scoped|].
  apply addSubTask_scoped.
Qed.

End ControllerFacts.

(** ** Validation and saving *)

Lemma existsb_false_Forall {A} (f : A → bool) (l : list A) :
  existsb f l = false ↔ Forall (λ x, f x = false) l.
Proof.
  induction l as [|x l IH]; [by split|].
  cbn [existsb]. by rewrite orb_false_iff, Forall_cons, IH.
Qed.

Lemma message_nil (b : bool) (message : string) :
  (if b then [message] else []) = [] ↔ b = false.
Proof. by destruct b. Qed.

(** The validators let a document through exactly when no value of an
    enumeration was refused and the document is as the schema asks at that
    time. *)
Lemma validate_nil (now : Z) (enum_errors : list string) (doc : Server.Task) :
  Server.validate now enum_errors doc = [] ↔
  enum_errors = [] ∧ passes_validation now doc.
Proof.
  unfold Server.validate, passes_validation.
  rewrite !app_nil, !message_nil, !existsb_false_Forall.
  assert (Htitle :
    (if String.eqb (Server.title doc) "" then ["Task title is required"]
     else if (200 <? String.length (Server.title doc))%nat
          then ["Title cannot exceed 200 characters"] else []) = [] ↔
    Server.title doc ≠ "" ∧ (String.length (Server.title doc) ≤ 200)%nat).
  { destruct (String.eqb_spec (Server.title doc) "") as [Heq|Hne].
    - split; [done|]. by intros [? _].
    - destruct (Nat.ltb_spec 200 (String.length (Server.title doc))).
      + split; [done|]. intros [_ ?]. lia.
      + split; [|done]. intros _. split; [done|lia]. }
  assert (Hdue :
    match Server.dueDate doc with
    | Some due => negb (now <? due)
    | None => false
    end = false ↔ ∀ due, Server.dueDate doc = Some due → now < due).
  { destruct (Server.dueDate doc) as [due|]; [|by split].
    destruct (Z.ltb_spec now due); cbn; split; try done.
    - by intros _ ? [= <-].
    - intros H'. specialize (H' due eq_refl). lia. }
  assert (Hsubs :
    Forall (λ st, String.eqb (Server.st_title st) "" = false) (Server.subTasks doc) ∧
    Forall (λ st, (100 <? String.length (Server.st_title st))%nat = false)
      (Server.subTasks doc) ↔
    Forall valid_subTask (Server.subTasks doc)).
  { rewrite <- Forall_and. apply Forall_iff. intros st. unfold valid_subTask.
    destruct (String.eqb_spec (Server.st_title st) "");
      destruct (Nat.ltb_spec 100 (String.length (Server.st_title st)));
      intuition (try done; try lia). }
  assert (Htags :
    Forall (λ tag, (30 <? String.length tag)%nat = false) (Server.tags doc) ↔
    Forall (λ tag, (String.length tag ≤ 30)%nat) (Server.tags doc)).
  { apply Forall_iff. intros tag. by rewrite Nat.ltb_ge. }
  rewrite Htitle, Hdue, Htags, <- Hsubs, Nat.ltb_ge. tauto.
Qed.



Lemma passes_validation_due (now due : Z) (doc : Server.Task) :
  Server.dueDate doc = Some due → due ≤ now → ¬ passes_validation now doc.
Proof.
  intros Hdue Hle (_ & _ & _ & H & _). specialize (H due Hdue). lia.
Qed.

(** The message of a due date that is reached. *)
Lemma validate_due (now due : Z) (enum_errors : list string) (doc : Server.Task) :
  Server.dueDate doc = Some due → due ≤ now →
  "Due date must be in the future" ∈ Server.validate now enum_errors doc.
Proof.
  intros Hdue Hle. unfold Server.validate. rewrite Hdue.
  rewrite (proj2 (Z.ltb_ge now due)) by lia. cbn [negb].
  rewrite !elem_of_app. do 3 right. left. by apply list_elem_of_singleton.
Qed.

(** What [save] stores of the document it is given. *)
Lemma save_fields (now : Z) (orig : option Server.Task) (doc saved : Server.Task) :
  Server.save now orig doc = inr saved →
  Server.userId saved = Server.userId doc ∧
  Server.title saved = Server.title doc ∧
  Server.description saved = Server.description doc ∧
  Server.category saved = Server.category doc ∧
  Server.isDone saved = Server.isDone doc ∧
  Server.priority saved = Server.priority doc ∧
  Server.dueDate saved = Server.dueDate doc ∧
  Server.tags saved = Server.tags doc ∧
  Server.subTasks saved = Server.subTasks doc ∧
  match orig with
  | Some o =>
      Server.createdAt saved = Server.createdAt doc ∧
      (Server.updatedAt saved = Server.updatedAt doc ∨
       Server.updatedAt saved = now)
  | None => Server.createdAt saved = now ∧ Server.updatedAt saved = now
  end.
Proof.
  unfold Server.save. destruct (Server.validate now [] doc); [|done].
  intros [= <-]. unfold Server.timestamps, Server.pre_save.
  destruct orig as [o|].
  - destruct (decide _) as [Heq|Hne]; repeat case_match; cbn; tauto.
  - repeat case_match; cbn; tauto.
Qed.



Lemma save_fails (now : Z) (orig : option Server.Task) (doc : Server.Task) :
  ¬ passes_validation now doc →
  ∃ messages, Server.save now orig doc = inl (Server.ValidationError messages).
Proof.
  intros Hp. unfold Server.save.
  destruct (Server.validate now [] doc) eqn:Hv; [|by eexists].
  by apply validate_nil in Hv as [_ ?].
Qed.

(** A stored task that passes the validators is saved as it is. *)
Lemma save_unchanged (now : Z) (o : Server.Task) :
  passes_validation now o → Server.save now (Some o) o = inr o.
Proof.
  intros Hp. unfold Server.save.
  rewrite (proj2 (validate_nil now [] o)) by done.
  unfold Server.isModified. rewrite bool_decide_eq_false_2 by auto.
  unfold Server.pre_save, Server.timestamps. by rewrite decide_True.
Qed.

(** ** Toggling and the completion date *)

Section CompletionFacts.

Variable castObjectId : string → option Server.ObjectId.
Variable trim : string → string.

Implicit Types (db : gmap Server.ObjectId Server.Task) (req : Server.Request)
  (env : Server.Env) (task doc saved : Server.Task).

(** What [save] stores: the document, but for the completion date and the
    time stamps. *)
Lemma save_keeps (now : Z) (orig : option Server.Task) doc saved :
  Server.save now orig doc = inr saved →
  Server.userId saved = Server.userId doc ∧
  Server.title saved = Server.title doc ∧
  Server.isDone saved = Server.isDone doc ∧
  Server.dueDate saved = Server.dueDate doc ∧
  Server.title doc ≠ "".
Proof.
  unfold Server.save, Server.validate.
  destruct (String.eqb_spec (Server.title doc) ""); [done|].
  destruct (_ ++ _)%list; [|done]. intros [= <-].
  unfold Server.timestamps, Server.pre_save. by repeat case_match.
Qed.




Lemma toggleCompletion_inv (now : Z) task saved :
  Server.toggleCompletion now task = inr saved →
  Server.title task ≠ "" ∧
  Server.title saved = Server.title task ∧
  Server.userId saved = Server.userId task ∧
  Server.isDone saved = negb (Server.isDone task).
Proof.
  unfold Server.toggleCompletion. intros Hs.
  apply save_keeps in Hs as (Hu & Ht & Hd & _ & Hne). simpl in *. done.
Qed.


















End CompletionFacts.

(** ** Overdue tasks *)

#[global] Instance overdue_at_dec (now : Z) (done : bool) (due : option Z) :
  Decision (overdue_at now done due).
Proof. unfold overdue_at. destruct due; apply _. Defined.

#[global] Instance dueDate_le_trans : Transitive dueDate_le.
Proof. intros [x|] [y|] [z|]; simpl; try done. lia. Qed.

Section OverdueFacts.

Implicit Types (db : gmap Server.ObjectId Server.Task) (task : Server.Task).

Lemma isOverdue_overdue_at (now : Z) (done : bool) (due : option Z) :
  negb done && isOverdue now due = true ↔ overdue_at now done due.
Proof.
  unfold overdue_at, isOverdue. destruct done, due as [d|]; simpl;
    rewrite ?Z.ltb_lt; naive_solver.
Qed.

Lemma query_overdue_at (now : Z) (uid : Server.ObjectId) task :
  bool_decide (Server.userId task = uid) &&
  bool_decide (Server.isDone task = false) &&
  Server.query_lt (Server.dueDate task) now = true ↔
  Server.userId task = uid ∧
  overdue_at now (Server.isDone task) (Server.dueDate task).
Proof.
  unfold overdue_at, Server.query_lt.
  rewrite !andb_true_iff, !bool_decide_eq_true.
  destruct (Server.dueDate task); rewrite ?Z.ltb_lt; naive_solver.
Qed.

Lemma expr_overdue_at (now : Z) task :
  bool_decide (Server.isDone task = false) &&
  Server.expr_lt (Server.dueDate task) now &&
  negb (bool_decide (Server.dueDate task = None)) = true ↔
  overdue_at now (Server.isDone task) (Server.dueDate task).
Proof.
  unfold overdue_at, Server.expr_lt.
  rewrite !andb_true_iff, negb_true_iff, bool_decide_eq_true, bool_decide_eq_false.
  destruct (Server.dueDate task); rewrite ?Z.ltb_lt; naive_solver.
Qed.

Lemma elem_of_find db (keep : Server.Task → bool) (oid : Server.ObjectId) task :
  (oid, task) ∈ Server.find db keep ↔ db !! oid = Some task ∧ keep task = true.
Proof.
  unfold Server.find. rewrite list_elem_of_In, filter_In, <- list_elem_of_In.
  by rewrite elem_of_map_to_list.
Qed.

Lemma NoDup_List_filter {A} (p : A → bool) (l : list A) :
  NoDup l → NoDup (List.filter p l).
Proof.
  induction 1 as [|x l Hx Hl IH]; simpl; [constructor|].
  destruct (p x); [|done]. constructor; [|done].
  rewrite list_elem_of_In, filter_In, <- list_elem_of_In. by intros [? _].
Qed.

Lemma NoDup_find db (keep : Server.Task → bool) : NoDup (Server.find db keep).
Proof. apply NoDup_List_filter, NoDup_map_to_list. Qed.

Lemma filter_filter_length {A} (p q : A → bool) (l : list A) :
  length (List.filter q (List.filter p l)) =
  length (List.filter (λ x, p x && q x) l).
Proof.
  induction l as [|x l IH]; [done|]. simpl.
  destruct (p x); simpl; [|done]. destruct (q x); simpl; by rewrite IH.
Qed.

Lemma filter_ext_length {A} (p q : A → bool) (l : list A) :
  (∀ x, p x = q x) → length (List.filter p l) = length (List.filter q l).
Proof. intros Hpq. by rewrite (filter_ext p q Hpq). Qed.

Lemma compare_dueDate_after (a b : Server.ObjectId * Server.Task) :
  0 < Server.compare_dueDate a b →
  dueDate_le (Server.dueDate b.2) (Server.dueDate a.2).
Proof.
  unfold Server.compare_dueDate, dueDate_le.
  destruct (Server.dueDate a.2) as [x|], (Server.dueDate b.2) as [y|];
    try done; try lia.
  destruct (Z.ltb_spec x y); [lia|]. destruct (Z.ltb_spec y x); lia.
Qed.

Lemma compare_dueDate_before (a b : Server.ObjectId * Server.Task) :
  Server.compare_dueDate a b ≤ 0 →
  dueDate_le (Server.dueDate a.2) (Server.dueDate b.2).
Proof.
  unfold Server.compare_dueDate, dueDate_le.
  destruct (Server.dueDate a.2) as [x|], (Server.dueDate b.2) as [y|];
    try done; try lia.
  destruct (Z.ltb_spec x y); [lia|]. destruct (Z.ltb_spec y x); lia.
Qed.

Lemma findOverdue_count (now : Z) db (uid : Server.ObjectId) :
  Z.of_nat (length (Server.findOverdue now db uid)) =
  Server.g_overdue (Server.aggregate_stats now db uid).
Proof.
  unfold Server.findOverdue, Server.aggregate_stats.
  rewrite (Permutation_length (Array_sort_perm _ _)).
  assert (Hcount :
    length (Server.find db (λ task,
      bool_decide (Server.userId task = uid) &&
      bool_decide (Server.isDone task = false) &&
      Server.query_lt (Server.dueDate task) now)) =
    length (List.filter (λ doc : Server.ObjectId * Server.Task,
      bool_decide (Server.isDone doc.2 = false) &&
      Server.expr_lt (Server.dueDate doc.2) now &&
      negb (bool_decide (Server.dueDate doc.2 = None)))
      (Server.find db (λ task, bool_decide (Server.userId task = uid))))).
  { unfold Server.find. rewrite filter_filter_length.
    apply filter_ext_length. intros [oid task]. simpl.
    apply eq_true_iff_eq.
    rewrite query_overdue_at, andb_true_iff, expr_overdue_at, bool_decide_eq_true.
    done. }
  rewrite Hcount. clear Hcount.
  generalize (Server.find db (λ task, bool_decide (Server.userId task = uid))).
  by intros [|doc docs].
Qed.

(** C7.  A task counts as overdue exactly when it is not done and its due
    date is strictly before the current time, and never without a due
    date: so in the statistics of the client and in the overdue query of
    the server.  The overdue query returns exactly the overdue tasks of the
    requesting user, each once, sorted by due date ascending, and their
    number is the overdue count of the stats aggregation. *)
Theorem overdue_tasks :
  (∀ fl now tasks,
     overdue (getTaskStats fl now tasks) =
     Z.of_nat (length (filter
       (λ t : Task, overdue_at now (isDone t) (dueDate t)) tasks))) ∧
  (∀ now done, ¬ overdue_at now done None) ∧
  (∀ now, isOverdue now None = false) ∧
  (∀ now db uid,
     let tasks := Server.findOverdue now db uid in
     (∀ oid task,
        (oid, task) ∈ tasks ↔
        db !! oid = Some task ∧ Server.userId task = uid ∧
        overdue_at now (Server.isDone task) (Server.dueDate task)) ∧
     NoDup tasks ∧
     StronglySorted
       (λ a b, dueDate_le (Server.dueDate a.2) (Server.dueDate b.2)) tasks ∧
     Z.of_nat (length tasks) =
       Server.g_overdue (Server.aggregate_stats now db uid)) ∧
  (∀ env req db,
     let tasks := Server.findOverdue (Server.now env) db (Server.user_id req) in
     Server.getOverdueTasks env req db =
     ({| Server.status := 200;
         Server.json := Server.JTasks tasks (Z.of_nat (length tasks)) |}, db)).
Proof.
  split; [|split; [|split; [|split]]].
  - intros fl now tasks. unfold getTaskStats, Array_filter. simpl. f_equal.
    induction tasks as [|x tasks IH]; [done|].
    cbn [List.filter]. rewrite filter_cons.
    destruct (decide (overdue_at now (isDone x) (dueDate x))) as [Ho|Hn].
    + apply isOverdue_overdue_at in Ho. rewrite Ho. simpl. by rewrite IH.
    + destruct (negb (isDone x) && isOverdue now (dueDate x)) eqn:E; [|done].
      by apply isOverdue_overdue_at in E.
  - by intros now done [_ ?].
  - done.
  - intros now db uid tasks.
    assert (Hperm : tasks ≡ₚ Server.find db (λ task,
      bool_decide (Server.userId task = uid) &&
      bool_decide (Server.isDone task = false) &&
      Server.query_lt (Server.dueDate task) now)) by apply Array_sort_perm.
    split; [|split; [|split]].
    + intros oid task. rewrite Hperm, elem_of_find, query_overdue_at. done.
    + rewrite Hperm. apply NoDup_find.
    + apply Array_sort_sorted.
      * intros a b c. apply dueDate_le_trans.
      * apply compare_dueDate_after.
      * apply compare_dueDate_before.
    + apply findOverdue_count.
  - done.
Qed.

End OverdueFacts.

(* ===================================================================== *)
(** * Protected routes and the reset of the session                      *)
(* ===================================================================== *)

Section RoutesFacts.

Variable run : Routes.Middleware → Routes.Request → Routes.Step.

(** A stack of routes without middleware of their own hands the request
    over as it came. *)
Lemma dispatch_plain_routes (stack : list Routes.Layer) (req r : Routes.Request)
    (h : Routes.Controller) :
  Forall (λ layer, match layer with
                   | Routes.Route _ _ [] _ => True
                   | _ => False
                   end) stack →
  Routes.dispatch run stack req = Routes.Handled h r → r = req.
Proof.
  induction 1 as [|layer stack Hl Hs IH]; [done|].
  destruct layer as [|m pattern [|] handler]; try done.
  cbn [Routes.dispatch Routes.run_all].
  case_match; [by intros [= _ <-]|done].
Qed.

Lemma tasks_router_auth_first (req : Routes.Request) :
  Routes.dispatch run Routes.tasks_router req =
  match run Routes.auth req with
  | Routes.next req' => Routes.dispatch run (tail Routes.tasks_router) req'
  | Routes.respond status => Routes.Rejected status
  end.
Proof. reflexivity. Qed.

Lemma tasks_router_handled (req r : Routes.Request) (h : Routes.Controller) :
  Routes.dispatch run Routes.tasks_router req = Routes.Handled h r →
  run Routes.auth req = Routes.next r.
Proof.
  rewrite tasks_router_auth_first.
  destruct (run Routes.auth req) as [req'|status]; [|done].
  intros Hd. apply dispatch_plain_routes in Hd; [by subst|].
  unfold Routes.tasks_router. simpl. by repeat constructor.
Qed.

Lemma run_all_auth (req r : Routes.Request) :
  Routes.run_all run [Routes.auth] req = Routes.next r →
  run Routes.auth req = Routes.next r.
Proof. simpl. by destruct (run Routes.auth req). Qed.

Lemma auth_router_handled (req r : Routes.Request) (h : Routes.Controller) :
  Routes.dispatch run Routes.auth_router req = Routes.Handled h r →
  h ∈ [Routes.getProfile; Routes.updateProfile; Routes.verifyToken] →
  ∃ req0, run Routes.auth req0 = Routes.next r.
Proof.
  assert (Hrest : ∀ req1,
    Routes.dispatch run (drop 2 Routes.auth_router) req1 = Routes.Handled h r →
    h ∈ [Routes.getProfile; Routes.updateProfile; Routes.verifyToken] →
    ∃ req0, run Routes.auth req0 = Routes.next r).
  { intros req1. unfold Routes.auth_router.
    cbn [drop Routes.dispatch].
    change (Routes.run_all run [] req1) with (Routes.next req1).
    intros Hd Hh.
    repeat match type of Hd with
    | (if ?c then _ else _) = _ => destruct c
    end;
    try (destruct (Routes.run_all run [Routes.auth] req1) as [r'|] eqn:Hrun;
         [|done]; injection Hd as <- <-; exists req1; by apply run_all_auth);
    try (injection Hd as <- <-; exfalso; set_solver);
    done. }
  unfold Routes.auth_router. cbn [Routes.dispatch].
  do 2 (case_match; [case_match; [|done]|]); apply Hrest.
Qed.

Lemma auth_router_rejected (req : Routes.Request) (status : Z) :
  (Routes.method req, Routes.path req) ∈
    [ (Routes.GET, ["me"]); (Routes.PUT, ["profile"]); (Routes.POST, ["verify"]) ] →
  run Routes.auth req = Routes.respond status →
  Routes.dispatch run Routes.auth_router req = Routes.Rejected status.
Proof.
  intros Hin Hrun. destruct req as [m p a u]. simpl in Hin.
  unfold Routes.auth_router.
  rewrite !elem_of_cons, elem_of_nil in Hin.
  destruct Hin as [[= -> ->]|[[= -> ->]|[[= -> ->]|[]]]];
    vm_compute; cbv in Hrun; by rewrite Hrun.
Qed.

End RoutesFacts.

(** The session is gone after a 401. *)
Lemma receive_401 (message : option string) (b : Api.Browser) :
  let b' := Api.receive 401 message b in
  Api.localStorage b' !! "token" = None ∧
  Api.localStorage b' !! "user" = None ∧
  Api.location_href b' = "/login".
Proof.
  cbn zeta. unfold Api.receive. simpl.
  unfold Api.on_rejected. simpl.
  split; [|split; [|done]].
  - rewrite lookup_delete_ne by done. apply lookup_delete_eq.
  - apply lookup_delete_eq.
Qed.

(** C6.  Every task route verifies the bearer token: on the tasks router a
    request that [auth] answers goes no further, and a controller only ever
    gets the request that [auth] passed on; so do the three private routes of
    the auth router; with [auth] as the spec has it, a task request without a
    bearer token that verifies is answered 401.  And whenever the server
    answers 401, the client removes the stored token and user and goes to the
    login page. *)
Theorem protected_routes_and_session_reset :
  (∀ run req status,
     run Routes.auth req = Routes.respond status →
     Routes.dispatch run Routes.tasks_router req = Routes.Rejected status) ∧
  (∀ run req h r,
     Routes.dispatch run Routes.tasks_router req = Routes.Handled h r →
     run Routes.auth req = Routes.next r) ∧
  (∀ run req status,
     (Routes.method req, Routes.path req) ∈
       [ (Routes.GET, ["me"]); (Routes.PUT, ["profile"]); (Routes.POST, ["verify"]) ] →
     run Routes.auth req = Routes.respond status →
     Routes.dispatch run Routes.auth_router req = Routes.Rejected status) ∧
  (∀ run req h r,
     Routes.dispatch run Routes.auth_router req = Routes.Handled h r →
     h ∈ [Routes.getProfile; Routes.updateProfile; Routes.verifyToken] →
     ∃ req0, run Routes.auth req0 = Routes.next r) ∧
  (∀ verify limiter req,
     Routes.token_user verify req = None →
     Routes.dispatch (Routes.spec_run verify limiter) Routes.tasks_router req =
     Routes.Rejected 401) ∧
  (∀ message b,
     let b' := Api.receive 401 message b in
     Api.localStorage b' !! "token" = None ∧
     Api.localStorage b' !! "user" = None ∧
     Api.location_href b' = "/login").
Proof.
  split.
  { intros run req status Hrun. rewrite tasks_router_auth_first. by rewrite Hrun. }
  split; [intros run req h r; apply tasks_router_handled|].
  split; [apply auth_router_rejected|].
  split; [intros run req h r; apply auth_router_handled|].
  split.
  { intros verify limiter req Hnone. rewrite tasks_router_auth_first.
    unfold Routes.spec_run, Routes.spec_auth. by rewrite Hnone. }
  apply receive_401.
Qed.

(** ** The controller on the sample collection *)

(** The counterexample to C5 as stated.  No task with the id ["42"] belongs
    to alice, and [getTask] answers 400, not 404: the id is no [ObjectId].
    No task with the id of bob's bill belongs to alice either, and
    [addSubTask] without a title answers 400, not 404. *)
Lemma not_found_is_not_exact :
  no_task_of hex24 sample_collection "42" alice ∧
  Server.status
    (Server.getTask hex24 sample_env (request "42" alice) sample_collection).1 = 400 ∧
  no_task_of hex24 sample_collection id_bill alice ∧
  Server.status
    (Server.addSubTask hex24 ascii_trim sample_env (request id_bill alice)
       sample_collection).1 = 400.
Proof.
  split; [|split; [|split]].
  - intros oid task Hc. by vm_compute in Hc.
  - by vm_compute.
  - intros oid task Hc. vm_compute in Hc. injection Hc as <-.
    vm_compute. by intros [= <-].
  - by vm_compute.
Qed.

(** Bob cannot read, toggle or delete a task of alice; alice can. *)
Example getTask_other_user :
  Server.status
    (Server.getTask hex24 sample_env (request id_plan bob) sample_collection).1 = 404 ∧
  Server.status
    (Server.getTask hex24 sample_env (request id_plan alice) sample_collection).1 = 200 ∧
  (Server.deleteTask hex24 sample_env (request id_plan bob) sample_collection).2 =
    sample_collection ∧
  (Server.deleteTask hex24 sample_env (request id_plan alice) sample_collection).2 !! id_plan =
    None.
Proof. repeat split; by vm_compute. Qed.



(** Toggling alice's open task at time 40, before it is due, completes it
    at 40; toggling it again at 45 reopens it and clears the completion
    date. *)
Example toggleTask_sample :
  let once := Server.toggleTask hex24 early_env (request id_plan alice) sample_collection in
  let twice :=
    Server.toggleTask hex24 {| Server.now := 45; Server.new_id := "" |}
      (request id_plan alice) once.2 in
  (Server.isDone <$> once.2 !! id_plan) = Some true ∧
  (Server.completedAt <$> once.2 !! id_plan) = Some (Some 40) ∧
  (Server.isDone <$> twice.2 !! id_plan) = Some false ∧
  (Server.completedAt <$> twice.2 !! id_plan) = Some None.
Proof. repeat split; by vm_compute. Qed.

(** At time 100 alice has one overdue task, in the query and in the
    aggregation; her done task, though due earlier, does not count. *)
Example overdue_sample :
  (Server.findOverdue 100 sample_collection alice).*1 = [id_plan] ∧
  Server.g_overdue (Server.aggregate_stats 100 sample_collection alice) = 1 ∧
  Server.g_total (Server.aggregate_stats 100 sample_collection alice) = 2.
Proof. repeat split; by vm_compute. Qed.

(** ** The helpers and the routers on samples *)

Example filterTasks_sample :
  createdAt <$> filterTasks ascii_toLowerCase sample_tasks
    {| status := Some "pending"; f_category := Some "all";
       f_priority := Some ""; search := Some "MILK" |} = [1] ∧
  createdAt <$> filterTasks ascii_toLowerCase sample_tasks
    {| status := Some "completed"; f_category := Some "work";
       f_priority := None; search := None |} = [2] ∧
  createdAt <$> filterTasks ascii_toLowerCase sample_tasks
    {| status := None; f_category := None;
       f_priority := None; search := Some "d h" |} = [1].
Proof. repeat split; by vm_compute. Qed.

Example sortTasks_sample :
  createdAt <$> sortTasks ascii_toLowerCase sample_tasks SortBy.dueDate SortOrder.asc
    = [3; 1; 2] ∧
  createdAt <$> sortTasks ascii_toLowerCase sample_tasks SortBy.dueDate SortOrder.desc
    = [2; 1; 3] ∧
  createdAt <$> sortTasks ascii_toLowerCase sample_tasks SortBy.title SortOrder.asc
    = [3; 1; 2] ∧
  createdAt <$> sortTasks ascii_toLowerCase sample_tasks SortBy.priority SortOrder.desc
    = [3; 1; 2].
Proof. repeat split; by vm_compute. Qed.

Example getTaskStats_sample :
  getTaskStats no_rounding 75 sample_tasks =
  {| total := 3; completed := 1; pending := 2; overdue := 1; completionRate := 33 |}.
Proof. by vm_compute. Qed.

Example tasks_router_sample :
  Routes.dispatch sample_run Routes.tasks_router
    (sample_request Routes.PATCH [id_plan; "toggle"] (Some "Bearer good")) =
  Routes.Handled Routes.toggleTask
    {| Routes.method := Routes.PATCH; Routes.path := [id_plan; "toggle"];
       Routes.authorization := Some "Bearer good"; Routes.user := Some alice |} ∧
  Routes.dispatch sample_run Routes.tasks_router
    (sample_request Routes.PATCH [id_plan; "toggle"] (Some "Bearer stale")) =
  Routes.Rejected 401 ∧
  Routes.dispatch sample_run Routes.tasks_router
    (sample_request Routes.GET ["overdue"] None) = Routes.Rejected 401 ∧
  Routes.dispatch sample_run Routes.auth_router
    (sample_request Routes.POST ["login"] None) =
  Routes.Handled Routes.login (sample_request Routes.POST ["login"] None) ∧
  Routes.dispatch sample_run Routes.auth_router
    (sample_request Routes.GET ["me"] None) = Routes.Rejected 401.
Proof. repeat split; by vm_compute. Qed.

(* ===================================================================== *)
(** * Part VI. Properties of the rest of the code                        *)
(* ===================================================================== *)

(** ** Colours and icons *)

(** X1.  The look-up of a category, or of a priority, never comes back empty:
    it returns the entry of the table with that value, and for every other
    string the entry of other, respectively of medium; so the colour and the
    icon of any string are those of an entry and reading them cannot throw. *)
Theorem info_lookups_total (s : string) :
  (∃ info, getCategoryInfo s = Some info ∧ info ∈ TASK_CATEGORIES ∧
     value info = (if bool_decide (s ∈ known_categories) then s else "other") ∧
     getCategoryColor s = Some (color info) ∧
     getCategoryIcon s = Some (icon info)) ∧
  (∃ info, getPriorityInfo s = Some info ∧ info ∈ TASK_PRIORITIES ∧
     value info = (if bool_decide (s ∈ known_priorities) then s else "medium") ∧
     getPriorityColor s = Some (color info) ∧
     getPriorityIcon s = Some (icon info)).
Proof.
  split.
  - unfold getCategoryColor, getCategoryIcon.
    destruct (decide (s ∈ known_categories)) as [Hin|Hnin].
    + rewrite bool_decide_eq_true_2 by done.
      unfold known_categories in Hin. cbn in Hin.
      repeat (apply elem_of_cons in Hin as [->|Hin]);
        [..|by apply elem_of_nil in Hin];
        (eexists; split; [vm_compute; reflexivity|];
         split; [cbn; set_solver|done]).
    + rewrite bool_decide_eq_false_2 by done.
      destruct (getCategoryInfo_unknown s Hnin) as [-> _].
      eexists; split; [vm_compute; reflexivity|].
      split; [cbn; set_solver|done].
  - unfold getPriorityColor, getPriorityIcon.
    destruct (decide (s ∈ known_priorities)) as [Hin|Hnin].
    + rewrite bool_decide_eq_true_2 by done.
      unfold known_priorities in Hin. cbn in Hin.
      repeat (apply elem_of_cons in Hin as [->|Hin]);
        [..|by apply elem_of_nil in Hin];
        (eexists; split; [vm_compute; reflexivity|];
         split; [cbn; set_solver|done]).
    + rewrite bool_decide_eq_false_2 by done.
      destruct (getPriorityInfo_unknown s Hnin) as [-> _].
      eexists; split; [vm_compute; reflexivity|].
      split; [cbn; set_solver|done].
Qed.

(** ** Grouping *)

Lemma group_of_snoc (key : Task → string) (k : string) (tasks : list Task)
    (task : Task) :
  group_of key k (tasks ++ [task])%list =
    if String.eqb (key task) k
    then Some (default [] (group_of key k tasks) ++ [task])%list
    else group_of key k tasks.
Proof.
  unfold group_of. rewrite List.filter_app. cbn [List.filter].
  destruct (String.eqb (key task) k).
  - by destruct (List.filter _ tasks).
  - by rewrite app_nil_r.
Qed.

Lemma group_of_ext (key key' : Task → string) (k : string) (tasks : list Task) :
  (∀ task, key task = key' task) →
  group_of key k tasks = group_of key' k tasks.
Proof.
  intros Heq. unfold group_of.
  rewrite (List.filter_ext _ (λ task, String.eqb (key' task) k)); [done|].
  intros task. by rewrite Heq.
Qed.

(** The reduction over keys that are no member of [Object.prototype]
    returns, and what it returns holds under each key the tasks with that
    key, in their order. *)
Lemma group_reduce_groups (key : Task → string) (tasks : list Task) :
  (∀ task, task ∈ tasks → key task ∉ Object_prototype) →
  ∃ groups, group_reduce key tasks = Some groups ∧
            ∀ k, groups !! k = group_of key k tasks.
Proof.
  induction tasks as [|task tasks IH] using rev_ind; intros Hkey.
  - exists ∅. split; [done|]. intros k. by rewrite lookup_empty.
  - destruct IH as (groups & Hred & Hgroups).
    { intros t Ht. apply Hkey. apply elem_of_app. by left. }
    unfold group_reduce in *. rewrite foldl_app. cbn [foldl]. rewrite Hred.
    cbn [mbind option_bind]. unfold group_step.
    assert (Hnot : key task ∉ Object_prototype).
    { apply Hkey. apply elem_of_app. right. by apply list_elem_of_singleton. }
    rewrite (Hgroups (key task)).
    destruct (group_of key (key task) tasks) as [group|] eqn:Hgroup.
    + eexists. split; [done|]. intros k. rewrite group_of_snoc.
      destruct (String.eqb_spec (key task) k) as [<-|Hne].
      * by rewrite lookup_insert_eq, Hgroup.
      * by rewrite lookup_insert_ne.
    + rewrite bool_decide_eq_false_2 by done.
      eexists. split; [done|]. intros k. rewrite group_of_snoc.
      destruct (String.eqb_spec (key task) k) as [<-|Hne].
      * by rewrite lookup_insert_eq, Hgroup.
      * by rewrite lookup_insert_ne.
Qed.

(** A task whose key names a member of [Object.prototype] makes the
    reduction throw when no earlier task has the key. *)
Lemma group_step_inherited (key : Task → string)
    (groups : gmap string (list Task)) (task : Task) :
  key task ∈ Object_prototype → groups !! key task = None →
  group_step key groups task = None.
Proof.
  intros Hin Hnone. unfold group_step. rewrite Hnone.
  by rewrite bool_decide_eq_true_2.
Qed.

Lemma category_value_own (c : Category) :
  str_or (category_value c) "other" = category_value c ∧
  category_value c ∉ Object_prototype.
Proof. destruct c; (split; [done|]); unfold Object_prototype; set_solver. Qed.

Lemma priority_value_own (p : Priority) :
  str_or (priority_value p) "medium" = priority_value p ∧
  priority_value p ∉ Object_prototype.
Proof. destruct p; (split; [done|]); unfold Object_prototype; set_solver. Qed.

(** X2.  Grouping by category, and by priority, returns for every list of
    tasks: the object it returns has under each category (priority) exactly
    the tasks of the list with that category (priority), in the order of the
    list, and has no property for a category (priority) that no task of the
    list has. The fallbacks to other and to medium are never taken. *)
Theorem groupTasks_partition (tasks : list Task) :
  (∃ groups, groupTasksByCategory tasks = Some groups ∧
     ∀ k, groups !! k = group_of (λ task, category_value (category task)) k tasks) ∧
  (∃ groups, groupTasksByPriority tasks = Some groups ∧
     ∀ k, groups !! k = group_of (λ task, priority_value (priority task)) k tasks).
Proof.
  split.
  - destruct (group_reduce_groups
               (λ task, str_or (category_value (category task)) "other") tasks)
      as (groups & Hred & Hgroups).
    { intros task _. rewrite (proj1 (category_value_own _)).
      apply category_value_own. }
    exists groups. split; [done|]. intros k. rewrite Hgroups.
    apply group_of_ext. intros task. apply category_value_own.
  - destruct (group_reduce_groups
               (λ task, str_or (priority_value (priority task)) "medium") tasks)
      as (groups & Hred & Hgroups).
    { intros task _. rewrite (proj1 (priority_value_own _)).
      apply priority_value_own. }
    exists groups. split; [done|]. intros k. rewrite Hgroups.
    apply group_of_ext. intros task. apply priority_value_own.
Qed.

(** ** Validation *)

Lemma append_empty_r (s : string) : s +:+ "" = s.
Proof. induction s as [|c s IH]; [done|]. by rewrite append_cons, IH. Qed.

Lemma regex_test_nil (s : string) : regex_test s [] = true ↔ s = "".
Proof. by destruct s. Qed.

Lemma regex_test_One (class : Ascii.ascii → bool) (rest : list Item) (s : string) :
  regex_test s (One class :: rest) = true ↔
  ∃ c s', s = String c s' ∧ class c = true ∧ regex_test s' rest = true.
Proof.
  destruct s as [|c s]; cbn [regex_test].
  - split; [done|]. by intros (c & s' & ? & _).
  - rewrite andb_true_iff. split.
    + intros [Hc Hs]. by exists c, s.
    + intros (c' & s' & [= -> ->] & Hc & Hs). done.
Qed.

Lemma regex_test_Plus (class : Ascii.ascii → bool) (rest : list Item) (s : string) :
  regex_test s (Plus class :: rest) = true ↔
  ∃ a s', s = a +:+ s' ∧ a ≠ "" ∧ string_forall class a = true ∧
          regex_test s' rest = true.
Proof.
  induction s as [|c s IH]; cbn [regex_test].
  - split; [done|]. intros (a & s' & Heq & Ha & _). by destruct a.
  - rewrite andb_true_iff, orb_true_iff, IH. split.
    + intros [Hc [Hs|(a & s' & -> & Ha & Hall & Hs)]].
      * exists (String c ""), s. cbn. by rewrite Hc.
      * exists (String c a), s'. rewrite append_cons. cbn. by rewrite Hc.
    + intros (a & s' & Heq & Ha & Hall & Hs).
      destruct a as [|c' a]; [done|]. rewrite append_cons in Heq.
      injection Heq as -> ->. cbn in Hall. apply andb_true_iff in Hall as [Hc Hall].
      split; [done|]. destruct a as [|c'' a].
      * left. by rewrite append_nil.
      * right. by exists (String c'' a), s'.
Qed.

(** X3.  An address passes [validateEmail] exactly when it reads local part,
    at sign, domain, full stop, rest, where each of the three parts is not
    empty and holds neither white space nor an at sign. So an accepted address
    has exactly one at sign, and a full stop after it with something on both
    sides. *)
Theorem validateEmail_shape (email : string) :
  validateEmail email = true ↔
  ∃ local domain rest,
    email = local +:+ "@" +:+ domain +:+ "." +:+ rest ∧
    email_part local ∧ email_part domain ∧ email_part rest.
Proof.
  unfold validateEmail, emailRegex, email_part. rewrite regex_test_Plus. split.
  - intros (a & s1 & -> & Ha & Halla & H1).
    apply regex_test_One in H1 as (c1 & s2 & -> & Hc1 & H2).
    apply Ascii.eqb_eq in Hc1 as <-.
    apply regex_test_Plus in H2 as (b & s3 & -> & Hb & Hallb & H3).
    apply regex_test_One in H3 as (c2 & s4 & -> & Hc2 & H4).
    apply Ascii.eqb_eq in Hc2 as <-.
    apply regex_test_Plus in H4 as (c & s5 & -> & Hc & Hallc & H5).
    apply regex_test_nil in H5 as ->. rewrite append_empty_r.
    by exists a, b, c.
  - intros (a & b & c & -> & [Ha Halla] & [Hb Hallb] & [Hc Hallc]).
    exists a, ("@" +:+ b +:+ "." +:+ c). split; [done|]. split; [done|].
    split; [done|]. rewrite append_cons, append_nil. apply regex_test_One.
    eexists _, _. split; [done|]. split; [done|]. apply regex_test_Plus.
    exists b, ("." +:+ c). split; [done|]. split; [done|]. split; [done|].
    rewrite append_cons, append_nil. apply regex_test_One.
    eexists _, _. split; [done|]. split; [done|]. apply regex_test_Plus.
    exists c, "". rewrite append_empty_r. done.
Qed.

Lemma truthy_VStr (s : string) : truthy (VStr s) = true ↔ s ≠ "".
Proof. destruct s; cbn; [split; [done|congruence]|done]. Qed.

Lemma validatePassword_length (password : string) :
  validatePassword password = true ↔ (6 ≤ String.length password)%nat.
Proof.
  unfold validatePassword. rewrite andb_true_iff, truthy_VStr, Z.leb_le.
  split; [lia|]. intros Hlen. split; [|lia]. by destruct password; cbn in *; [lia|].
Qed.

(** X4.  The form of the login page is accepted exactly when the address
    passes [validateEmail] and the password has six characters or more; each
    field has a message exactly when its own condition fails, and an empty
    field gets the message that it is required. *)
Theorem validateForm_accepts (formData : Login.FormData) :
  ((Login.validateForm formData).2 = true ↔
     validateEmail (Login.email formData) = true ∧
     (6 ≤ String.length (Login.password formData))%nat) ∧
  (Login.e_email (Login.validateForm formData).1 = None ↔
     validateEmail (Login.email formData) = true) ∧
  (Login.e_password (Login.validateForm formData).1 = None ↔
     (6 ≤ String.length (Login.password formData))%nat) ∧
  (Login.email formData = "" →
     Login.e_email (Login.validateForm formData).1 = Some "Email is required") ∧
  (Login.password formData = "" →
     Login.e_password (Login.validateForm formData).1 = Some "Password is required").
Proof.
  destruct formData as [email password].
  unfold Login.validateForm, Login.keys_length.
  cbn [Login.email Login.password Login.e_email Login.e_password fst snd].
  rewrite <- validatePassword_length.
  assert (He : truthy (VStr email) = false → validateEmail email = false).
  { intros Ht. destruct email; [done|discriminate]. }
  assert (Hp : truthy (VStr password) = false → validatePassword password = false).
  { intros Ht. destruct password; [done|discriminate]. }
  assert (He' : email = "" → truthy (VStr email) = false) by (by intros ->).
  assert (Hp' : password = "" → truthy (VStr password) = false) by (by intros ->).
  destruct (truthy (VStr email)), (truthy (VStr password)),
    (validateEmail email), (validatePassword password);
    cbn; intuition congruence.
Qed.

(** ** [truncateText] *)

Lemma length_append (s t : string) :
  String.length (s +:+ t) = (String.length s + String.length t)%nat.
Proof. induction s as [|c s IH]; [done|]. rewrite append_cons. cbn. by rewrite IH. Qed.

Lemma length_substring0 (n : nat) (s : string) :
  String.length (String.substring 0 n s) = (n `min` String.length s)%nat.
Proof.
  revert s. induction n as [|n IH]; intros [|c s]; cbn; try done.
  by rewrite IH.
Qed.

Lemma substring0_append (n : nat) (s t : string) :
  (n ≤ String.length s)%nat →
  String.substring 0 n (String.substring 0 n s +:+ t) = String.substring 0 n s.
Proof.
  revert s. induction n as [|n IH]; intros [|c s] Hn; cbn in *; try lia.
  - by destruct t.
  - by destruct (_ +:+ _).
  - rewrite append_cons. cbn. rewrite IH; [done|lia].
Qed.

(** X5.  [truncateText] returns a text at most as long as the limit plus the
    three full stops; a text within the limit comes back as it is, a longer
    one as its first [maxLength] characters and three full stops, which can be
    up to two characters longer than the text was; truncating twice is
    truncating once. *)
Theorem truncateText_facts (s : string) (maxLength : Z) :
  ∃ r, truncateText (Some s) maxLength = Some r ∧
    (Z.of_nat (String.length s) ≤ maxLength → r = s) ∧
    (s ≠ "" → maxLength < Z.of_nat (String.length s) →
       r = substr0 s maxLength +:+ "..." ∧
       Z.of_nat (String.length r) = Z.max 0 maxLength + 3) ∧
    Z.of_nat (String.length r) ≤ Z.of_nat (String.length s) + 2 ∧
    truncateText (Some r) maxLength = Some r.
Proof.
  unfold truncateText.
  destruct (truthy (VStr s)) eqn:Hs; cbn [negb orb].
  - apply truthy_VStr in Hs.
    destruct (Z.leb_spec (Z.of_nat (String.length s)) maxLength) as [Hle|Hlt].
    + exists s. split; [done|]. split; [done|]. split; [lia|]. split; [lia|].
      destruct (truthy (VStr s)); cbn [negb orb]; [|done].
      by rewrite (proj2 (Z.leb_le _ _) Hle).
    + assert (Hlen : Z.of_nat (String.length (substr0 s maxLength +:+ "..."))
                     = Z.max 0 maxLength + 3).
      { rewrite length_append. unfold substr0. rewrite length_substring0. cbn. lia. }
      assert (0 < String.length s)%nat by (destruct s; cbn; [done|lia]).
      eexists. split; [done|]. split; [lia|]. split; [done|]. split; [lia|].
      assert (Ht : truthy (VStr (substr0 s maxLength +:+ "...")) = true).
      { apply truthy_VStr. intros Heq. rewrite Heq in Hlen. cbn in Hlen. lia. }
      rewrite Ht. cbn [negb orb].
      rewrite (proj2 (Z.leb_gt _ _)) by lia.
      unfold substr0. rewrite substring0_append by lia. done.
  - exists s. split; [done|]. split; [done|].
    assert (s = "") as -> by (by destruct s).
    split; [done|]. split; [cbn; lia|]. done.
Qed.

(** ** Relative times *)

Lemma Qfloor_between (y : Q) (k : Z) :
  (inject_Z k <= y)%Q → (y < inject_Z (k + 1))%Q → Qfloor y = k.
Proof.
  intros Hl Hu.
  assert (k ≤ Qfloor y).
  { rewrite <- (Qfloor_Z k). by apply Qfloor_resp_le. }
  assert (Qfloor y < k + 1).
  { rewrite Zlt_Qlt. eapply Qle_lt_trans; [apply Qfloor_le|done]. }
  lia.
Qed.

Lemma Qceiling_between (y : Q) (k : Z) :
  (inject_Z (k - 1) < y)%Q → (y <= inject_Z k)%Q → Qceiling y = k.
Proof.
  intros Hl Hu.
  assert (Qceiling y ≤ k).
  { rewrite <- (Qceiling_Z k). by apply Qceiling_resp_le. }
  assert (k - 1 < Qceiling y).
  { rewrite Zlt_Qlt. eapply Qlt_le_trans; [done|apply Qle_ceiling]. }
  lia.
Qed.

Lemma inject_Z_pos (b : Z) : 0 < b → (0 < inject_Z b)%Q.
Proof. intros Hb. change 0%Q with (inject_Z 0). by rewrite <- Zlt_Qlt. Qed.

Lemma quotient_le (a b k : Z) :
  0 < b → a ≤ k * b → (inject_Z a / inject_Z b <= inject_Z k)%Q.
Proof.
  intros Hb Hle. apply Qle_shift_div_r; [by apply inject_Z_pos|].
  rewrite <- inject_Z_mult, <- Zle_Qle. lia.
Qed.

Lemma quotient_ge (a b k : Z) :
  0 < b → k * b ≤ a → (inject_Z k <= inject_Z a / inject_Z b)%Q.
Proof.
  intros Hb Hle. apply Qle_shift_div_l; [by apply inject_Z_pos|].
  rewrite <- inject_Z_mult, <- Zle_Qle. lia.
Qed.

(** The gap between a quotient of integers and the next integer is at least
    one over the divisor, and the unit roundoff of the quotient is less. *)
Lemma quotient_gap (a b : Z) :
  0 < b → Z.abs a < 2 ^ 53 →
  let x := (inject_Z a / inject_Z b)%Q in
  let ib := (/ inject_Z b)%Q in
  (0 < ib ∧ x * unit_roundoff < ib ∧ - x * unit_roundoff < ib ∧
   x + ib == inject_Z (a + 1) / inject_Z b ∧
   x - ib == inject_Z (a - 1) / inject_Z b)%Q.
Proof.
  intros Hb Ha x ib.
  assert (Hib : (0 < ib)%Q) by (apply Qinv_lt_0_compat; by apply inject_Z_pos).
  assert (Hau : (inject_Z a * unit_roundoff < 1 ∧ - inject_Z a * unit_roundoff < 1)%Q).
  { assert (H1 : (inject_Z a < inject_Z (2 ^ 53))%Q) by (rewrite <- Zlt_Qlt; lia).
    assert (H2 : (inject_Z (- 2 ^ 53) < inject_Z a)%Q) by (rewrite <- Zlt_Qlt; lia).
    revert H1 H2. generalize (inject_Z a). intros q.
    change (inject_Z (2 ^ 53)) with (9007199254740992 # 1).
    change (inject_Z (- 2 ^ 53)) with (- 9007199254740992 # 1).
    unfold unit_roundoff. intros; split; lra. }
  destruct Hau as [Hau1 Hau2].
  split; [done|]. split; [|split; [|split]].
  - assert (E : (x * unit_roundoff == inject_Z a * unit_roundoff * ib)%Q)
      by (unfold x, ib, Qdiv; ring).
    rewrite E. apply (Qmult_lt_compat_r _ _ ib) in Hau1; [|done].
    by rewrite Qmult_1_l in Hau1.
  - assert (E : (- x * unit_roundoff == - inject_Z a * unit_roundoff * ib)%Q)
      by (unfold x, ib, Qdiv; ring).
    rewrite E. apply (Qmult_lt_compat_r _ _ ib) in Hau2; [|done].
    by rewrite Qmult_1_l in Hau2.
  - unfold x, ib, Qdiv. rewrite inject_Z_plus.
    change (inject_Z 1) with 1%Q. ring.
  - unfold x, ib, Qdiv. unfold Z.sub. rewrite inject_Z_plus.
    change (inject_Z (- (1))) with (- (1))%Q. ring.
Qed.

Section TimeFacts.

Variable fl : Q → Q.
Variable toLocaleDateString : Z → string.

Hypothesis fl_rounding : rounding fl.

Lemma fl_proper (x y : Q) : (x == y → fl x == fl y)%Q.
Proof.
  intros Heq. apply Qle_antisym; apply (fl_monotone fl fl_rounding);
    rewrite Heq; apply Qle_refl.
Qed.

Lemma fl_quotient_ge (a b k : Z) :
  0 < b → Z.abs k ≤ 2 ^ 53 → k * b ≤ a →
  (inject_Z k <= fl (inject_Z a / inject_Z b))%Q.
Proof.
  intros Hb Hk Hle. rewrite <- (fl_integer fl fl_rounding k Hk).
  apply (fl_monotone fl fl_rounding). by apply quotient_ge.
Qed.

Lemma fl_quotient_le (a b k : Z) :
  0 < b → Z.abs k ≤ 2 ^ 53 → a ≤ k * b →
  (fl (inject_Z a / inject_Z b) <= inject_Z k)%Q.
Proof.
  intros Hb Hk Hle. rewrite <- (fl_integer fl fl_rounding k Hk).
  apply (fl_monotone fl fl_rounding). by apply quotient_le.
Qed.

Lemma fl_quotient_lt (a b k : Z) :
  0 < b → Z.abs a < 2 ^ 53 → a < k * b →
  (fl (inject_Z a / inject_Z b) < inject_Z k)%Q.
Proof.
  intros Hb Ha Hlt.
  destruct (quotient_gap a b Hb Ha) as (Hib & Hu1 & Hu2 & Hplus & _).
  assert (Hk : (inject_Z (a + 1) / inject_Z b <= inject_Z k)%Q)
    by (apply quotient_le; lia).
  rewrite <- Hplus in Hk. clear Hplus.
  pose proof (fl_relative_pos fl fl_rounding (inject_Z a / inject_Z b)) as Hpos.
  pose proof (fl_relative_neg fl fl_rounding (inject_Z a / inject_Z b)) as Hneg.
  revert Hib Hu1 Hu2 Hk Hpos Hneg.
  generalize (fl (inject_Z a / inject_Z b)). generalize (inject_Z a / inject_Z b)%Q.
  generalize (/ inject_Z b)%Q. generalize (inject_Z k).
  unfold unit_roundoff. clear. intros qk ib x y Hib Hu1 Hu2 Hk Hpos Hneg.
  destruct (Qlt_le_dec x 0) as [Hx|Hx].
  - destruct Hneg as [_ Hneg]; [lra|]. lra.
  - destruct Hpos as [_ Hpos]; [lra|]. lra.
Qed.

Lemma fl_quotient_gt (a b k : Z) :
  0 < b → Z.abs a < 2 ^ 53 → k * b < a →
  (inject_Z k < fl (inject_Z a / inject_Z b))%Q.
Proof.
  intros Hb Ha Hlt.
  destruct (quotient_gap a b Hb Ha) as (Hib & Hu1 & Hu2 & _ & Hminus).
  assert (Hk : (inject_Z k <= inject_Z (a - 1) / inject_Z b)%Q)
    by (apply quotient_ge; lia).
  rewrite <- Hminus in Hk. clear Hminus.
  pose proof (fl_relative_pos fl fl_rounding (inject_Z a / inject_Z b)) as Hpos.
  pose proof (fl_relative_neg fl fl_rounding (inject_Z a / inject_Z b)) as Hneg.
  revert Hib Hu1 Hu2 Hk Hpos Hneg.
  generalize (fl (inject_Z a / inject_Z b)). generalize (inject_Z a / inject_Z b)%Q.
  generalize (/ inject_Z b)%Q. generalize (inject_Z k).
  unfold unit_roundoff. clear. intros qk ib x y Hib Hu1 Hu2 Hk Hpos Hneg.
  destruct (Qlt_le_dec x 0) as [Hx|Hx].
  - destruct Hneg as [Hneg _]; [lra|]. lra.
  - destruct Hpos as [Hpos _]; [lra|]. lra.
Qed.

(** [Math.floor(a / b)] and [Math.ceil(a / b)] on integers below 2^53 are
    the quotient rounded down and rounded up. *)
Lemma floor_quotient (a b : Z) :
  0 < b → Z.abs a < 2 ^ 53 →
  Qfloor (fl (inject_Z a / inject_Z b)) = a / b.
Proof.
  intros Hb Ha.
  pose proof (Z.mul_div_le a b Hb). pose proof (Z.mul_succ_div_gt a b Hb).
  apply Qfloor_between.
  - apply fl_quotient_ge; [done|nia|lia].
  - apply fl_quotient_lt; [done..|lia].
Qed.

Lemma ceil_quotient (a b : Z) :
  0 < b → Z.abs a < 2 ^ 53 →
  Qceiling (fl (inject_Z a / inject_Z b)) = - ((- a) / b).
Proof.
  intros Hb Ha.
  pose proof (Z.mul_div_le (- a) b Hb). pose proof (Z.mul_succ_div_gt (- a) b Hb).
  apply Qceiling_between.
  - apply fl_quotient_gt; [done..|lia].
  - apply fl_quotient_le; [done|nia|lia].
Qed.

Lemma fl_Z_ge (n m : Z) :
  Z.abs m ≤ 2 ^ 53 → m ≤ n → (inject_Z m <= fl (inject_Z n))%Q.
Proof.
  intros Hm Hle. rewrite <- (fl_integer fl fl_rounding m Hm).
  apply (fl_monotone fl fl_rounding). by rewrite <- Zle_Qle.
Qed.

Lemma fl_Z_le (n m : Z) :
  Z.abs m ≤ 2 ^ 53 → n ≤ m → (fl (inject_Z n) <= inject_Z m)%Q.
Proof.
  intros Hm Hle. rewrite <- (fl_integer fl fl_rounding m Hm).
  apply (fl_monotone fl fl_rounding). by rewrite <- Zle_Qle.
Qed.

Lemma floor_fl_quotient (a b : Z) :
  0 < b → Z.abs a < 2 ^ 53 →
  Qfloor (fl (fl (inject_Z a) / inject_Z b)) = a / b.
Proof.
  intros Hb Ha. rewrite <- floor_quotient by done.
  apply Qfloor_comp, fl_proper.
  rewrite (fl_integer fl fl_rounding a) by lia. reflexivity.
Qed.

Lemma ceil_fl_quotient (a b : Z) :
  0 < b → Z.abs a < 2 ^ 53 →
  Qceiling (fl (fl (inject_Z a) / inject_Z b)) = - ((- a) / b).
Proof.
  intros Hb Ha. rewrite <- ceil_quotient by done.
  apply Qceiling_comp, fl_proper.
  rewrite (fl_integer fl fl_rounding a) by lia. reflexivity.
Qed.

Lemma floor_fl_ge (q : Q) (b k : Z) :
  0 < b → Z.abs k ≤ 2 ^ 53 → (inject_Z (k * b) <= q)%Q →
  k ≤ Qfloor (fl (q / inject_Z b)).
Proof.
  intros Hb Hk Hq. rewrite <- (Qfloor_Z k). apply Qfloor_resp_le.
  rewrite <- (fl_integer fl fl_rounding k Hk).
  apply (fl_monotone fl fl_rounding).
  apply Qle_shift_div_l; [by apply inject_Z_pos|].
  by rewrite <- inject_Z_mult.
Qed.

Lemma floor_fl_lt (q : Q) (a b k : Z) :
  0 < b → Z.abs a < 2 ^ 53 → (q <= inject_Z a)%Q → a < k * b →
  Qfloor (fl (q / inject_Z b)) < k.
Proof.
  intros Hb Ha Hq Hlt. rewrite Zlt_Qlt.
  eapply Qle_lt_trans; [apply Qfloor_le|].
  eapply Qle_lt_trans; [|by apply (fl_quotient_lt a b k)].
  apply (fl_monotone fl fl_rounding). unfold Qdiv.
  apply Qmult_le_compat_r; [done|].
  apply Qlt_le_weak, Qinv_lt_0_compat. by apply inject_Z_pos.
Qed.

Lemma formatRelativeTime_just_now (now date : Z) :
  now - date < minute →
  formatRelativeTime fl toLocaleDateString now (Some date) = "Just now".
Proof.
  unfold formatRelativeTime, minute. cbv zeta.
  change (1000 * 60 * 60) with 3600000. change (1000 * 60) with 60000.
  generalize (now - date). intros diff Hm.
  assert (Hq : (fl (inject_Z diff) <= inject_Z 59999)%Q)
    by (apply fl_Z_le; lia).
  pose proof (floor_fl_lt _ 59999 3600000 1 ltac:(lia) ltac:(lia) Hq ltac:(lia)) as H1.
  pose proof (floor_fl_lt _ 59999 60000 1 ltac:(lia) ltac:(lia) Hq ltac:(lia)) as H2.
  apply Z.ltb_lt in H1, H2. by rewrite H1, H2.
Qed.

Lemma getDaysUntilDue_eq (now due : Z) :
  Z.abs (due - now) < 2 ^ 53 →
  getDaysUntilDue fl now (Some due) = Some (- ((now - due) / day)).
Proof.
  intros Hrange. unfold getDaysUntilDue. cbv zeta.
  change (1000 * 60 * 60 * 24) with day.
  rewrite ceil_fl_quotient by (unfold day; lia). do 3 f_equal. lia.
Qed.

(** X6.  With the time [diff] that has passed since the date, in
    milliseconds: [formatRelativeTime] prints Just now below a minute, and
    so for every date in the future; the whole minutes below an hour, the
    whole hours below a day, the whole days below thirty days; from thirty
    days on, the date itself. *)
Theorem formatRelativeTime_buckets (now date : Z) :
  formatRelativeTime fl toLocaleDateString now (Some date) =
    let diff := now - date in
    if diff <? minute then "Just now"
    else if diff <? hour then pretty.pretty (diff / minute) +:+ "m ago"
    else if diff <? day then pretty.pretty (diff / hour) +:+ "h ago"
    else if diff <? 30 * day then pretty.pretty (diff / day) +:+ "d ago"
    else toLocaleDateString date.
Proof.
  cbv zeta. destruct (Z.ltb_spec (now - date) minute) as [Hm|Hm];
    [by apply formatRelativeTime_just_now|].
  revert Hm. unfold formatRelativeTime, formatDate. cbv zeta.
  change (1000 * 60 * 60) with 3600000. change (1000 * 60) with 60000.
  unfold minute, hour, day. generalize (now - date). intros diff Hm.
  destruct (Z.ltb_spec diff 3600000) as [Hh|Hh].
  { rewrite !floor_fl_quotient by lia.
    rewrite (Z.div_small diff 3600000) by lia. cbn [Z.ltb Z.compare].
    assert (1 ≤ diff / 60000) by (apply Z.div_le_lower_bound; lia).
    by rewrite (proj2 (Z.ltb_ge _ _)) by lia. }
  destruct (Z.ltb_spec diff 86400000) as [Hd|Hd].
  { rewrite !floor_fl_quotient by lia.
    assert (1 ≤ diff / 3600000) by (apply Z.div_le_lower_bound; lia).
    assert (diff / 3600000 < 24) by (apply Z.div_lt_upper_bound; lia).
    rewrite (proj2 (Z.ltb_ge (diff / 3600000) 1)) by lia.
    by rewrite (proj2 (Z.ltb_lt (diff / 3600000) 24)) by lia. }
  destruct (Z.ltb_spec diff (30 * 86400000)) as [Hd30|Hd30].
  { rewrite !floor_fl_quotient by lia.
    assert (24 ≤ diff / 3600000) by (apply Z.div_le_lower_bound; lia).
    assert (diff / 3600000 < 720) by (apply Z.div_lt_upper_bound; lia).
    rewrite floor_quotient by lia.
    rewrite Z.div_div by lia. change (3600000 * 24) with 86400000.
    assert (diff / 86400000 < 30) by (apply Z.div_lt_upper_bound; lia).
    rewrite (proj2 (Z.ltb_ge (diff / 3600000) 1)) by lia.
    rewrite (proj2 (Z.ltb_ge (diff / 3600000) 24)) by lia.
    by rewrite (proj2 (Z.ltb_lt (diff / 86400000) 30)) by lia. }
  assert (Hq : (inject_Z (720 * 3600000) <= fl (inject_Z diff))%Q)
    by (apply fl_Z_ge; lia).
  pose proof (floor_fl_ge _ 3600000 720 ltac:(lia) ltac:(lia) Hq) as H1.
  set (diffInHours := Qfloor (fl (fl (inject_Z diff) / inject_Z 3600000))) in *.
  assert (Hq' : (inject_Z (30 * 24) <= inject_Z diffInHours)%Q)
    by (rewrite <- Zle_Qle; lia).
  pose proof (floor_fl_ge _ 24 30 ltac:(lia) ltac:(lia) Hq') as H2.
  rewrite (proj2 (Z.ltb_ge diffInHours 1)) by lia.
  rewrite (proj2 (Z.ltb_ge diffInHours 24)) by lia.
  by rewrite (proj2 (Z.ltb_ge _ 30)) by lia.
Qed.

(** X7.  While the due date and the clock are less than 2^53 milliseconds
    apart, [getDaysUntilDue] is the time left in days, rounded up: it is
    positive exactly when the due date is ahead, so it is zero for a task
    that is overdue by less than a day, and negative only from a whole day
    on. *)
Theorem getDaysUntilDue_ceiling (now due : Z) :
  Z.abs (due - now) < 2 ^ 53 →
  ∃ days, getDaysUntilDue fl now (Some due) = Some days ∧
    (days - 1) * day < due - now ≤ days * day ∧
    (0 < days ↔ now < due) ∧
    (days = 0 ↔ now - day < due ≤ now) ∧
    (isOverdue now (Some due) = true → days ≤ 0).
Proof.
  intros Hrange. rewrite getDaysUntilDue_eq by done. unfold isOverdue.
  eexists. split; [done|].
  unfold day. rewrite Z.ltb_lt.
  pose proof (Z.mul_div_le (now - due) 86400000 ltac:(lia)).
  pose proof (Z.mul_succ_div_gt (now - due) 86400000 ltac:(lia)).
  lia.
Qed.

(** X8.  The text of a card under the due date. A pending task that became
    overdue less than a day ago is marked Overdue and, next to it, Due
    today; a completed task whose due date is ahead, or less than a minute
    back, reads Just now. *)
Theorem due_text_cases (now1 now2 now3 due : Z) (task : Task) :
  dueDate task = Some due →
  (isDone task = false → due < now1 → now1 ≤ now2 → now2 - day < due →
   due_text fl toLocaleDateString now1 now2 now3 task
     = Some ("Overdue", "Due today")) ∧
  (isDone task = true → now3 - minute < due →
   due_text fl toLocaleDateString now1 now2 now3 task
     = Some ("", "Just now")).
Proof.
  intros Hdue. unfold due_text. rewrite Hdue. cbn [from_option truthy].
  split.
  - intros -> H1 H12 H2. unfold day in *.
    rewrite getDaysUntilDue_eq by (unfold day; lia).
    assert ((now2 - due) / day = 0) as ->
      by (apply Z.div_small; unfold day; lia).
    unfold isOverdue. by rewrite (proj2 (Z.ltb_lt due now1)).
  - intros -> H3. cbn [negb]. rewrite !andb_false_r.
    rewrite formatRelativeTime_just_now by lia.
    destruct (getDaysUntilDue fl now2 (Some due)) as [days|];
      [by rewrite andb_false_r|done].
Qed.

End TimeFacts.

Lemma no_rounding_rounding : rounding no_rounding.
Proof.
  split; unfold no_rounding, unit_roundoff; intros; cbv beta;
    [done|reflexivity|split; lra|split; lra].
Qed.

(** The buckets without rounding, two hours and a millisecond after the
    date. *)
Lemma formatRelativeTime_buckets_witness :
  formatRelativeTime no_rounding sample_toLocaleDateString 7200001 (Some 0)
  = "2h ago".
Proof.
  exact (formatRelativeTime_buckets no_rounding sample_toLocaleDateString
           no_rounding_rounding 7200001 0).
Defined.

(** Fifty milliseconds after the due date no day is left. *)
Lemma getDaysUntilDue_ceiling_witness :
  Z.abs (50 - 100) < 2 ^ 53 ∧
  ∃ days, getDaysUntilDue no_rounding 100 (Some 50) = Some days ∧
    (days - 1) * day < 50 - 100 ≤ days * day ∧
    (0 < days ↔ 100 < 50) ∧
    (days = 0 ↔ 100 - day < 50 ≤ 100) ∧
    (isOverdue 100 (Some 50) = true → days ≤ 0).
Proof.
  split; [lia|].
  apply (getDaysUntilDue_ceiling no_rounding no_rounding_rounding 100 50). lia.
Defined.

(** The card of a pending task that was due fifty milliseconds ago. *)
Lemma due_text_cases_witness :
  dueDate task_milk = Some 100 ∧
  due_text no_rounding sample_toLocaleDateString 150 150 150 task_milk
    = Some ("Overdue", "Due today").
Proof.
  split; [reflexivity|].
  apply (proj1 (due_text_cases no_rounding sample_toLocaleDateString
                  no_rounding_rounding 150 150 150 100 task_milk eq_refl));
    [reflexivity|lia|lia|unfold day; lia].
Defined.

(** ** The server: statistics and the queries by category and priority *)

Lemma count_if_length (cond : Server.Task → bool)
    (docs : list (Server.ObjectId * Server.Task)) :
  Server.count_if cond docs =
  Z.of_nat (length (List.filter (λ doc, cond doc.2) docs)).
Proof. done. Qed.

(** X9.  The statistics of [getTasks] count the tasks of the requesting user
    and no other: the total is their number, completed those of them that are
    done; completed and pending add up to the total, and the overdue tasks are
    among the pending ones. *)
Theorem aggregate_stats_invariants (now : Z)
    (db : gmap Server.ObjectId Server.Task) (uid : Server.ObjectId) :
  let stats := Server.aggregate_stats now db uid in
  let own := Server.find db (λ task, bool_decide (Server.userId task = uid)) in
  Server.g_total stats = Z.of_nat (length own) ∧
  Server.g_completed stats =
    Z.of_nat (length (List.filter (λ doc, Server.isDone doc.2) own)) ∧
  Server.g_completed stats + Server.g_pending stats = Server.g_total stats ∧
  0 ≤ Server.g_overdue stats ≤ Server.g_pending stats.
Proof.
  cbn zeta. unfold Server.aggregate_stats.
  generalize (Server.find db (λ task, bool_decide (Server.userId task = uid))).
  intros own.
  assert (Hcompleted :
    List.filter (λ doc : Server.ObjectId * Server.Task,
                   bool_decide (Server.isDone doc.2 = true)) own
    = List.filter (λ doc, Server.isDone doc.2) own).
  { apply List.filter_ext. intros [oid task]. cbn. by destruct (Server.isDone task). }
  assert (Hpending :
    List.filter (λ doc : Server.ObjectId * Server.Task,
                   bool_decide (Server.isDone doc.2 = false)) own
    = List.filter (λ doc, negb (Server.isDone doc.2)) own).
  { apply List.filter_ext. intros [oid task]. cbn. by destruct (Server.isDone task). }
  pose proof (length_filter_split
    (λ doc : Server.ObjectId * Server.Task, Server.isDone doc.2) own) as Hsplit.
  pose proof (length_filter_le
    (λ doc : Server.ObjectId * Server.Task,
       bool_decide (Server.isDone doc.2 = false) &&
       Server.expr_lt (Server.dueDate doc.2) now &&
       negb (bool_decide (Server.dueDate doc.2 = None)))
    (λ doc, bool_decide (Server.isDone doc.2 = false)) own) as Hle.
  cbv beta in Hsplit, Hle.
  assert (Hov := Hle ltac:(intros x Hx; by apply andb_true_iff in Hx as [[??]%andb_true_iff _])).
  clear Hle.
  destruct own as [|doc own']; [done|].
  set (own := doc :: own') in *. clearbody own.
  cbn [Server.g_total Server.g_completed Server.g_pending Server.g_overdue].
  rewrite !count_if_length. cbv beta.
  rewrite Hcompleted, Hpending in *.
  assert (Htotal : List.filter (λ _ : Server.ObjectId * Server.Task, true) own = own).
  { clear. induction own as [|x l IH]; [done|]. cbn. by rewrite IH. }
  rewrite Htotal.
  split; [done|]. split; [done|]. split; lia.
Qed.

#[global] Instance newest_first_trans : Transitive newest_first.
Proof. unfold newest_first. intros a b c. lia. Qed.

Lemma compare_createdAt_after (a b : Server.ObjectId * Server.Task) :
  0 < Server.compare_createdAt_desc a b → newest_first b a.
Proof.
  unfold Server.compare_createdAt_desc, newest_first.
  repeat case_match; lia.
Qed.

Lemma compare_createdAt_before (a b : Server.ObjectId * Server.Task) :
  Server.compare_createdAt_desc a b ≤ 0 → newest_first a b.
Proof.
  unfold Server.compare_createdAt_desc, newest_first.
  repeat case_match; lia.
Qed.

Lemma category_value_known (c : Category) : category_value c ∈ known_categories.
Proof. destruct c; unfold known_categories; cbn; set_solver. Qed.

Lemma priority_value_known (p : Priority) : priority_value p ∈ known_priorities.
Proof. destruct p; unfold known_priorities; cbn; set_solver. Qed.

(** X10.  [getTasksByCategory] always answers 200 and leaves the collection as
    it is; its list holds exactly the tasks of the requesting user whose
    category is the one asked for, each once, newest first, with their number
    as the count; for a string that is no category the list is empty.
    [findByPriority] returns in the same way the pending tasks of the user
    with the given priority. *)
Theorem tasks_by_category_and_priority
    (db : gmap Server.ObjectId Server.Task) (req : Server.Request) (key : string) :
  let uid := Server.user_id req in
  let out := Server.getTasksByCategory key req db in
  let tasks := Server.c_tasks out.1.2 in
  let pending := Server.findByPriority db uid key in
  out.1.1 = 200 ∧ out.2 = db ∧
  Server.c_category out.1.2 = key ∧
  Server.c_count out.1.2 = Z.of_nat (length tasks) ∧
  (∀ oid task,
     (oid, task) ∈ tasks ↔
     db !! oid = Some task ∧ Server.userId task = uid ∧
     category_value (Server.category task) = key) ∧
  NoDup tasks ∧ StronglySorted newest_first tasks ∧
  (key ∉ known_categories → tasks = []) ∧
  (∀ oid task,
     (oid, task) ∈ pending ↔
     db !! oid = Some task ∧ Server.userId task = uid ∧
     priority_value (Server.priority task) = key ∧ Server.isDone task = false) ∧
  NoDup pending ∧ StronglySorted newest_first pending.
Proof.
  cbn zeta. unfold Server.getTasksByCategory. cbn [fst snd Server.c_tasks
    Server.c_category Server.c_count].
  unfold Server.findByCategory, Server.findByPriority.
  assert (Hcat : ∀ oid task,
    (oid, task) ∈ Array_sort Server.compare_createdAt_desc
      (Server.find db (λ task,
         bool_decide (Server.userId task = Server.user_id req) &&
         String.eqb (category_value (Server.category task)) key)) ↔
    db !! oid = Some task ∧ Server.userId task = Server.user_id req ∧
    category_value (Server.category task) = key).
  { intros oid task. rewrite Array_sort_perm, elem_of_find.
    rewrite andb_true_iff, bool_decide_eq_true, String.eqb_eq. tauto. }
  split; [done|]. split; [done|]. split; [done|]. split; [done|].
  split; [done|]. split; [|split; [|split; [|split; [|split]]]].
  - rewrite Array_sort_perm. apply NoDup_find.
  - apply (Array_sort_sorted _ newest_first);
      [apply compare_createdAt_after|apply compare_createdAt_before].
  - intros Hkey.
    destruct (Array_sort _ _) as [|[oid task] rest]; [done|].
    exfalso. apply Hkey.
    destruct (proj1 (Hcat oid task)) as (_ & _ & <-); [left|].
    apply category_value_known.
  - intros oid task. rewrite Array_sort_perm, elem_of_find.
    rewrite !andb_true_iff, !bool_decide_eq_true, String.eqb_eq. tauto.
  - rewrite Array_sort_perm. apply NoDup_find.
  - apply (Array_sort_sorted _ newest_first);
      [apply compare_createdAt_after|apply compare_createdAt_before].
Qed.

(** ** The server: what the handlers store *)

Section HandlerFacts.

Variable castObjectId : string → option Server.ObjectId.
Variable trim : string → string.

Lemma on_error_status (c v : bool) (m : string) (e : Server.Error) :
  Server.status (Server.on_error c v m e) = 400 ∨
  Server.status (Server.on_error c v m e) = 500.
Proof. destruct e, c, v; cbn; auto. Qed.

Lemma findOne_inv db (id : string) (uid oid : Server.ObjectId) task :
  Server.findOne castObjectId db id uid = inr (Some (oid, task)) →
  castObjectId id = Some oid ∧ db !! oid = Some task ∧ Server.userId task = uid.
Proof.
  unfold Server.findOne. destruct (castObjectId id) as [oid'|]; [|done].
  destruct (db !! oid') as [task'|] eqn:E; [|done].
  destruct (decide _); [|done]. by intros [= <- <-].
Qed.

Lemma findOne_found db (id : string) (uid oid : Server.ObjectId) task :
  castObjectId id = Some oid → db !! oid = Some task → Server.userId task = uid →
  Server.findOne castObjectId db id uid = inr (Some (oid, task)).
Proof.
  intros Hc Hdb Hu. unfold Server.findOne. rewrite Hc, Hdb.
  by rewrite decide_True.
Qed.

Lemma findOne_missing db (id : string) (uid oid : Server.ObjectId) :
  castObjectId id = Some oid →
  (∀ task, db !! oid = Some task → Server.userId task ≠ uid) →
  Server.findOne castObjectId db id uid = inr None.
Proof.
  intros Hc Hno. unfold Server.findOne. rewrite Hc.
  destruct (db !! oid) as [task|] eqn:E; [|done].
  rewrite decide_False; [done|]. by apply Hno.
Qed.

(** *** [createTask] *)

Lemma createTask_inv env req db :
  Server.status (Server.createTask trim env req db).1 = 201 →
  db !! Server.new_id env = None ∧
  ∃ saved,
    Server.createTask trim env req db =
      ({| Server.status := 201;
          Server.json := Server.JMessageTask "Task created successfully"
                           (Server.new_id env) saved |},
       <[Server.new_id env := saved]> db) ∧
    Server.userId saved = Server.user_id req ∧
    Server.isDone saved = false ∧ Server.completedAt saved = None ∧
    Server.subTasks saved = [] ∧
    Server.createdAt saved = Server.now env ∧
    Server.updatedAt saved = Server.now env ∧
    Server.title saved ≠ "" ∧
    (String.length (Server.title saved) ≤ 200)%nat ∧
    (∀ due, Server.dueDate saved = Some due → Server.now env < due).
Proof.
  unfold Server.createTask. cbv zeta.
  destruct (Server.blank trim _); [done|].
  destruct (Server.b_category (Server.body req)) as [category_|]; [|done].
  destruct category_ as [|c cs]; [done|].
  match goal with
  | |- context [Server.validate _ _ ?t] => set (task := t)
  end.
  destruct (Server.validate (Server.now env) _ task) eqn:Hv.
  2:{ cbn. intros; discriminate. }
  apply validate_nil in Hv as [_ Hp].
  destruct (Server.save (Server.now env) None task) as [e|saved] eqn:Hs.
  { intros Hst. cbn [fst] in Hst.
    destruct (on_error_status false true "Server error creating task" e); lia. }
  destruct (db !! Server.new_id env) eqn:Hdb; [cbn; intros; discriminate|].
  intros _. split; [done|]. exists saved. split; [done|].
  pose proof Hp as (Ht & Hlen & _ & Hdue & _).
  unfold Server.save in Hs.
  rewrite (proj2 (validate_nil _ [] task)) in Hs by done. injection Hs as <-.
  cbn. done.
Qed.

(** X11.  A task is stored by [createTask] only with the answer 201, under
    the identifier that was free, and then belongs to the requester, is
    pending whatever the body says, has no completion date and no subtask,
    carries the time of the request as both time stamps, has a title of 1 to
    200 characters, and a due date, if any, that lies ahead. Every other
    answer is 400 or 500. *)
Theorem createTask_effects env req db :
  let out := Server.createTask trim env req db in
  (Server.status out.1 = 201 ∨ Server.status out.1 = 400 ∨
   Server.status out.1 = 500) ∧
  (Server.status out.1 = 201 →
   db !! Server.new_id env = None ∧
   ∃ saved,
     out.2 = <[Server.new_id env := saved]> db ∧
     returned out.1 = [saved] ∧
     Server.userId saved = Server.user_id req ∧
     Server.isDone saved = false ∧ Server.completedAt saved = None ∧
     Server.subTasks saved = [] ∧
     Server.createdAt saved = Server.now env ∧
     Server.updatedAt saved = Server.now env ∧
     Server.title saved ≠ "" ∧
     (String.length (Server.title saved) ≤ 200)%nat ∧
     (∀ due, Server.dueDate saved = Some due → Server.now env < due)).
Proof.
  cbn zeta. split.
  - unfold Server.createTask. cbv zeta.
    destruct (Server.blank trim _); [cbn; auto|].
    destruct (Server.b_category (Server.body req)) as [[|c cs]|]; [cbn; auto| |cbn; auto].
    destruct (Server.validate _ _ _).
    + destruct (Server.save _ _ _) as [e|saved].
      * right. apply on_error_status.
      * destruct (db !! _); cbn; auto.
    + cbn. auto.
  - intros Hst. destruct (createTask_inv env req db Hst) as (Hfree & saved & Hout & H).
    split; [done|]. exists saved. rewrite Hout. cbn. done.
Qed.

(** X12.  What [createTask] answered with 201 can be read back: [getTask]
    with the new identifier returns to the same user the task that was
    stored, and to any other user the answer that there is no such task. *)
Theorem create_then_get env req db env' req' :
  castObjectId (Server.new_id env) = Some (Server.new_id env) →
  Server.status (Server.createTask trim env req db).1 = 201 →
  Server.params_id req' = Server.new_id env →
  let created := Server.createTask trim env req db in
  let got := Server.getTask castObjectId env' req' created.2 in
  got.2 = created.2 ∧
  (Server.user_id req' = Server.user_id req →
   Server.status got.1 = 200 ∧ returned got.1 = returned created.1) ∧
  (Server.user_id req' ≠ Server.user_id req → got.1 = Server.not_found).
Proof.
  intros Hcast Hst Hid. cbn zeta.
  destruct (createTask_inv env req db Hst) as (Hfree & saved & -> & Huser & _).
  cbn [fst snd]. unfold Server.getTask. rewrite Hid.
  destruct (decide (Server.user_id req' = Server.user_id req)) as [Heq|Hne].
  - rewrite (findOne_found _ _ _ (Server.new_id env) saved);
      [|done|by rewrite lookup_insert_eq|congruence].
    cbn. split; [done|]. split; [done|]. intros Hne. done.
  - rewrite (findOne_missing _ _ _ (Server.new_id env)); [|done|].
    + cbn. split; [done|]. split; [done|done].
    + intros task. rewrite lookup_insert_eq. intros [= <-]. congruence.
Qed.

(** *** [deleteTask] *)

(** X13.  [deleteTask] answers 200 exactly when the identifier is that of a
    task of the requester; the collection then is the old one without that
    task, and asking again for the task, or to delete it, is answered with
    not found. *)
Theorem deleteTask_removes env req db :
  let out := Server.deleteTask castObjectId env req db in
  (Server.status out.1 = 200 ↔
   ∃ oid task, castObjectId (Server.params_id req) = Some oid ∧
               db !! oid = Some task ∧ Server.userId task = Server.user_id req) ∧
  (Server.status out.1 = 200 →
   ∃ oid, castObjectId (Server.params_id req) = Some oid ∧
          out.2 = delete oid db ∧
          ∀ env' req', Server.params_id req' = Server.params_id req →
            Server.getTask castObjectId env' req' out.2 = (Server.not_found, out.2) ∧
            Server.deleteTask castObjectId env' req' out.2 = (Server.not_found, out.2)).
Proof.
  intros out.
  assert (Hout : out =
    match Server.findOne castObjectId db (Server.params_id req) (Server.user_id req) with
    | inl e => (Server.on_error true false "Server error deleting task" e, db)
    | inr None => (Server.not_found, db)
    | inr (Some (oid, task)) =>
        ({| Server.status := 200;
            Server.json := Server.JMessage "Task deleted successfully" |},
         delete oid db)
    end).
  { unfold out, Server.deleteTask, Server.findOneAndDelete.
    by destruct (Server.findOne _ _ _ _) as [e|[[oid task]|]]. }
  clearbody out.
  destruct (Server.findOne castObjectId db (Server.params_id req) (Server.user_id req))
    as [e|[[oid task]|]] eqn:Hf; subst out.
  - cbn [fst snd]. split.
    + split.
      * intros Hst. destruct e; cbn in Hst; lia.
      * intros (oid & task & Hc & Hdb & Hu).
        rewrite (findOne_found _ _ _ oid task) in Hf by done. done.
    + intros Hst. destruct e; cbn in Hst; lia.
  - apply findOne_inv in Hf as (Hc & Hdb & Hu). cbn [fst snd]. split.
    + split; [|done]. intros _. by exists oid, task.
    + intros _. exists oid. split; [done|]. split; [done|].
      intros env' req' Hid.
      assert (Hgone : Server.findOne castObjectId (delete oid db)
                        (Server.params_id req') (Server.user_id req') = inr None).
      { apply (findOne_missing _ _ _ oid); [congruence|].
        intros t. by rewrite lookup_delete_eq. }
      unfold Server.getTask, Server.deleteTask, Server.findOneAndDelete.
      by rewrite Hgone.
  - cbn [fst snd]. split.
    + split; [done|].
      intros (oid & task & Hc & Hdb & Hu).
      rewrite (findOne_found _ _ _ oid task) in Hf by done. done.
    + done.
Qed.

(** *** Requests that fail *)

(** X14.  No handler stores anything unless it answers with a 2xx status:
    with every other answer the collection is as it was. The two readers
    leave it as it was in every case. *)
Theorem failed_requests_store_nothing :
  Forall (λ handler : Server.Env → Server.Request →
                      gmap Server.ObjectId Server.Task →
                      Server.Response * gmap Server.ObjectId Server.Task,
            ∀ env req db,
              Server.status (handler env req db).1 < 200 ∨
              300 ≤ Server.status (handler env req db).1 →
              (handler env req db).2 = db)
    [ Server.createTask trim; Server.updateTask castObjectId trim;
      Server.deleteTask castObjectId; Server.toggleTask castObjectId;
      Server.addSubTask castObjectId trim ] ∧
  (∀ env req db, (Server.getTask castObjectId env req db).2 = db) ∧
  (∀ env req db, (Server.getOverdueTasks env req db).2 = db).
Proof.
  split; [|split].
  - repeat apply Forall_cons_2; [..|apply Forall_nil_2]; intros env req db.
    + unfold Server.createTask. cbv zeta. repeat case_match; cbn; (done || lia).
    + unfold Server.updateTask. cbv zeta. repeat case_match; cbn; (done || lia).
    + unfold Server.deleteTask, Server.findOneAndDelete.
      repeat case_match; simplify_eq; cbn; (done || lia).
    + unfold Server.toggleTask. repeat case_match; cbn; (done || lia).
    + unfold Server.addSubTask. repeat case_match; cbn; (done || lia).
  - intros env req db. unfold Server.getTask. by repeat case_match.
  - done.
Qed.

(** *** [updateTask] *)

Lemma assign_fields_keeps (b : Server.Body) (task : Server.Task) :
  let task' := (Server.assign_fields trim b task).1 in
  Server.userId task' = Server.userId task ∧
  Server.completedAt task' = Server.completedAt task ∧
  Server.subTasks task' = Server.subTasks task ∧
  Server.createdAt task' = Server.createdAt task ∧
  Server.updatedAt task' = Server.updatedAt task ∧
  (Server.b_title b = None → Server.title task' = Server.title task) ∧
  (Server.b_description b = None →
   Server.description task' = Server.description task) ∧
  (Server.b_category b = None → Server.category task' = Server.category task) ∧
  (Server.b_priority b = None → Server.priority task' = Server.priority task) ∧
  (Server.b_isDone b = None → Server.isDone task' = Server.isDone task) ∧
  (Server.b_dueDate b = None → Server.dueDate task' = Server.dueDate task) ∧
  (Server.b_tags b = None → Server.tags task' = Server.tags task).
Proof.
  destruct b as [bt bd bc bp bi bdue btags]. unfold Server.assign_fields.
  cbn [Server.b_title Server.b_description Server.b_category Server.b_priority
       Server.b_isDone Server.b_dueDate Server.b_tags].
  destruct bt, bd, bc as [c|], bp as [p|], bi, bdue, btags;
    try destruct (Server.parse_category c); try destruct (Server.parse_priority p);
    cbn; repeat split; done.
Qed.

Lemma assign_fields_no_body (task : Server.Task) :
  Server.assign_fields trim no_body task = (task, []).
Proof. by destruct task. Qed.

(** X15.  An update that is answered 200 has replaced one task of the
    requester by the saved one, which keeps the owner, the creation time and
    the subtasks, keeps every field that the body does not name, and has the
    old time of update or the time of the request. An update with an empty
    body of a task of the requester that passes the validators at the time
    of the request is answered 200 and leaves the collection exactly as it
    was, time of update included. An update of a task of the requester whose
    due date is reached, with a body that names no due date, is answered
    400 with the message of the due date, and nothing is stored. *)
Theorem updateTask_keeps env req db :
  let out := Server.updateTask castObjectId trim env req db in
  let b := Server.body req in
  (Server.status out.1 = 200 →
   ∃ oid orig saved,
     castObjectId (Server.params_id req) = Some oid ∧
     db !! oid = Some orig ∧ Server.userId orig = Server.user_id req ∧
     out.2 = <[oid := saved]> db ∧ returned out.1 = [saved] ∧
     Server.userId saved = Server.userId orig ∧
     Server.createdAt saved = Server.createdAt orig ∧
     Server.subTasks saved = Server.subTasks orig ∧
     (Server.updatedAt saved = Server.updatedAt orig ∨
      Server.updatedAt saved = Server.now env) ∧
     (Server.b_title b = None → Server.title saved = Server.title orig) ∧
     (Server.b_description b = None →
      Server.description saved = Server.description orig) ∧
     (Server.b_category b = None → Server.category saved = Server.category orig) ∧
     (Server.b_priority b = None → Server.priority saved = Server.priority orig) ∧
     (Server.b_isDone b = None → Server.isDone saved = Server.isDone orig) ∧
     (Server.b_dueDate b = None → Server.dueDate saved = Server.dueDate orig) ∧
     (Server.b_tags b = None → Server.tags saved = Server.tags orig)) ∧
  (∀ oid orig,
     castObjectId (Server.params_id req) = Some oid →
     db !! oid = Some orig → Server.userId orig = Server.user_id req →
     passes_validation (Server.now env) orig → b = no_body →
     out = ({| Server.status := 200;
               Server.json :=
                 Server.JMessageTask "Task updated successfully" oid orig |},
            db)) ∧
  (∀ oid orig due,
     castObjectId (Server.params_id req) = Some oid →
     db !! oid = Some orig → Server.userId orig = Server.user_id req →
     Server.dueDate orig = Some due → due ≤ Server.now env →
     Server.b_dueDate b = None →
     ∃ messages,
       "Due date must be in the future" ∈ messages ∧
       out = ({| Server.status := 400;
                 Server.json := Server.JErrors "Validation error" messages |},
              db)).
Proof.
  cbn zeta. split; [|split].
  - unfold Server.updateTask. cbv zeta.
    destruct (Server.findOne castObjectId db (Server.params_id req)
                (Server.user_id req)) as [e|[[oid orig]|]] eqn:Hf.
    + intros Hst. cbn [fst] in Hst.
      destruct (on_error_status true true "Server error updating task" e); lia.
    + apply findOne_inv in Hf as (Hc & Hdb & Hu).
      pose proof (assign_fields_keeps (Server.body req) orig) as Hkeep.
      cbn zeta in Hkeep.
      destruct (Server.assign_fields trim (Server.body req) orig)
        as [task enum_errors].
      cbn [fst] in Hkeep.
      destruct (Server.validate _ _ _); [|cbn; intros; discriminate].
      destruct (Server.save (Server.now env) (Some orig) task)
        as [e|saved] eqn:Hs.
      { intros Hst. cbn [fst] in Hst.
        destruct (on_error_status true true "Server error updating task" e); lia. }
      intros _. exists oid, orig, saved.
      apply save_fields in Hs.
      destruct Hs as (Su & St & Sd & Sc & Si & Sp & Sdue & Stags & Ssub & Scr & Supd).
      destruct Hkeep as (Au & _ & Asub & Acr & Aupd & At & Ad & Ac & Ap & Ai & Adue & Atags).
      cbn [fst snd]. unfold returned. cbn [Server.json].
      split; [done|]. split; [done|]. split; [done|]. split; [done|].
      split; [done|]. split; [congruence|]. split; [congruence|].
      split; [congruence|].
      split; [destruct Supd as [->| ->]; [left; congruence|by right]|].
      split; [intros Hb; rewrite St; auto|].
      split; [intros Hb; rewrite Sd; auto|].
      split; [intros Hb; rewrite Sc; auto|].
      split; [intros Hb; rewrite Sp; auto|].
      split; [intros Hb; rewrite Si; auto|].
      split; [intros Hb; rewrite Sdue; auto|].
      intros Hb; rewrite Stags; auto.
    + cbn. intros; discriminate.
  - intros oid orig Hc Hdb Hu Hp Hb. unfold Server.updateTask. cbv zeta.
    rewrite (findOne_found _ _ _ oid orig) by done.
    rewrite Hb, assign_fields_no_body.
    rewrite (proj2 (validate_nil _ [] orig)) by done.
    rewrite save_unchanged by done.
    by rewrite insert_id.
  - intros oid orig due Hc Hdb Hu Hdue Hle Hb. unfold Server.updateTask. cbv zeta.
    rewrite (findOne_found _ _ _ oid orig) by done.
    pose proof (assign_fields_keeps (Server.body req) orig) as Hkeep.
    cbn zeta in Hkeep.
    destruct (Server.assign_fields trim (Server.body req) orig)
      as [task enum_errors].
    cbn [fst] in Hkeep.
    destruct Hkeep as (_ & _ & _ & _ & _ & _ & _ & _ & _ & _ & Adue & _).
    pose proof (validate_due (Server.now env) due enum_errors task) as Hin.
    rewrite Adue in Hin by done. specialize (Hin Hdue Hle).
    destruct (Server.validate (Server.now env) enum_errors task) as [|m ms];
      [by apply elem_of_nil in Hin|].
    by exists (m :: ms).
Qed.

(** *** [addSubTask] *)

(** X16.  For a task of the requester and a title in the body that is not
    blank: when the task passes the validators at the time of the request
    and the trimmed title has at most 100 characters, [addSubTask] answers
    201 and stores the task with exactly one more subtask at the end, of
    that title, not done and created at the time of the request, the time of
    update set to that time and nothing else changed; when the title is
    longer, or when the task does not pass the validators, as one whose due
    date is reached, the answer is 500, not 400, and nothing is stored. *)
Theorem addSubTask_appends env req db oid orig title_ :
  Server.b_title (Server.body req) = Some title_ →
  Server.blank trim (Some title_) = false →
  castObjectId (Server.params_id req) = Some oid →
  db !! oid = Some orig → Server.userId orig = Server.user_id req →
  trim (trim title_) ≠ "" →
  let out := Server.addSubTask castObjectId trim env req db in
  let subTask :=
    {| Server.st_title := trim (trim title_); Server.st_isDone := false;
       Server.st_createdAt := Server.now env |} in
  let saved :=
    Server.set_updatedAt (Server.now env)
      (Server.set_subTasks (Server.subTasks orig ++ [subTask])%list orig) in
  let failed :=
    ({| Server.status := 500;
        Server.json := Server.JMessage "Server error adding subtask" |}, db) in
  (passes_validation (Server.now env) orig →
   (String.length (trim (trim title_)) ≤ 100)%nat →
   out = ({| Server.status := 201;
             Server.json :=
               Server.JMessageTask "Subtask added successfully" oid saved |},
          <[oid := saved]> db)) ∧
  ((100 < String.length (trim (trim title_)))%nat → out = failed) ∧
  (¬ passes_validation (Server.now env) orig → out = failed) ∧
  (∀ due, Server.dueDate orig = Some due → due ≤ Server.now env → out = failed).
Proof.
  intros Hb Hblank Hc Hdb Hu Htrim. cbn zeta.
  unfold Server.addSubTask. rewrite Hb, Hblank.
  rewrite (findOne_found _ _ _ oid orig) by done.
  cbn [default from_option id]. unfold Server.addSubTask_method.
  set (subTask := {| Server.st_title := trim (trim title_);
                     Server.st_isDone := false;
                     Server.st_createdAt := Server.now env |}).
  set (doc := Server.set_subTasks (Server.subTasks orig ++ [subTask])%list orig).
  assert (Hne : doc ≠ orig).
  { intros Heq. apply (f_equal Server.subTasks) in Heq. cbn in Heq.
    apply (f_equal length) in Heq. rewrite length_app in Heq. cbn in Heq. lia. }
  assert (Hdoc : passes_validation (Server.now env) doc ↔
                 passes_validation (Server.now env) orig ∧
                 (String.length (trim (trim title_)) ≤ 100)%nat).
  { unfold passes_validation, doc. cbn. rewrite Forall_app, Forall_singleton.
    unfold valid_subTask at 2. cbn. tauto. }
  assert (Hfail : ¬ passes_validation (Server.now env) doc →
    match Server.save (Server.now env) (Some orig) doc with
    | inl e => (Server.on_error true false "Server error adding subtask" e, db)
    | inr saved =>
        ({| Server.status := 201;
            Server.json :=
              Server.JMessageTask "Subtask added successfully" oid saved |},
         <[oid := saved]> db)
    end =
    ({| Server.status := 500;
        Server.json := Server.JMessage "Server error adding subtask" |}, db)).
  { intros Hp. by destruct (save_fails (Server.now env) (Some orig) doc Hp)
      as (messages & ->). }
  split; [|split; [|split]].
  - intros Hp Hlen. unfold Server.save.
    rewrite (proj2 (validate_nil _ [] doc)) by (split; [done|]; by apply Hdoc).
    unfold Server.isModified. rewrite bool_decide_eq_false_2 by (cbn; auto).
    unfold Server.pre_save, Server.timestamps.
    by rewrite decide_False.
  - intros Hlen. apply Hfail. rewrite Hdoc. lia.
  - intros Hp. apply Hfail. rewrite Hdoc. tauto.
  - intros due Hdue Hle. apply Hfail. rewrite Hdoc.
    intros [Hp _]. by apply (passes_validation_due _ _ _ Hdue Hle).
Qed.

End HandlerFacts.

(** A task that alice creates in the sample collection, read back by her. *)
Lemma create_then_get_witness :
  let created :=
    Server.createTask ascii_trim sample_env create_request sample_collection in
  let got :=
    Server.getTask hex24 sample_env (request (Server.new_id sample_env) alice)
      created.2 in
  got.2 = created.2 ∧
  (alice = Server.user_id create_request →
   Server.status got.1 = 200 ∧ returned got.1 = returned created.1) ∧
  (alice ≠ Server.user_id create_request → got.1 = Server.not_found).
Proof.
  apply (create_then_get hex24 ascii_trim sample_env create_request
           sample_collection sample_env
           (request (Server.new_id sample_env) alice));
    vm_compute; reflexivity.
Defined.

(** A subtask added by alice to her plan before the plan is due. *)
Lemma addSubTask_appends_witness :
  Server.status
    (Server.addSubTask hex24 ascii_trim early_env subtask_request
       sample_collection).1 = 201 ∧
  Server.status
    (Server.addSubTask hex24 ascii_trim sample_env subtask_request
       sample_collection).1 = 500.
Proof.
  split.
  - pose proof (addSubTask_appends hex24 ascii_trim early_env subtask_request
                  sample_collection id_plan
                  (sample_doc alice "plan" false (Some 50) None) "book a room"
                  eq_refl eq_refl eq_refl eq_refl eq_refl
                  ltac:(discriminate)) as [H _].
    rewrite H; [reflexivity| |vm_compute; lia].
    apply (proj1 (validate_nil 40 [] _)). reflexivity.
  - pose proof (addSubTask_appends hex24 ascii_trim sample_env subtask_request
                  sample_collection id_plan
                  (sample_doc alice "plan" false (Some 50) None) "book a room"
                  eq_refl eq_refl eq_refl eq_refl eq_refl
                  ltac:(discriminate)) as (_ & _ & _ & H).
    rewrite (H 50); [reflexivity|reflexivity|].
    vm_compute. discriminate.
Defined.

(** ** Percentages *)

Section RateFacts.

Variable fl : Q → Q.

Hypothesis fl_rounding : rounding fl.

Lemma rate_all (n : Z) :
  0 < n →
  Math_round (fl (fl (inject_Z n / inject_Z n) * 100))%Q = 100.
Proof.
  intros Hn. unfold Math_round.
  assert (H1 : (fl (inject_Z n / inject_Z n) == 1)%Q).
  { transitivity (fl (inject_Z 1)); [|apply (fl_integer fl fl_rounding); lia].
    apply (fl_proper fl fl_rounding). change (inject_Z 1) with 1%Q. field.
    intros Hz. apply inject_Z_pos in Hn. rewrite Hz in Hn.
    by apply Qlt_irrefl in Hn. }
  assert (H2 : (fl (fl (inject_Z n / inject_Z n) * 100) == 100)%Q).
  { transitivity (fl (inject_Z 100)); [|apply (fl_integer fl fl_rounding); lia].
    apply (fl_proper fl fl_rounding). rewrite H1. done. }
  rewrite H2. reflexivity.
Qed.

Lemma rate_none (n : Z) :
  0 < n →
  Math_round (fl (fl (inject_Z 0 / inject_Z n) * 100))%Q = 0.
Proof.
  intros Hn. unfold Math_round.
  assert (H1 : (fl (inject_Z 0 / inject_Z n) == 0)%Q).
  { transitivity (fl (inject_Z 0)); [|apply (fl_integer fl fl_rounding); lia].
    apply (fl_proper fl fl_rounding). change (inject_Z 0) with 0%Q.
    unfold Qdiv. apply Qmult_0_l. }
  assert (H2 : (fl (fl (inject_Z 0 / inject_Z n) * 100) == 0)%Q).
  { transitivity (fl (inject_Z 0)); [|apply (fl_integer fl fl_rounding); lia].
    apply (fl_proper fl fl_rounding). rewrite H1. done. }
  rewrite H2. reflexivity.
Qed.

Lemma filter_all {A} (p : A → bool) (l : list A) :
  Forall (λ x, p x = true) l → List.filter p l = l.
Proof.
  induction 1 as [|x l Hx _ IH]; [done|]. cbn. by rewrite Hx, IH.
Qed.

Lemma filter_none {A} (p : A → bool) (l : list A) :
  Forall (λ x, p x = false) l → List.filter p l = [].
Proof.
  induction 1 as [|x l Hx _ IH]; [done|]. cbn. by rewrite Hx, IH.
Qed.

(** X17.  The completion rate of a list of tasks that are all done is
    exactly 100, and that of a list with tasks none of which is done exactly
    0: the two roundings do not move the ends of the scale. *)
Theorem completionRate_extremes (now : Z) (tasks : list Task) :
  tasks ≠ [] →
  (Forall (λ task, isDone task = true) tasks →
   completionRate (getTaskStats fl now tasks) = 100) ∧
  (Forall (λ task, isDone task = false) tasks →
   completionRate (getTaskStats fl now tasks) = 0).
Proof.
  intros Hne.
  assert (Hlen : 0 < Z.of_nat (length tasks)) by (destruct tasks; [done|cbn; lia]).
  unfold getTaskStats, Array_filter. cbn [completionRate].
  rewrite (proj2 (Z.ltb_lt _ _) Hlen). split; intros Hall.
  - rewrite (filter_all (λ task, isDone task) tasks Hall). by apply rate_all.
  - rewrite (filter_none (λ task, isDone task) tasks Hall). by apply rate_none.
Qed.

(** X18.  The percentage of completed subtasks is an integer from 0 to 100;
    it is 0 for a task without subtasks and for one whose subtasks are all
    pending, and 100 when there are subtasks and all of them are done. *)
Theorem completionPercentage_range (task : Server.Task) :
  0 ≤ Server.completionPercentage fl task ≤ 100 ∧
  (Forall (λ st, Server.st_isDone st = false) (Server.subTasks task) →
   Server.completionPercentage fl task = 0) ∧
  (Server.subTasks task ≠ [] →
   Forall (λ st, Server.st_isDone st = true) (Server.subTasks task) →
   Server.completionPercentage fl task = 100).
Proof.
  unfold Server.completionPercentage, Array_filter.
  destruct (Server.subTasks task) as [|st rest]; [done|].
  set (subTasks := st :: rest).
  assert (Hlen : 0 < Z.of_nat (length subTasks)) by (cbn; lia).
  assert ((length subTasks =? 0)%nat = false) as -> by done.
  pose proof (length_filter_split (λ subTask, Server.st_isDone subTask) subTasks)
    as Hsplit.
  cbv beta in Hsplit. clearbody subTasks.
  split; [|split].
  - apply completionRate_range; [apply fl_rounding|lia|done].
  - intros Hall.
    rewrite (filter_none (λ subTask, Server.st_isDone subTask) subTasks Hall).
    by apply rate_none.
  - intros _ Hall.
    rewrite (filter_all (λ subTask, Server.st_isDone subTask) subTasks Hall).
    by apply rate_all.
Qed.

End RateFacts.

(** The rate of one task that is done. *)
Lemma completionRate_extremes_witness :
  [task_report] ≠ [] ∧
  completionRate (getTaskStats no_rounding 0 [task_report]) = 100.
Proof.
  split; [discriminate|].
  apply (completionRate_extremes no_rounding no_rounding_rounding 0 [task_report]);
    [discriminate|].
  repeat constructor.
Defined.

(** The percentage of a task without subtasks. *)
Lemma completionPercentage_range_witness :
  let task := sample_doc alice "plan" false (Some 50) None in
  0 ≤ Server.completionPercentage no_rounding task ≤ 100 ∧
  (Forall (λ st, Server.st_isDone st = false) (Server.subTasks task) →
   Server.completionPercentage no_rounding task = 0) ∧
  (Server.subTasks task ≠ [] →
   Forall (λ st, Server.st_isDone st = true) (Server.subTasks task) →
   Server.completionPercentage no_rounding task = 100).
Proof.
  exact (completionPercentage_range no_rounding no_rounding_rounding
           (sample_doc alice "plan" false (Some 50) None)).
Defined.

(** ** The request interceptor *)

Lemma prefix_cons (a b : Ascii.ascii) (s t : string) :
  String.prefix (String a s) (String b t) = Ascii.eqb a b && String.prefix s t.
Proof.
  cbn. destruct (Ascii.ascii_dec a b) as [->|Hne].
  - by rewrite Ascii.eqb_refl.
  - by rewrite (proj2 (Ascii.eqb_neq a b) Hne).
Qed.

Lemma eqb_hex (r c : Ascii.ascii) :
  is_hex c = true → is_hex r = false → Ascii.eqb r c = false.
Proof. intros Hc Hr. apply Ascii.eqb_neq. intros ->. congruence. Qed.

(** A pattern that starts with a character that is no hexadecimal digit is
    found in no identifier. *)
Lemma includes_hex (id rest route : string) (r : Ascii.ascii) :
  is_hex r = false → all_hex id = true →
  includes (id +:+ rest) (String r route) = includes rest (String r route).
Proof.
  intros Hr. induction id as [|c id IH]; intros Hid; [done|].
  cbn in Hid. apply andb_true_iff in Hid as [Hc Hid].
  rewrite append_cons, includes_cons, prefix_cons, eqb_hex by done.
  by rewrite IH.
Qed.

Ltac hex_char id Hid c :=
  destruct id as [|c id];
    [rewrite ?append_nil
    |cbn [all_hex] in Hid; apply andb_true_iff in Hid as [?Hc Hid];
     rewrite append_cons, prefix_cons].

Ltac not_hex c :=
  match goal with
  | |- context [Ascii.eqb ?r c] => rewrite (eqb_hex r c) by done
  end.

Lemma task_url_private (id suffix route : string) :
  all_hex id = true → suffix ∈ [""; "/toggle"; "/subtasks"] →
  route ∈ Api.publicRoutes →
  includes ("/tasks/" +:+ id +:+ suffix) route = false.
Proof.
  intros Hid Hsuffix Hroute.
  assert (Hrest : ∀ route, route ∈ Api.publicRoutes → includes suffix route = false).
  { intros r Hr. unfold Api.publicRoutes in Hr.
    repeat (apply elem_of_cons in Hsuffix as [->|Hsuffix]);
      [..|by apply elem_of_nil in Hsuffix];
      (repeat (apply elem_of_cons in Hr as [->|Hr]);
         [..|by apply elem_of_nil in Hr]); reflexivity. }
  assert (Hshort : ∀ route, String.prefix ("a" +:+ route) suffix = false ∧
                            String.prefix ("u" +:+ route) suffix = false ∧
                            String.prefix ("h" +:+ route) suffix = false).
  { intros r.
    repeat (apply elem_of_cons in Hsuffix as [->|Hsuffix]);
      [..|by apply elem_of_nil in Hsuffix]; done. }
  pose proof (Hrest route Hroute) as Hsuffix_route.
  unfold Api.publicRoutes in Hroute.
  repeat (apply elem_of_cons in Hroute as [->|Hroute]);
    [..|by apply elem_of_nil in Hroute];
    rewrite !append_cons, append_nil, !includes_cons, !prefix_cons;
    cbn [Ascii.eqb Bool.eqb andb orb];
    rewrite includes_hex, Hsuffix_route, orb_false_r by done.
  - hex_char id Hid c; [apply Hshort|].
    destruct (Ascii.eqb _ c) eqn:Ec; [|done]. cbn [andb].
    hex_char id Hid c'; [apply Hshort|]. by not_hex c'.
  - hex_char id Hid c; [apply Hshort|].
    destruct (Ascii.eqb _ c) eqn:Ec; [|done]. cbn [andb].
    hex_char id Hid c'; [apply Hshort|]. by not_hex c'.
  - hex_char id Hid c; [apply Hshort|]. by not_hex c.
Qed.

Lemma on_request_private (u : string) (b : Api.Browser) (token : string) :
  existsb (λ route, includes u route) Api.publicRoutes = false →
  Api.localStorage b !! "token" = Some token → token ≠ "" →
  Api.Authorization
    (Api.on_request {| Api.url := Some u; Api.Authorization := None |} b)
  = Some ("Bearer " +:+ token).
Proof.
  intros Hprivate Htoken Hne. unfold Api.on_request.
  cbn [Api.url from_option]. rewrite Hprivate, Htoken. cbn [negb].
  by rewrite (proj2 (truthy_VStr token) Hne).
Qed.

Lemma on_request_public (u : string) (b : Api.Browser) :
  existsb (λ route, includes u route) Api.publicRoutes = true →
  Api.on_request {| Api.url := Some u; Api.Authorization := None |} b
  = {| Api.url := Some u; Api.Authorization := None |}.
Proof.
  intros Hpublic. unfold Api.on_request.
  cbn [Api.url from_option]. by rewrite Hpublic.
Qed.

(** X19.  With a token in the store, the interceptor adds it to the reading
    and writing of the profile, to the verification, and to every request for
    tasks, those for a task by its identifier of hexadecimal digits included,
    with one exception: the request for the tasks of the category health
    leaves without the token, as its URL contains the public route /health.
    Registration, login and the health check never carry it. *)
Theorem request_token (b : Api.Browser) (token : string) :
  Api.localStorage b !! "token" = Some token → token ≠ "" →
  let header call := Api.Authorization (Api.send call b) in
  let bearer := Some ("Bearer " +:+ token) in
  (∀ c : Category,
     header (Api.tasksAPI_getTasksByCategory (category_value c)) =
     if decide (c = health) then None else bearer) ∧
  (∀ id, all_hex id = true →
     Forall (λ call, header call = bearer)
       [ Api.tasksAPI_getTask id; Api.tasksAPI_updateTask id;
         Api.tasksAPI_deleteTask id; Api.tasksAPI_toggleTask id;
         Api.tasksAPI_addSubTask id ]) ∧
  Forall (λ call, header call = bearer)
    [ Api.authAPI_getProfile; Api.authAPI_updateProfile; Api.authAPI_verifyToken;
      Api.tasksAPI_getTasks; Api.tasksAPI_createTask;
      Api.tasksAPI_getOverdueTasks ] ∧
  Forall (λ call, header call = None)
    [ Api.authAPI_register; Api.authAPI_login; Api.healthCheck ].
Proof.
  intros Htoken Hne. cbn zeta. split; [|split; [|split]].
  - intros c. unfold Api.send.
    destruct c; cbn [Api.call_request snd category_value];
      try (rewrite decide_False by done;
           apply on_request_private; [reflexivity|done|done]).
    rewrite decide_True by done. by rewrite on_request_public.
  - intros id Hid.
    assert (Hprivate : ∀ suffix, suffix ∈ [""; "/toggle"; "/subtasks"] →
      existsb (λ route, includes ("/tasks/" +:+ id +:+ suffix) route)
        Api.publicRoutes = false).
    { intros suffix Hs.
      destruct (existsb _ _) eqn:E; [|done].
      apply existsb_exists in E as (route & Hin & Hinc).
      apply list_elem_of_In in Hin.
      by rewrite task_url_private in Hinc. }
    assert (Hid_url : "/tasks/" +:+ id = "/tasks/" +:+ id +:+ "")
      by (by rewrite append_empty_r).
    repeat apply Forall_cons_2; [..|apply Forall_nil_2];
      unfold Api.send; cbn [Api.call_request snd];
      rewrite ?Hid_url;
      (apply on_request_private; [apply Hprivate; set_solver|done|done]).
  - repeat apply Forall_cons_2; [..|apply Forall_nil_2];
      unfold Api.send; cbn [Api.call_request snd];
      (apply on_request_private; [reflexivity|done|done]).
  - repeat apply Forall_cons_2; [..|apply Forall_nil_2];
      unfold Api.send; cbn [Api.call_request snd];
      by rewrite on_request_public.
Qed.

(** ** The request for the tasks of the category health *)

(** X20.  The request for the tasks of the category health leaves the client
    without a token, whatever is stored; a server whose [auth] answers 401 to
    a request without the Authorization header rejects it with 401; and on
    that answer the client removes the stored token and goes to the login
    page: asking for the tasks of that category ends the session. *)
Theorem category_health_ends_session
    (run : Routes.Middleware → Routes.Request → Routes.Step)
    (b : Api.Browser) (message : option string) :
  (∀ req, Routes.authorization req = None →
          run Routes.auth req = Routes.respond 401) →
  let config := Api.send (Api.tasksAPI_getTasksByCategory "health") b in
  let req := tasks_request Routes.GET ["category"; "health"] config in
  let b' := Api.receive 401 message b in
  Api.Authorization config = None ∧
  Routes.dispatch run Routes.tasks_router req = Routes.Rejected 401 ∧
  Api.localStorage b' !! "token" = None ∧
  Api.location_href b' = "/login".
Proof.
  intros Hauth. cbn zeta.
  assert (Hconfig : Api.send (Api.tasksAPI_getTasksByCategory "health") b =
                    {| Api.url := Some "/tasks/category/health";
                       Api.Authorization := None |})
    by (unfold Api.send; by rewrite on_request_public).
  rewrite Hconfig. split; [done|]. split.
  - rewrite tasks_router_auth_first. by rewrite Hauth.
  - destruct (receive_401 message b) as (Ht & _ & Hl). done.
Qed.

(** The session of the samples, ended by the request. *)
Lemma category_health_ends_session_witness :
  Routes.dispatch sample_run Routes.tasks_router
    (tasks_request Routes.GET ["category"; "health"]
       (Api.send (Api.tasksAPI_getTasksByCategory "health") logged_in_browser))
  = Routes.Rejected 401 ∧
  Api.localStorage (Api.receive 401 None logged_in_browser) !! "token" = None.
Proof.
  pose proof (category_health_ends_session sample_run logged_in_browser None)
    as H.
  cbn zeta in H. destruct H as (_ & Hd & Ht & _); [|done].
  intros req Hreq. unfold sample_run, Routes.spec_run, Routes.spec_auth,
    Routes.token_user. by rewrite Hreq.
Defined.

(** The tokens of the sample session. *)
Lemma request_token_witness :
  Api.Authorization (Api.send Api.tasksAPI_getTasks logged_in_browser)
    = Some "Bearer good" ∧
  Api.Authorization
    (Api.send (Api.tasksAPI_getTasksByCategory "health") logged_in_browser)
    = None.
Proof.
  destruct (request_token logged_in_browser "good" eq_refl ltac:(discriminate))
    as (Hcategory & _ & Hprivate & _).
  split.
  - apply Forall_cons in Hprivate as [_ Hprivate].
    apply Forall_cons in Hprivate as [_ Hprivate].
    apply Forall_cons in Hprivate as [_ Hprivate].
    by apply Forall_cons in Hprivate as [Hprivate _].
  - exact (Hcategory health).
Defined.

(** ** The routers: which route answers *)

Section RouterFacts.

Variable run : Routes.Middleware → Routes.Request → Routes.Step.

(** X21.  On the tasks router, once [auth] has passed a request on as [r]: a
    GET for one segment is answered by [getOverdueTasks] when the segment is
    overdue in any case of letters, and by [getTask] for every other
    segment, the word category included; a GET for two segments is answered
    by [getTasksByCategory] when the first is category, and by no route
    otherwise; no route answers a PUT; and whatever route answers gets the
    request as [auth] passed it on. *)
Theorem tasks_router_precedence (req r : Routes.Request) :
  run Routes.auth req = Routes.next r →
  let answer := Routes.dispatch run Routes.tasks_router req in
  (Routes.method r = Routes.GET →
   ∀ s, Routes.path r = [s] → s ≠ "" →
     answer =
     Routes.Handled
       (if String.eqb (ascii_toLowerCase s) "overdue"
        then Routes.getOverdueTasks else Routes.getTask) r) ∧
  (Routes.method r = Routes.GET →
   ∀ s c, Routes.path r = [s; c] → c ≠ "" →
     answer =
     if String.eqb (ascii_toLowerCase s) "category"
     then Routes.Handled Routes.getTasksByCategory r
     else Routes.Unmatched) ∧
  (Routes.method r = Routes.PUT → answer = Routes.Unmatched) ∧
  (∀ h r', answer = Routes.Handled h r' → r' = r).
Proof.
  intros Hauth. cbn zeta. rewrite tasks_router_auth_first, Hauth.
  unfold Routes.tasks_router. cbn [tail].
  split; [|split; [|split]].
  - intros Hm s Hp Hs. cbn [Routes.dispatch Routes.run_all]. rewrite Hm, Hp.
    cbn [Routes.match_path Routes.match_segment].
    rewrite !bool_decide_eq_true_2 by done.
    rewrite ?bool_decide_eq_false_2 by done.
    rewrite ?andb_false_r, ?andb_true_r. cbn [andb].
    change (ascii_toLowerCase "overdue") with "overdue".
    rewrite String.eqb_sym.
    destruct (String.eqb (ascii_toLowerCase s) "overdue"); [done|].
    by rewrite (proj2 (String.eqb_neq s "")) by done.
  - intros Hm s c Hp Hc. cbn [Routes.dispatch Routes.run_all]. rewrite Hm, Hp.
    cbn [Routes.match_path Routes.match_segment].
    rewrite !bool_decide_eq_true_2 by done.
    rewrite ?bool_decide_eq_false_2 by done.
    rewrite ?andb_false_r, ?andb_true_r. cbn [andb].
    change (ascii_toLowerCase "category") with "category".
    rewrite (String.eqb_sym "category").
    rewrite (proj2 (String.eqb_neq c "")) by done. cbn [negb].
    rewrite ?andb_true_r.
    by destruct (String.eqb (ascii_toLowerCase s) "category").
  - intros Hm. cbn [Routes.dispatch]. rewrite Hm.
    rewrite !bool_decide_eq_false_2 by done. done.
  - intros h r' Hd.
    apply (dispatch_plain_routes run) in Hd; [done|].
    by repeat constructor.
Qed.

(** X22.  On the auth router the two public routes never consult [auth]:
    registration and login are answered by their controllers as soon as the
    rate limiter passes the request on, and rejected with the status of the
    limiter otherwise; and the three private routes never consult the rate
    limiter. *)
Theorem auth_router_public_routes (req : Routes.Request) :
  (Routes.method req = Routes.POST →
   ∀ name, name ∈ ["register"; "login"] → Routes.path req = [name] →
     (run Routes.authLimiter req = Routes.next req →
      Routes.dispatch run Routes.auth_router req =
      Routes.Handled
        (if String.eqb name "register" then Routes.register else Routes.login)
        req) ∧
     (∀ status, run Routes.authLimiter req = Routes.respond status →
        Routes.dispatch run Routes.auth_router req = Routes.Rejected status)) ∧
  (∀ run', (∀ q, run' Routes.auth q = run Routes.auth q) →
     (Routes.method req, Routes.path req) ∈
       [ (Routes.GET, ["me"]); (Routes.PUT, ["profile"]);
         (Routes.POST, ["verify"]) ] →
     Routes.dispatch run' Routes.auth_router req =
     Routes.dispatch run Routes.auth_router req).
Proof.
  split.
  - intros Hm name Hname Hp. destruct req as [m p a u]. cbn in Hm, Hp. subst m p.
    repeat (apply elem_of_cons in Hname as [->|Hname]);
      [..|by apply elem_of_nil in Hname].
    + split.
      * intros Hl. vm_compute. cbv in Hl. by rewrite Hl.
      * intros status Hl. vm_compute. cbv in Hl. by rewrite Hl.
    + split.
      * intros Hl. vm_compute. cbv in Hl. by rewrite Hl.
      * intros status Hl. vm_compute. cbv in Hl. by rewrite Hl.
  - intros run' Hrun Hin. destruct req as [m p a u]. cbn in Hin.
    repeat (apply elem_of_cons in Hin as [[= -> ->]|Hin]);
      [..|by apply elem_of_nil in Hin];
      vm_compute; by rewrite Hrun.
Qed.

End RouterFacts.

(** ** The response interceptor: what an error touches *)

(** X23.  Every rejected response adds exactly one message to the toasts,
    after those that were there; and unless the status is 401 it leaves the
    store and the location as they are. A response with a status from 200 to
    299 changes nothing. *)
Theorem on_rejected_effects (error : Api.AxiosError) (b : Api.Browser) :
  let b' := Api.on_rejected error b in
  (∃ message, Api.toasts b' = (Api.toasts b ++ [message])%list) ∧
  (fst <$> Api.response error ≠ Some 401 →
   Api.localStorage b' = Api.localStorage b ∧
   Api.location_href b' = Api.location_href b) ∧
  (∀ status message, 200 ≤ status < 300 → Api.receive status message b = b).
Proof.
  cbn zeta. unfold Api.on_rejected. split; [|split].
  - repeat case_match; cbn; eauto.
  - intros Hne. rewrite bool_decide_eq_false_2 by done.
    repeat case_match; done.
  - intros status message [Hl Hu]. unfold Api.receive.
    by rewrite (proj2 (Z.leb_le _ _) Hl), (proj2 (Z.ltb_lt _ _) Hu).
Qed.

(** A request with the token of the samples for the overdue tasks. *)
Lemma tasks_router_precedence_witness :
  Routes.dispatch sample_run Routes.tasks_router
    (sample_request Routes.GET ["Overdue"] (Some "Bearer good"))
  = Routes.Handled Routes.getOverdueTasks
      {| Routes.method := Routes.GET; Routes.path := ["Overdue"];
         Routes.authorization := Some "Bearer good";
         Routes.user := Some alice |}.
Proof.
  destruct (tasks_router_precedence sample_run
              (sample_request Routes.GET ["Overdue"] (Some "Bearer good"))
              {| Routes.method := Routes.GET; Routes.path := ["Overdue"];
                 Routes.authorization := Some "Bearer good";
                 Routes.user := Some alice |} eq_refl) as (H & _).
  apply (H eq_refl "Overdue" eq_refl). discriminate.
Defined.

(** ** The state of the session *)

Lemma authReducer_user (state : AuthContext.State) (action : AuthContext.Action) :
  (AuthContext.isAuthenticated state = true → AuthContext.user state ≠ None) →
  AuthContext.isAuthenticated (AuthContext.authReducer state action) = true →
  AuthContext.user (AuthContext.authReducer state action) ≠ None.
Proof.
  intros Hinv. destruct action; cbn; try done.
  by intros ?%bool_decide_eq_true.
Qed.

(** X24.  Whatever actions are dispatched from the initial state, a state that
    is authenticated has a user; the action LOGOUT leads from every state to
    the same state, without user and token, not authenticated and not loading;
    and LOGIN_SUCCESS leads to an authenticated state with the user and the
    token of the response. *)
Theorem authReducer_session (actions : list AuthContext.Action) :
  let state := AuthContext.run AuthContext.initialState actions in
  (AuthContext.isAuthenticated state = true → AuthContext.user state ≠ None) ∧
  (∀ s, AuthContext.authReducer s AuthContext.LOGOUT =
        {| AuthContext.user := None; AuthContext.token := None;
           AuthContext.isLoading := false;
           AuthContext.isAuthenticated := false; AuthContext.error := None |}) ∧
  (∀ s u t,
     let s' := AuthContext.authReducer s (AuthContext.LOGIN_SUCCESS u t) in
     AuthContext.isAuthenticated s' = true ∧
     AuthContext.user s' = Some u ∧ AuthContext.token s' = Some t ∧
     AuthContext.error s' = None).
Proof.
  cbn zeta. split; [|split; [done|done]].
  unfold AuthContext.run.
  induction actions as [|action actions IH] using rev_ind; [done|].
  rewrite foldl_app. cbn [foldl]. by apply authReducer_user.
Qed.

Section ProviderFacts.

Variable stringify : AuthContext.User → string.

(** X25.  After a login or a registration that returned a token, the
    requests for the profile and for the tasks carry that token and the
    state is authenticated with it; after a logout the store holds neither
    token nor user, the same requests carry no Authorization header, and the
    state is not authenticated. Neither touches the location. *)
Theorem login_logout_session (fallback : string) (user : AuthContext.User)
    (token : string) (message : option string)
    (state : AuthContext.State) (b : Api.Browser) :
  token ≠ "" →
  let '(s1, b1) :=
    AuthContext.logged_in stringify fallback user token message state b in
  let '(s2, b2) := AuthContext.logout s1 b1 in
  AuthContext.isAuthenticated s1 = true ∧
  AuthContext.token s1 = Some token ∧
  Api.localStorage b1 !! "token" = Some token ∧
  Api.localStorage b1 !! "user" = Some (stringify user) ∧
  Forall (λ call, Api.Authorization (Api.send call b1) = Some ("Bearer " +:+ token))
    [ Api.authAPI_getProfile; Api.tasksAPI_getTasks; Api.tasksAPI_createTask;
      Api.tasksAPI_getOverdueTasks ] ∧
  AuthContext.isAuthenticated s2 = false ∧ AuthContext.token s2 = None ∧
  Api.localStorage b2 !! "token" = None ∧
  Api.localStorage b2 !! "user" = None ∧
  (∀ call, Api.Authorization (Api.send call b2) = None) ∧
  Api.location_href b1 = Api.location_href b ∧
  Api.location_href b2 = Api.location_href b.
Proof.
  intros Hne. unfold AuthContext.logged_in, AuthContext.logout. cbv zeta.
  cbn [AuthContext.authReducer AuthContext.isAuthenticated AuthContext.token].
  set (b1 := AuthContext.toast_success _ _).
  assert (Htoken : Api.localStorage b1 !! "token" = Some token).
  { unfold b1. cbn. rewrite lookup_insert_ne by done. by rewrite lookup_insert_eq. }
  split; [done|]. split; [done|]. split; [done|].
  split. { unfold b1. cbn. by rewrite lookup_insert_eq. }
  split.
  { repeat apply Forall_cons_2; [..|apply Forall_nil_2];
      unfold Api.send; cbn [Api.call_request snd];
      (apply on_request_private; [reflexivity|done|done]). }
  split; [done|]. split; [done|].
  assert (Hgone : Api.localStorage
            (AuthContext.toast_success "Logged out successfully! ðŸ‘‹"
               (Api.removeItem "user" (Api.removeItem "token" b1))) !! "token"
          = None).
  { cbn. rewrite lookup_delete_ne by done. by rewrite lookup_delete_eq. }
  split; [done|].
  split. { cbn. by rewrite lookup_delete_eq. }
  split; [|done].
  intros call. unfold Api.send, Api.on_request. rewrite Hgone.
  by destruct (negb _).
Qed.

End ProviderFacts.

(** A login into the sample browser, and the logout after it. *)
Lemma login_logout_session_witness :
  let '(s1, b1) :=
    AuthContext.logged_in (λ _, "alice") "Welcome back!" ∅ "good" None
      AuthContext.initialState logged_in_browser in
  let '(s2, b2) := AuthContext.logout s1 b1 in
  Api.Authorization (Api.send Api.tasksAPI_getTasks b1) = Some "Bearer good" ∧
  Api.Authorization (Api.send Api.tasksAPI_getTasks b2) = None.
Proof.
  pose proof (login_logout_session (λ _, "alice") "Welcome back!" ∅ "good" None
                AuthContext.initialState logged_in_browser ltac:(discriminate)) as H.
  cbv zeta in H. unfold AuthContext.logged_in, AuthContext.logout in *.
  cbv zeta in *.
  destruct H as (_ & _ & _ & _ & Hsend & _ & _ & _ & _ & Hnone & _).
  split.
  - apply Forall_cons in Hsend as [_ Hsend].
    by apply Forall_cons in Hsend as [Hsend _].
  - apply Hnone.
Defined.

(** ** The page and the server stay in step *)

Lemma in_sync_replace (uid oid : Server.ObjectId) (orig saved : Server.Task)
    (db : gmap Server.ObjectId Server.Task) (tasks : list Dashboard.Item) :
  in_sync uid (db, tasks) →
  db !! oid = Some orig → Server.userId orig = uid → Server.userId saved = uid →
  in_sync uid (<[oid := saved]> db, Dashboard.replace_task oid (oid, saved) tasks).
Proof.
  intros [Hnodup Hsync] Hdb Horig Hsaved. cbn [fst snd] in *.
  unfold Dashboard.replace_task. split; cbn [fst snd].
  - rewrite <- list_fmap_compose.
    rewrite (list_fmap_ext _ fst tasks); [done|].
    intros i [o t] _. cbn. by destruct (String.eqb_spec o oid).
  - intros o t. rewrite list_elem_of_fmap. split.
    + intros ([o' t'] & Heq & Hin). cbn in Heq.
      destruct (String.eqb_spec o' oid) as [->|Hne].
      * injection Heq as -> ->. by rewrite lookup_insert_eq.
      * injection Heq as -> ->. rewrite lookup_insert_ne by done.
        by apply Hsync.
    + intros [Hlookup Hu]. destruct (decide (o = oid)) as [->|Hne].
      * rewrite lookup_insert_eq in Hlookup. injection Hlookup as <-.
        exists (oid, orig). cbn. rewrite String.eqb_refl. split; [done|].
        by apply Hsync.
      * rewrite lookup_insert_ne in Hlookup by done.
        exists (o, t). cbn. rewrite (proj2 (String.eqb_neq o oid)) by done.
        split; [done|]. by apply Hsync.
Qed.

Lemma NoDup_fst_filter (p : Dashboard.Item → bool) (tasks : list Dashboard.Item) :
  NoDup tasks.*1 → NoDup (List.filter p tasks).*1.
Proof.
  induction tasks as [|[o t] tasks IH]; [done|]. cbn.
  rewrite NoDup_cons. intros [Hnotin Hnodup].
  destruct (p (o, t)); [|by apply IH]. cbn. apply NoDup_cons. split; [|by apply IH].
  intros Hin. apply Hnotin.
  apply list_elem_of_fmap in Hin as (x & -> & Hx).
  apply list_elem_of_fmap. exists x. split; [done|].
  apply list_elem_of_In in Hx. apply filter_In in Hx as [Hx _].
  by apply list_elem_of_In.
Qed.

Lemma in_sync_remove (uid oid : Server.ObjectId)
    (db : gmap Server.ObjectId Server.Task) (tasks : list Dashboard.Item) :
  in_sync uid (db, tasks) →
  in_sync uid (delete oid db, Dashboard.remove_task oid tasks).
Proof.
  intros [Hnodup Hsync]. cbn [fst snd] in *.
  unfold Dashboard.remove_task, Array_filter. split; cbn [fst snd].
  - by apply NoDup_fst_filter.
  - intros o t. rewrite list_elem_of_In, filter_In, <- list_elem_of_In. cbn.
    rewrite negb_true_iff, String.eqb_neq, Hsync.
    destruct (decide (o = oid)) as [->|Hne].
    + rewrite lookup_delete_eq. intuition congruence.
    + rewrite lookup_delete_ne by done. tauto.
Qed.

Lemma in_sync_prepend (uid oid : Server.ObjectId) (saved : Server.Task)
    (db : gmap Server.ObjectId Server.Task) (tasks : list Dashboard.Item) :
  in_sync uid (db, tasks) → db !! oid = None → Server.userId saved = uid →
  in_sync uid (<[oid := saved]> db, Dashboard.prepend_task (oid, saved) tasks).
Proof.
  intros [Hnodup Hsync] Hfree Hsaved. cbn [fst snd] in *.
  unfold Dashboard.prepend_task. split; cbn [fst snd fmap list_fmap].
  - apply NoDup_cons. split; [|done].
    intros Hin. apply list_elem_of_fmap in Hin as ([o t] & Ho & Hin).
    cbn in Ho. subst o. apply Hsync in Hin as [Hin _]. congruence.
  - intros o t. rewrite elem_of_cons, Hsync.
    destruct (decide (o = oid)) as [->|Hne].
    + rewrite lookup_insert_eq. split.
      * intros [[= ->]|[Hin _]]; [done|congruence].
      * intros [[= ->] _]. by left.
    + rewrite lookup_insert_ne by done. split.
      * intros [[= -> ->]|H]; [done|done].
      * intros H. by right.
Qed.

Lemma canonical_insert (castObjectId : string → option Server.ObjectId)
    (db : gmap Server.ObjectId Server.Task) (oid : Server.ObjectId)
    (task : Server.Task) :
  canonical castObjectId db → castObjectId oid = Some oid →
  canonical castObjectId (<[oid := task]> db).
Proof. intros Hc Ho. by apply map_Forall_insert_2. Qed.

Lemma canonical_delete (castObjectId : string → option Server.ObjectId)
    (db : gmap Server.ObjectId Server.Task) (oid : Server.ObjectId) :
  canonical castObjectId db → canonical castObjectId (delete oid db).
Proof. intros Hc. by apply map_Forall_delete. Qed.

Lemma existsb_eqb (id : string) (ids : list string) :
  existsb (String.eqb id) ids = true ↔ id ∈ ids.
Proof.
  rewrite existsb_exists. split.
  - intros (x & Hin & ->%String.eqb_eq). by apply list_elem_of_In.
  - intros Hin. exists id. split; [by apply list_elem_of_In|apply String.eqb_refl].
Qed.

(** X27.  The selection holds each identifier at most once: selecting adds an
    identifier that is not selected and removes one that is; a second click
    undoes the first, up to the order of the selection. *)
Theorem handleSelectTask_toggles (taskId : string) (prev : list string) :
  NoDup prev →
  let selected := Dashboard.handleSelectTask taskId prev in
  NoDup selected ∧
  (taskId ∈ selected ↔ taskId ∉ prev) ∧
  (∀ id, id ≠ taskId → id ∈ selected ↔ id ∈ prev) ∧
  Dashboard.handleSelectTask taskId selected ≡ₚ prev.
Proof.
  intros Hnodup. cbn zeta. unfold Dashboard.handleSelectTask, Array_filter.
  assert (Hfilter : ∀ l : list string,
    taskId ∉ l → List.filter (λ id, negb (String.eqb id taskId)) l = l).
  { intros l Hl. apply filter_all. apply Forall_forall. intros id Hin.
    apply negb_true_iff, String.eqb_neq. intros ->. done. }
  assert (Hin_filter : ∀ id,
    id ∈ List.filter (λ id, negb (String.eqb id taskId)) prev ↔
    id ∈ prev ∧ id ≠ taskId).
  { intros id. rewrite list_elem_of_In, filter_In, <- list_elem_of_In.
    by rewrite negb_true_iff, String.eqb_neq. }
  destruct (existsb (String.eqb taskId) prev) eqn:E.
  - apply existsb_eqb in E.
    assert (Hout : taskId ∉ List.filter (λ id, negb (String.eqb id taskId)) prev)
      by (rewrite Hin_filter; tauto).
    split; [by apply NoDup_List_filter|]. split; [tauto|].
    split; [intros id Hne; rewrite Hin_filter; tauto|].
    assert (E2 : existsb (String.eqb taskId)
                   (List.filter (λ id, negb (String.eqb id taskId)) prev) = false)
      by (apply not_true_iff_false; by rewrite existsb_eqb).
    rewrite E2.
    apply NoDup_Permutation.
    + apply NoDup_app. split; [by apply NoDup_List_filter|].
      split; [|apply NoDup_singleton].
      intros id Hid ->%list_elem_of_singleton. done.
    + done.
    + intros id. rewrite elem_of_app, list_elem_of_singleton, Hin_filter.
      destruct (decide (id = taskId)) as [->|]; tauto.
  - assert (Hnotin : taskId ∉ prev).
    { intros Hin. apply existsb_eqb in Hin. congruence. }
    split.
    { apply NoDup_app. split; [done|]. split; [|apply NoDup_singleton].
      intros id Hid ->%list_elem_of_singleton. done. }
    split; [rewrite elem_of_app, list_elem_of_singleton; tauto|].
    split.
    { intros id Hne. rewrite elem_of_app, list_elem_of_singleton. tauto. }
    rewrite (proj2 (existsb_eqb taskId (prev ++ [taskId])%list))
      by (rewrite elem_of_app, list_elem_of_singleton; tauto).
    rewrite List.filter_app. cbn [List.filter]. rewrite String.eqb_refl.
    cbn [negb]. rewrite app_nil_r. by rewrite Hfilter.
Qed.

Lemma lookup_foldl_delete (ids : list Server.ObjectId)
    (db : gmap Server.ObjectId Server.Task) (oid : Server.ObjectId) :
  foldl (λ db id, delete id db) db ids !! oid
  = if decide (oid ∈ ids) then None else db !! oid.
Proof.
  revert db. induction ids as [|id ids IH]; intros db; [done|]. cbn [foldl].
  rewrite IH. destruct (decide (oid ∈ ids)) as [Hin|Hnin].
  - rewrite decide_True; [done|by right].
  - destruct (decide (oid = id)) as [->|Hne].
    + rewrite lookup_delete_eq. rewrite decide_True; [done|left].
    + rewrite lookup_delete_ne by done.
      rewrite decide_False; [done|]. rewrite elem_of_cons. tauto.
Qed.

Lemma canonical_foldl_delete (castObjectId : string → option Server.ObjectId)
    (ids : list Server.ObjectId) (db : gmap Server.ObjectId Server.Task) :
  canonical castObjectId db →
  canonical castObjectId (foldl (λ db id, delete id db) db ids).
Proof.
  revert db. induction ids as [|id ids IH]; intros db Hc; [done|].
  cbn [foldl]. by apply IH, canonical_delete.
Qed.

Lemma in_sync_remove_selected (uid : Server.ObjectId)
    (ids : list Server.ObjectId) (db : gmap Server.ObjectId Server.Task)
    (tasks : list Dashboard.Item) :
  in_sync uid (db, tasks) →
  in_sync uid (foldl (λ db id, delete id db) db ids,
               Dashboard.remove_selected ids tasks).
Proof.
  intros [Hnodup Hsync]. cbn [fst snd] in *.
  unfold Dashboard.remove_selected, Array_filter. split; cbn [fst snd].
  - by apply NoDup_fst_filter.
  - intros o t. rewrite list_elem_of_In, filter_In, <- list_elem_of_In. cbn.
    rewrite negb_true_iff, <- not_true_iff_false, existsb_eqb, Hsync.
    rewrite lookup_foldl_delete.
    destruct (decide (o ∈ ids)); [intuition congruence|tauto].
Qed.

Section DashboardFacts.

Variable castObjectId : string → option Server.ObjectId.
Variable trim : string → string.

(** Whenever the call of a handler of the page that reads [response.task]
    resolves, the answer has a task. *)
Lemma resolved_carries_task env req db (data : Server.Json) :
  Forall (λ handler : Server.Env → Server.Request →
                      gmap Server.ObjectId Server.Task →
                      Server.Response * gmap Server.ObjectId Server.Task,
            Dashboard.resolved (handler env req db).1 = Some data →
            is_Some (Dashboard.response_task data))
    [ Server.toggleTask castObjectId; Server.createTask trim;
      Server.updateTask castObjectId trim ].
Proof.
  repeat apply Forall_cons_2; [..|apply Forall_nil_2];
    unfold Dashboard.resolved;
    [unfold Server.toggleTask|unfold Server.createTask|unfold Server.updateTask];
    cbv zeta; repeat case_match; cbn; try done; intros [= <-];
    try (by eexists);
    match goal with
    | H : context [Server.on_error _ _ _ ?e] |- _ =>
        destruct e; cbn in H; done
    end.
Qed.

(** A request for a task that the page lists is a request for a task of
    the user, under its own identifier. *)
Lemma listed_task (uid : Server.ObjectId) (taskId : string)
    (state : gmap Server.ObjectId Server.Task * list Dashboard.Item) :
  page_invariant castObjectId uid state → taskId ∈ state.2.*1 →
  ∃ orig, Server.findOne castObjectId state.1 taskId uid
          = inr (Some (taskId, orig)) ∧
          state.1 !! taskId = Some orig ∧ Server.userId orig = uid ∧
          castObjectId taskId = Some taskId.
Proof.
  intros [Hcanon [_ Hsync]] Hin.
  apply list_elem_of_fmap in Hin as ([o orig] & -> & Hin). cbn [fst].
  apply Hsync in Hin as [Hdb Hu]. exists orig.
  pose proof (Hcanon o orig Hdb) as Hcast. cbn in Hcast.
  split; [|done]. by apply findOne_found.
Qed.

Lemma toggleTask_listed env (uid : Server.ObjectId) (taskId : string)
    (state : gmap Server.ObjectId Server.Task * list Dashboard.Item) :
  page_invariant castObjectId uid state → taskId ∈ state.2.*1 →
  page_invariant castObjectId uid
    (Dashboard.handleToggleTask castObjectId env uid taskId state).
Proof.
  intros Hinv Hin.
  destruct (listed_task uid taskId state Hinv Hin) as (orig & Hf & Hdb & Hu & Hc).
  destruct Hinv as [Hcanon Hsync]. destruct state as [db tasks]. cbn [fst snd] in *.
  unfold Dashboard.handleToggleTask, Server.toggleTask. cbn [fst snd
    Server.params_id Server.user_id].
  rewrite Hf.
  destruct (Server.toggleCompletion (Server.now env) orig) as [e|saved] eqn:Ht.
  - split; [done|]. unfold Dashboard.after, Dashboard.resolved.
    destruct e; cbn; done.
  - apply toggleCompletion_inv in Ht as (_ & _ & Hsaved & _).
    split; [by apply canonical_insert|].
    unfold Dashboard.after, Dashboard.resolved. cbn.
    apply (in_sync_replace uid taskId orig saved); [done..|congruence].
Qed.

Lemma deleteTask_listed (confirmed : bool) env (uid : Server.ObjectId)
    (taskId : string)
    (state : gmap Server.ObjectId Server.Task * list Dashboard.Item) :
  page_invariant castObjectId uid state → taskId ∈ state.2.*1 →
  page_invariant castObjectId uid
    (Dashboard.handleDeleteTask castObjectId confirmed env uid taskId state).
Proof.
  intros Hinv Hin.
  destruct (listed_task uid taskId state Hinv Hin) as (orig & Hf & Hdb & Hu & Hc).
  destruct Hinv as [Hcanon Hsync]. destruct state as [db tasks]. cbn [fst snd] in *.
  unfold Dashboard.handleDeleteTask. destruct confirmed; [|done]. cbn [negb].
  unfold Server.deleteTask, Server.findOneAndDelete.
  cbn [fst snd Server.params_id Server.user_id]. rewrite Hf.
  split; [by apply canonical_delete|].
  unfold Dashboard.resolved. cbn. by apply in_sync_remove.
Qed.

Lemma createTask_not_created env req db :
  Server.status (Server.createTask trim env req db).1 ≠ 201 →
  (Server.createTask trim env req db).2 = db ∧
  (Server.status (Server.createTask trim env req db).1 = 400 ∨
   Server.status (Server.createTask trim env req db).1 = 500).
Proof.
  unfold Server.createTask. cbv zeta.
  repeat case_match; cbn; intros Hst; try done; (split; [done|]); auto;
    apply on_error_status.
Qed.

Lemma createTask_listed env (uid : Server.ObjectId) (newTask : Dashboard.NewTask)
    (state : gmap Server.ObjectId Server.Task * list Dashboard.Item) :
  castObjectId (Server.new_id env) = Some (Server.new_id env) →
  page_invariant castObjectId uid state →
  page_invariant castObjectId uid
    (Dashboard.handleCreateTask trim env uid newTask state).
Proof.
  intros Hnew Hinv. unfold Dashboard.handleCreateTask.
  destruct (negb _); [done|].
  set (req := {| Server.params_id := ""; Server.user_id := uid;
                 Server.body := Dashboard.task_data trim newTask |}).
  destruct (decide (Server.status (Server.createTask trim env req state.1).1 = 201))
    as [Hst|Hst].
  - destruct (createTask_inv trim env req state.1 Hst)
      as (Hfree & saved & -> & Hu & _).
    destruct Hinv as [Hcanon Hsync]. destruct state as [db tasks].
    cbn [fst snd] in *.
    split; [by apply canonical_insert|].
    unfold Dashboard.after, Dashboard.resolved. cbn.
    by apply in_sync_prepend.
  - destruct (createTask_not_created env req state.1 Hst) as [Hdb Hstatus].
    destruct (Server.createTask trim env req state.1) as [response db].
    cbn [fst snd] in *. subst db.
    unfold Dashboard.after, Dashboard.resolved.
    destruct Hstatus as [-> | ->]; cbn; by destruct state.
Qed.

Lemma updateTask_listed env (uid : Server.ObjectId)
    (editingTask : Dashboard.Item) (newTask : Dashboard.NewTask)
    (state : gmap Server.ObjectId Server.Task * list Dashboard.Item) :
  page_invariant castObjectId uid state → editingTask.1 ∈ state.2.*1 →
  page_invariant castObjectId uid
    (Dashboard.handleUpdateTask castObjectId trim env uid editingTask newTask
       state).
Proof.
  intros Hinv Hin.
  destruct (listed_task uid editingTask.1 state Hinv Hin)
    as (orig & Hf & Hdb & Hu & Hc).
  destruct Hinv as [Hcanon Hsync]. destruct state as [db tasks]. cbn [fst snd] in *.
  unfold Dashboard.handleUpdateTask. destruct (negb _); [done|].
  unfold Server.updateTask. cbv zeta.
  cbn [fst snd Server.params_id Server.user_id Server.body]. rewrite Hf.
  pose proof (assign_fields_userId trim (Dashboard.task_data trim newTask) orig)
    as Hassign.
  destruct (Server.assign_fields trim (Dashboard.task_data trim newTask) orig)
    as [task enum_errors].
  cbn [fst] in Hassign.
  destruct (Server.validate _ _ _).
  - destruct (Server.save (Server.now env) (Some orig) task) as [e|saved] eqn:Hs.
    + split; [done|]. unfold Dashboard.after, Dashboard.resolved.
      destruct e; cbn; done.
    + apply save_userId in Hs.
      split; [by apply canonical_insert|].
      unfold Dashboard.after, Dashboard.resolved. cbn.
      apply (in_sync_replace uid editingTask.1 orig saved); [done..|congruence].
  - split; [done|]. unfold Dashboard.after, Dashboard.resolved. cbn. done.
Qed.

(** X26.  While the page lists exactly the tasks of the user in the
    collection, each once, under identifiers in the form of the cast, it
    keeps doing so through the handlers for toggling, deleting, editing and
    creating a task, whether the server accepts the request or rejects it,
    and whether or not the user confirms the deletion. *)
Theorem page_stays_in_sync env (uid : Server.ObjectId)
    (state : gmap Server.ObjectId Server.Task * list Dashboard.Item) :
  page_invariant castObjectId uid state →
  (∀ taskId, taskId ∈ state.2.*1 →
     page_invariant castObjectId uid
       (Dashboard.handleToggleTask castObjectId env uid taskId state)) ∧
  (∀ confirmed taskId, taskId ∈ state.2.*1 →
     page_invariant castObjectId uid
       (Dashboard.handleDeleteTask castObjectId confirmed env uid taskId state)) ∧
  (∀ editingTask newTask, editingTask.1 ∈ state.2.*1 →
     page_invariant castObjectId uid
       (Dashboard.handleUpdateTask castObjectId trim env uid editingTask
          newTask state)) ∧
  (∀ newTask, castObjectId (Server.new_id env) = Some (Server.new_id env) →
     page_invariant castObjectId uid
       (Dashboard.handleCreateTask trim env uid newTask state)).
Proof.
  intros Hinv. split; [|split; [|split]].
  - intros taskId. by apply toggleTask_listed.
  - intros confirmed taskId. by apply deleteTask_listed.
  - intros editingTask newTask. by apply updateTask_listed.
  - intros newTask Hnew. by apply createTask_listed.
Qed.

(** *** The selection *)

Lemma delete_listed env (uid taskId : Server.ObjectId)
    (db : gmap Server.ObjectId Server.Task) (orig : Server.Task) :
  castObjectId taskId = Some taskId → db !! taskId = Some orig →
  Server.userId orig = uid →
  Server.deleteTask castObjectId env
    {| Server.params_id := taskId; Server.user_id := uid;
       Server.body := no_body |} db
  = ({| Server.status := 200;
        Server.json := Server.JMessage "Task deleted successfully" |},
     delete taskId db).
Proof.
  intros Hc Hdb Hu. unfold Server.deleteTask, Server.findOneAndDelete.
  cbn [Server.params_id Server.user_id].
  by rewrite (findOne_found castObjectId db taskId uid taskId orig).
Qed.

Lemma delete_missing env (uid taskId : Server.ObjectId)
    (db : gmap Server.ObjectId Server.Task) :
  castObjectId taskId = Some taskId → db !! taskId = None →
  Server.deleteTask castObjectId env
    {| Server.params_id := taskId; Server.user_id := uid;
       Server.body := no_body |} db
  = (Server.not_found, db).
Proof.
  intros Hc Hdb. unfold Server.deleteTask, Server.findOneAndDelete.
  cbn [Server.params_id Server.user_id].
  assert (Hf : Server.findOne castObjectId db taskId uid = inr None).
  { apply (findOne_missing castObjectId db taskId uid taskId); [done|].
    intros task Htask. congruence. }
  by rewrite Hf.
Qed.

(** A selection of different tasks of the user, all in the collection, is
    deleted as a whole. *)
Lemma delete_all_listed env (uid : Server.ObjectId) (ids : list Server.ObjectId)
    (db : gmap Server.ObjectId Server.Task) :
  NoDup ids →
  (∀ id, id ∈ ids → castObjectId id = Some id ∧
                    ∃ orig, db !! id = Some orig ∧ Server.userId orig = uid) →
  Dashboard.delete_all castObjectId env uid ids db
  = (true, foldl (λ db id, delete id db) db ids).
Proof.
  revert db. induction ids as [|id ids IH]; intros db Hnodup Hids; [done|].
  apply NoDup_cons in Hnodup as [Hnotin Hnodup].
  destruct (Hids id ltac:(left)) as (Hc & orig & Hdb & Hu).
  cbn [Dashboard.delete_all]. rewrite (delete_listed env uid id db orig) by done.
  rewrite IH; [|done|].
  - done.
  - intros id' Hin. destruct (Hids id' ltac:(by right)) as (Hc' & orig' & Hdb' & Hu').
    split; [done|]. exists orig'. split; [|done].
    rewrite lookup_delete_ne; [done|]. intros ->. done.
Qed.

(** X28.  A selection of tasks that the page lists, each selected once, is
    deleted as a whole by the bulk deletion that the user confirms: every
    selected task is gone from the collection and from the list, the
    selection is empty, and the page and the server are in step. Without
    confirmation, and with an empty selection, nothing changes. *)
Theorem handleBulkDelete_in_sync (confirmed : bool) env (uid : Server.ObjectId)
    (db : gmap Server.ObjectId Server.Task) (tasks : list Dashboard.Item)
    (selectedTasks : list Server.ObjectId) :
  page_invariant castObjectId uid (db, tasks) →
  NoDup selectedTasks → selectedTasks ⊆ tasks.*1 →
  let out :=
    Dashboard.handleBulkDelete castObjectId confirmed env uid
      (db, tasks, selectedTasks) in
  page_invariant castObjectId uid out.1 ∧
  (confirmed = false → out = (db, tasks, selectedTasks)) ∧
  (confirmed = true →
   out.2 = [] ∧
   ∀ id, id ∈ selectedTasks → out.1.1 !! id = None ∧ id ∉ out.1.2.*1).
Proof.
  clear trim. intros Hinv Hnodup Hsub. cbn zeta.
  unfold Dashboard.handleBulkDelete.
  cbv beta iota.
  destruct (_ =? 0)%nat eqn:Hempty.
  { destruct selectedTasks; [|done].
    split; [done|]. split; [done|]. intros _. split; [done|].
    intros id Hin. by apply elem_of_nil in Hin. }
  destruct confirmed; cbn [negb]; [|done].
  rewrite delete_all_listed; [|done|].
  2:{ intros id Hin.
      destruct (listed_task uid id (db, tasks) Hinv (Hsub id Hin))
        as (orig & _ & Hdb & Hu & Hc).
      split; [done|]. by exists orig. }
  destruct Hinv as [Hcanon Hsync]. cbn [fst snd] in *.
  split; [split|].
  - by apply canonical_foldl_delete.
  - by apply in_sync_remove_selected.
  - split; [done|]. intros _. split; [done|].
    intros id Hin. rewrite lookup_foldl_delete, decide_True by done.
    split; [done|]. intros Hlisted.
    apply list_elem_of_fmap in Hlisted as ([o t] & -> & Hlisted).
    unfold Dashboard.remove_selected, Array_filter in Hlisted.
    apply list_elem_of_In, filter_In in Hlisted as [_ Hkeep]. cbn in Hkeep.
    apply negb_true_iff in Hkeep.
    by rewrite (proj2 (existsb_eqb o selectedTasks) Hin) in Hkeep.
Qed.

(** X29.  A selection that has gone stale breaks the step: when a selected
    task is deleted by the button of its card, it stays selected; a bulk
    deletion of it and of another listed task then deletes the other task on
    the server, is rejected as a whole because of the first, and leaves the
    list as it was, so that the page goes on showing a task that the
    collection no longer has. *)
Theorem stale_selection_breaks_sync env1 env2 (uid a b : Server.ObjectId)
    (db : gmap Server.ObjectId Server.Task) (tasks : list Dashboard.Item) :
  page_invariant castObjectId uid (db, tasks) →
  a ∈ tasks.*1 → b ∈ tasks.*1 → a ≠ b →
  let selectedTasks :=
    Dashboard.handleSelectTask b (Dashboard.handleSelectTask a []) in
  let deleted :=
    Dashboard.handleDeleteTask castObjectId true env1 uid a (db, tasks) in
  let out :=
    Dashboard.handleBulkDelete castObjectId true env2 uid
      (deleted, selectedTasks) in
  selectedTasks = [a; b] ∧
  out.2 = [a; b] ∧ out.1.2 = deleted.2 ∧
  b ∈ out.1.2.*1 ∧ out.1.1 !! b = None ∧
  ¬ in_sync uid out.1.
Proof.
  intros Hinv Ha Hb Hab. cbn zeta.
  assert (Hselected :
    Dashboard.handleSelectTask b (Dashboard.handleSelectTask a []) = [a; b]).
  { unfold Dashboard.handleSelectTask. cbn [existsb app orb].
    by rewrite (proj2 (String.eqb_neq b a)) by done. }
  rewrite Hselected. split; [done|].
  destruct (listed_task uid a (db, tasks) Hinv Ha) as (ta & _ & Hdba & Hua & Hca).
  destruct (listed_task uid b (db, tasks) Hinv Hb) as (tb & _ & Hdbb & Hub & Hcb).
  cbn [fst snd] in *.
  unfold Dashboard.handleDeleteTask. cbn [negb fst snd].
  rewrite (delete_listed env1 uid a db ta) by done.
  unfold Dashboard.resolved. cbn [Server.status Z.leb Z.ltb Z.compare andb].
  unfold Dashboard.handleBulkDelete. cbn [length Nat.eqb negb Dashboard.delete_all].
  rewrite (delete_missing env2 uid a (delete a db)) by (done || apply lookup_delete_eq).
  rewrite (delete_listed env2 uid b (delete a db) tb);
    [|done|by rewrite lookup_delete_ne|done].
  cbn [Server.status Server.not_found Z.leb Z.ltb Z.compare andb fst snd].
  rewrite bool_decide_eq_false_2 by (by intros [? ?]). cbn [andb fst snd].
  assert (Hlisted : (b, tb) ∈ Dashboard.remove_task a tasks).
  { unfold Dashboard.remove_task, Array_filter.
    apply list_elem_of_In, filter_In. split.
    - apply list_elem_of_In. destruct Hinv as [_ [_ Hsync]]. by apply Hsync.
    - cbn. by rewrite (proj2 (String.eqb_neq b a)) by done. }
  split; [done|]. split; [done|]. split.
  { apply list_elem_of_fmap. by exists (b, tb). }
  split; [apply lookup_delete_eq|].
  intros [_ Hsync]. cbn [fst snd] in Hsync.
  apply Hsync in Hlisted as [Hlookup _].
  by rewrite lookup_delete_eq in Hlookup.
Qed.

End DashboardFacts.

(** The list that holds the tasks of a user, as the collection gives them,
    is in step with the collection. *)
Lemma in_sync_find (uid : Server.ObjectId) (db : gmap Server.ObjectId Server.Task) :
  in_sync uid
    (db, Server.find db (λ task, bool_decide (Server.userId task = uid))).
Proof.
  split; cbn [fst snd].
  - unfold Server.find. apply NoDup_fst_filter. apply NoDup_fst_map_to_list.
  - intros oid task. rewrite elem_of_find. by rewrite bool_decide_eq_true.
Qed.

(** The page of alice over the sample collection. *)
Lemma sample_page :
  page_invariant hex24 alice
    (sample_collection,
     Server.find sample_collection (λ task, bool_decide (Server.userId task = alice))) ∧
  id_plan ∈ (Server.find sample_collection
               (λ task, bool_decide (Server.userId task = alice))).*1 ∧
  id_gym ∈ (Server.find sample_collection
              (λ task, bool_decide (Server.userId task = alice))).*1.
Proof.
  split; [split|split].
  - unfold canonical, sample_collection. cbn [fst].
    repeat apply map_Forall_insert_2; [done..|].
    apply map_Forall_empty.
  - apply in_sync_find.
  - apply list_elem_of_fmap.
    exists (id_plan, sample_doc alice "plan" false (Some 50) None).
    split; [done|]. by apply elem_of_find.
  - apply list_elem_of_fmap.
    exists (id_gym, sample_doc alice "gym" true (Some 10) (Some 5)).
    split; [done|]. by apply elem_of_find.
Qed.

(** Alice toggles her plan before it is due. *)
Lemma page_stays_in_sync_witness :
  page_invariant hex24 alice
    (Dashboard.handleToggleTask hex24 early_env alice id_plan
       (sample_collection,
        Server.find sample_collection
          (λ task, bool_decide (Server.userId task = alice)))).
Proof.
  destruct sample_page as (Hinv & Hplan & _).
  exact (proj1 (page_stays_in_sync hex24 ascii_trim early_env alice _ Hinv)
           id_plan Hplan).
Defined.

(** Alice selects her two tasks and deletes them together. *)
Lemma handleBulkDelete_in_sync_witness :
  page_invariant hex24 alice
    (Dashboard.handleBulkDelete hex24 true sample_env alice
       (sample_collection,
        Server.find sample_collection
          (λ task, bool_decide (Server.userId task = alice)),
        [id_plan; id_gym])).1.
Proof.
  destruct sample_page as (Hinv & Hplan & Hgym).
  apply (handleBulkDelete_in_sync hex24 true sample_env alice _ _
           [id_plan; id_gym] Hinv).
  - apply NoDup_cons. split; [|apply NoDup_singleton].
    intros Hin%list_elem_of_singleton. discriminate.
  - intros id Hin. apply elem_of_cons in Hin as [->|Hin]; [done|].
    by apply list_elem_of_singleton in Hin as ->.
Defined.

(** Alice selects her plan, deletes it by its card, selects the gym and
    deletes the selection. *)
Lemma stale_selection_breaks_sync_witness :
  ¬ in_sync alice
      (Dashboard.handleBulkDelete hex24 true sample_env alice
         (Dashboard.handleDeleteTask hex24 true sample_env alice id_plan
            (sample_collection,
             Server.find sample_collection
               (λ task, bool_decide (Server.userId task = alice))),
          Dashboard.handleSelectTask id_gym
            (Dashboard.handleSelectTask id_plan []))).1.
Proof.
  destruct sample_page as (Hinv & Hplan & Hgym).
  apply (stale_selection_breaks_sync hex24 sample_env sample_env alice
           id_plan id_gym _ _ Hinv Hplan Hgym).
  discriminate.
Defined.

(** A second click on a task of the selection. *)
Lemma handleSelectTask_toggles_witness :
  Dashboard.handleSelectTask id_plan
    (Dashboard.handleSelectTask id_plan [id_gym]) ≡ₚ [id_gym].
Proof.
  apply (handleSelectTask_toggles id_plan [id_gym]). apply NoDup_singleton.
Defined.

(** ** The tasks that the page shows *)

Section PipelineFacts.

Variable toLowerCase : string → string.

Lemma filterTasks_filter (tasks : list Task) (filters : Filters) :
  ∀ task, task ∈ filterTasks toLowerCase tasks filters ↔
          task ∈ tasks ∧ passes toLowerCase filters task.
Proof.
  intros task. unfold filterTasks, Array_filter.
  rewrite list_elem_of_In, filter_In, <- list_elem_of_In.
  by rewrite filterTasks_callback_passes.
Qed.

Lemma passes_initial_filters (task : Task) :
  passes toLowerCase Dashboard.initial_filters task.
Proof.
  unfold passes, Dashboard.initial_filters, is_set. cbn.
  split; [done|]. split; [done|].
  split; [intros c [[= <-] _] Hne; done|].
  split; [intros p [[= <-] _] Hne; done|].
  intros s [[= <-] Hne]. done.
Qed.

(** X30.  The page shows exactly the tasks that pass the filters, each as
    often as it is in the list, in the order of the chosen key and
    direction; with the filters that the page starts with it shows every
    task. *)
Theorem filteredAndSortedTasks_shown (tasks : list Task) (filters : Filters)
    (sortBy : SortBy.t) (sortOrder : SortOrder.t) :
  let shown :=
    Dashboard.filteredAndSortedTasks toLowerCase tasks filters sortBy sortOrder in
  shown ≡ₚ filterTasks toLowerCase tasks filters ∧
  (∀ task, task ∈ shown ↔ task ∈ tasks ∧ passes toLowerCase filters task) ∧
  StronglySorted (in_order toLowerCase sortBy sortOrder) shown ∧
  Dashboard.filteredAndSortedTasks toLowerCase tasks Dashboard.initial_filters
    sortBy sortOrder ≡ₚ tasks.
Proof.
  cbn zeta. unfold Dashboard.filteredAndSortedTasks, sortTasks. cbv zeta.
  split; [apply Array_sort_perm|]. split; [|split].
  - intros task. rewrite Array_sort_perm. apply filterTasks_filter.
  - apply Array_sort_sorted;
      [apply _|apply compare_after|apply compare_before].
  - rewrite Array_sort_perm. unfold filterTasks, Array_filter.
    rewrite filter_all; [done|]. apply Forall_forall. intros task _.
    apply filterTasks_callback_passes, passes_initial_filters.
Qed.

End PipelineFacts.
